(** * embeDGG: link classification, resolution and scroll-stable insertion

    A shallow embedding of the content script ([content.js]) and of the
    background service worker ([background.js]) of the embeDGG browser
    extension, together with the properties of the embed pipeline that the
    specification states about them.

    Conventions.
    - JavaScript strings are [string]s of code units below 256; every
      pattern the program matches is ASCII, so case folding and character
      classes are the ASCII ones of ECMAScript.
    - Statements with effects live in a state-and-exception monad [M]; an
      early [return] is an outcome of its own, turned into normal completion
      at the function boundary ([call]).
    - Closures handed to the browser (animation-frame callbacks, message
      callbacks) are defunctionalised into inductive types and run by an
      interpreter that follows the closure bodies. *)

From Stdlib Require Import ZArith Lia ZifyBool Bool List Ascii String.
From stdpp Require Import gmap strings list.
Import ListNotations.

Open Scope string_scope.

(** ** JavaScript strings and the regular expressions of the program *)

Module Js.

Definition code (c : ascii) : nat := nat_of_ascii c.

Definition in_range (lo hi : nat) (c : ascii) : bool :=
  Nat.leb lo (code c) && Nat.leb (code c) hi.

Definition is_digit (c : ascii) : bool := in_range 48 57 c.
Definition is_upper (c : ascii) : bool := in_range 65 90 c.
Definition is_lower (c : ascii) : bool := in_range 97 122 c.

(** [\w], which is also [[a-z0-9_]] under the [i] flag. *)
Definition is_word (c : ascii) : bool :=
  is_digit c || is_upper c || is_lower c || Nat.eqb (code c) 95.

(** White space removed by [String.prototype.trim] (below code unit 256). *)
Definition is_space (c : ascii) : bool :=
  in_range 9 13 c || Nat.eqb (code c) 32 || Nat.eqb (code c) 160.

Definition lower_char (c : ascii) : ascii :=
  if is_upper c then ascii_of_nat (code c + 32) else c.

Fixpoint toLowerCase (s : string) : string :=
  match s with
  | EmptyString => EmptyString
  | String c t => String (lower_char c) (toLowerCase t)
  end.

Fixpoint drop (n : nat) (s : string) : string :=
  match n, s with
  | O, _ => s
  | S _, EmptyString => EmptyString
  | S m, String _ t => drop m t
  end.

Definition is_empty (s : string) : bool :=
  match s with EmptyString => true | String _ _ => false end.

(** Truthiness of a string: non-empty. *)
Definition truthy (s : string) : bool := negb (is_empty s).

(** [a || b] on strings. *)
Definition or_else (a b : string) : string := if truthy a then a else b.

(** [s.startsWith(p)] *)
Definition startsWith (s p : string) : bool := String.prefix p s.

(** An unanchored pattern may match at any index of the subject. *)
Fixpoint search (P : string -> bool) (s : string) : bool :=
  P s || match s with
         | EmptyString => false
         | String _ t => search P t
         end.

(** A literal followed by the rest of the pattern. *)
Definition lit (p : string) (k : string -> bool) (s : string) : bool :=
  if String.prefix p s then k (drop (String.length p) s) else false.

(** [(?:$|\?)] *)
Definition end_or_query (s : string) : bool :=
  match s with
  | EmptyString => true
  | String c _ => Nat.eqb (code c) 63
  end.

(** [\d+] with nothing after it: one digit suffices. *)
Definition digits1 (s : string) : bool :=
  match s with
  | EmptyString => false
  | String c _ => is_digit c
  end.

Definition anything (_ : string) : bool := true.

(** [s.includes(sub)] *)
Definition includes (s sub : string) : bool := search (lit sub anything) s.

(** [/p$/.test(s)] *)
Definition endsWith (s p : string) : bool := search (lit p is_empty) s.

(** [/(^|\.)d$/i.test(h)]: the domain [d] itself or any subdomain. *)
Definition domain_of (d h : string) : bool :=
  let l := toLowerCase h in
  String.eqb l d || endsWith l ("." +:+ d).

(** [h.replace(/^www\./, '')] *)
Definition strip_www (h : string) : string :=
  if String.prefix "www." h then drop 4 h else h.

Fixpoint trimStart (s : string) : string :=
  match s with
  | EmptyString => EmptyString
  | String c t => if is_space c then trimStart t else s
  end.

Fixpoint trimEnd (s : string) : string :=
  match s with
  | EmptyString => EmptyString
  | String c t =>
      let t' := trimEnd t in
      if is_space c && is_empty t' then EmptyString else String c t'
  end.

Definition trim (s : string) : string := trimEnd (trimStart s).

Fixpoint mem_char (c : ascii) (s : string) : bool :=
  match s with
  | EmptyString => false
  | String d t => Ascii.eqb c d || mem_char c t
  end.

(** [s.split(sep).pop()] for a one-character separator. *)
Fixpoint lastSegment (sep : ascii) (s : string) : string :=
  match s with
  | EmptyString => EmptyString
  | String c t =>
      if mem_char sep t then lastSegment sep t
      else if Ascii.eqb c sep then t else s
  end.

Fixpoint split_aux (sep : ascii) (s cur : string) : list string :=
  match s with
  | EmptyString => [cur]
  | String c t =>
      if Ascii.eqb c sep then cur :: split_aux sep t EmptyString
      else split_aux sep t (cur +:+ String c EmptyString)
  end.

(** [s.split(sep)] *)
Definition split (sep : ascii) (s : string) : list string :=
  split_aux sep s EmptyString.

(** [s.split(sep).filter(Boolean)] *)
Definition parts (sep : ascii) (s : string) : list string :=
  List.filter truthy (split sep s).

Fixpoint takeWhile (P : ascii -> bool) (s : string) : string :=
  match s with
  | EmptyString => EmptyString
  | String c t => if P c then String c (takeWhile P t) else EmptyString
  end.

Fixpoint all_chars (P : ascii -> bool) (s : string) : bool :=
  match s with
  | EmptyString => true
  | String c t => P c && all_chars P t
  end.

(** [/\bw\b/.test(s)] for a word [w] made of word characters. *)
Fixpoint word_search (w : string) (prev_word : bool) (s : string) : bool :=
  (negb prev_word
   && lit w (fun r => match r with
                      | EmptyString => true
                      | String c _ => negb (is_word c)
                      end) s)
  || match s with
     | EmptyString => false
     | String c t => word_search w (is_word c) t
     end.

(** The first capture of an unanchored [/p(class+)/]: the longest run of
    [cls] characters after the first occurrence of [p] that has one. *)
Fixpoint capture_after (p : string) (cls : ascii -> bool) (s : string)
  : option string :=
  let here :=
    if String.prefix p s
    then let r := takeWhile cls (drop (String.length p) s) in
         if truthy r then Some r else None
    else None in
  match here with
  | Some r => Some r
  | None => match s with
            | EmptyString => None
            | String _ t => capture_after p cls t
            end
  end.

(** [s.replace(pat, rep)] for a non-empty string [pat]: the first
    occurrence only. *)
Fixpoint replace_first (pat rep s : string) : string :=
  if String.prefix pat s then rep +:+ drop (String.length pat) s
  else match s with
       | EmptyString => EmptyString
       | String c t => String c (replace_first pat rep t)
       end.

(** [s.slice(0, n)] *)
Fixpoint take (n : nat) (s : string) : string :=
  match n, s with
  | O, _ => EmptyString
  | S _, EmptyString => EmptyString
  | S m, String c t => String c (take m t)
  end.

(** [s.replace(/pat/g, rep)] for a non-empty literal [pat]: every
    occurrence, left to right, without rescanning what was inserted. *)
Fixpoint replace_all_aux (pat rep : string) (skipping : nat) (s : string)
  : string :=
  match s with
  | EmptyString => EmptyString
  | String c t =>
      match skipping with
      | S k => replace_all_aux pat rep k t
      | O =>
          if String.prefix pat s
          then rep +:+ replace_all_aux pat rep (String.length pat - 1) t
          else String c (replace_all_aux pat rep 0 t)
      end
  end.

Definition replace_all (pat rep s : string) : string :=
  replace_all_aux pat rep 0 s.

(** The double quote character, as a string. *)
Definition dq : string := String (ascii_of_nat 34) EmptyString.

(** [escapeHtml(s)] *)
Fixpoint escapeHtml (s : string) : string :=
  match s with
  | EmptyString => EmptyString
  | String c t =>
      (match code c with
       | 38 => "&amp;"
       | 60 => "&lt;"
       | 62 => "&gt;"
       | 34 => "&quot;"
       | 39 => "&#39;"
       | _ => String c EmptyString
       end) +:+ escapeHtml t
  end.

(** [x | 0]: ECMAScript ToInt32 of an integer. *)
Definition toInt32 (x : Z) : Z := ((x + 2 ^ 31) mod 2 ^ 32 - 2 ^ 31)%Z.

End Js.

(** ** Statements: state, exceptions and early return *)

Inductive JsError : Type :=
| ReferenceError (name : string)
| TypeError
| SyntaxError
| DOMException.

Inductive Outcome (A : Type) : Type :=
| Normal (a : A)
| Returned
| Thrown (e : JsError).

Arguments Normal {A} a.
Arguments Returned {A}.
Arguments Thrown {A} e.

Definition M (S A : Type) : Type := S -> Outcome A * S.

Definition ret {S A} (a : A) : M S A := fun s => (Normal a, s).

Definition bind {S A B} (m : M S A) (k : A -> M S B) : M S B :=
  fun s =>
    match m s with
    | (Normal a, s') => k a s'
    | (Returned, s') => (Returned, s')
    | (Thrown e, s') => (Thrown e, s')
    end.

Declare Scope js_scope.
Delimit Scope js_scope with js.
Notation "x <- m ;; k" := (bind m (fun x => k))
  (at level 100, m at next level, right associativity) : js_scope.
Notation "m ;; k" := (bind m (fun _ => k))
  (at level 100, right associativity) : js_scope.

Definition gets {S A} (f : S -> A) : M S A := fun s => (Normal (f s), s).
Definition modify {S} (f : S -> S) : M S unit := fun s => (Normal tt, f s).
Definition throw {S A} (e : JsError) : M S A := fun s => (Thrown e, s).

(** The [return;] statement. *)
Definition return_ {S A} : M S A := fun s => (Returned, s).

Definition skip {S} : M S unit := ret tt.

(** [if (c) stmt] *)
Definition when {S} (c : bool) (m : M S unit) : M S unit :=
  if c then m else skip.

(** A call of a function whose result is not used: [return] ends the callee
    only. *)
Definition call {S} (m : M S unit) : M S unit :=
  fun s =>
    match m s with
    | (Returned, s') => (Normal tt, s')
    | r => r
    end.

(** [try { body } catch (_) { handler }] *)
Definition try_catch {S} (body : M S unit) (handler : JsError -> M S unit)
  : M S unit :=
  fun s =>
    match body s with
    | (Thrown e, s') => handler e s'
    | r => r
    end.

(** [try { body } finally { fin }] *)
Definition try_finally {S} (body fin : M S unit) : M S unit :=
  fun s =>
    match body s with
    | (o, s') =>
        match fin s' with
        | (Normal _, s'') => (o, s'')
        | r => r
        end
    end.

(** State after running, whatever the outcome. *)
Definition exec {S A} (m : M S A) (s : S) : S := snd (m s).
Definition outcome {S A} (m : M S A) (s : S) : Outcome A := fst (m s).

Definition throws {A} (o : Outcome A) : bool :=
  match o with Thrown _ => true | _ => false end.

(** ** The media pager of a tweet card ([initTweetMediaPager]) *)

Module Pager.

Open Scope Z_scope.

Inductive Display : Type := Block | Hidden.

(** One entry of [items]: the media element, whether it is a [<video>],
    and [el.closest('.edgg-spoiler')] when there is one. *)
Record Item : Type := {
  el : nat;
  isVideo : bool;
  holder : option nat
}.

(** [holder || el] *)
Definition node (it : Item) : nat :=
  match holder it with
  | Some h => h
  | None => el it
  end.

Record Pager : Type := {
  items : list Item;
  idx : Z;
  display : gmap nat Display;     (* node.style.display, by node *)
  playing : gset nat;             (* videos that are playing *)
  counter : option (Z * Z);       (* "i / n" *)
  prevDisplay : option Display;
  nextDisplay : option Display;
  counterDisplay : option Display
}.

(** The [for] loop of [show]: item [k] is displayed exactly when [k = idx]. *)
Fixpoint show_loop (its : list Item) (k i : Z)
    (d : gmap nat Display) (pl : gset nat) : gmap nat Display * gset nat :=
  match its with
  | [] => (d, pl)
  | it :: rest =>
      let on := k =? i in
      let d' := <[node it := if on then Block else Hidden]> d in
      let pl' := if negb on && isVideo it then pl ∖ {[el it]} else pl in
      show_loop rest (k + 1) i d' pl'
  end.

Definition show (i : Z) (p : Pager) : Pager :=
  match items p with
  | [] => p
  | _ =>
      let n := Z.of_nat (length (items p)) in
      let i' := Z.max 0 (Z.min i (n - 1)) in
      let '(d, pl) := show_loop (items p) 0 i' (display p) (playing p) in
      {| items := items p;
         idx := i';
         display := d;
         playing := pl;
         counter := Some (i' + 1, n);
         (* updateButtonVisibility *)
         prevDisplay := Some (if 0 <? i' then Block else Hidden);
         nextDisplay := Some (if i' <? n - 1 then Block else Hidden);
         counterDisplay := Some Block |}
  end.

(** The pager of a group: none unless the group has more than one item;
    the initial layout is [show(0)]. *)
Definition init (its : list Item) (pl : gset nat) : option Pager :=
  if (length its <=? 1)%nat then None
  else Some (show 0 {| items := its; idx := 0; display := ∅; playing := pl;
                       counter := None; prevDisplay := None;
                       nextDisplay := None; counterDisplay := None |}).

(** What the listeners ask of [safePageTo]. *)
Inductive Op : Type :=
| ClickPrev
| ClickNext
| ClickItem (k : nat).

(** The index a listener passes to [safePageTo], if it calls it at all. *)
Definition requested (op : Op) (p : Pager) : option Z :=
  match op with
  | ClickPrev => Some (idx p - 1)
  | ClickNext => Some (idx p + 1)
  | ClickItem k =>
      match items p !! k with
      | Some it =>
          if isVideo it then None
          else if idx p <? Z.of_nat (length (items p)) - 1
               then Some (idx p + 1) else None
      | None => None
      end
  end.

Definition step (op : Op) (p : Pager) : Pager :=
  match requested op p with
  | Some i => show i p
  | None => p
  end.

Definition run (ops : list Op) (p : Pager) : Pager :=
  fold_left (fun q op => step op q) ops p.

(** An item is on screen unless its node carries [display: none]. *)
Definition visible (p : Pager) (it : Item) : bool :=
  match display p !! node it with
  | Some Hidden => false
  | _ => true
  end.

Definition visible_count (p : Pager) : nat :=
  length (List.filter (visible p) (items p)).

End Pager.

(** ** URLs, anchors and the pure helpers of the embed router *)

Module Dom.

(** A parsed URL (the browser's [URL] object, without credentials or
    port). [searchParams] are the decoded pairs of [search]. *)
Record URL : Type := {
  protocol : string;
  hostname : string;
  pathname : string;
  search : string;
  hash : string;
  searchParams : list (string * string)
}.

(** [u.href] *)
Definition href (u : URL) : string :=
  protocol u +:+ "//" +:+ hostname u +:+ pathname u +:+ search u +:+ hash u.

(** [u.searchParams.get(k)] *)
Fixpoint params_get (k : string) (ps : list (string * string))
  : option string :=
  match ps with
  | [] => None
  | (k', v) :: rest => if String.eqb k k' then Some v else params_get k rest
  end.

Definition searchParams_get (k : string) (u : URL) : option string :=
  params_get k (searchParams u).

(** An [<a href>] element; [a_url] is [new URL(a.href, location.href)]. *)
Record Anchor : Type := {
  a_id : nat;
  a_url : URL;
  textContent : string
}.

Definition a_href (a : Anchor) : string := href (a_url a).

Inductive Label : Type := NSFW | NSFL.

Record Settings : Type := {
  enableTweets : bool;
  enableMedia : bool;
  enableYouTube : bool;
  enableTwitch : bool;
  enableKick : bool;
  enableInstagram : bool;
  blurMedia : bool
}.

Definition MEDIA_WHITELIST : gset string :=
  list_to_set
    [ "cdn.syndication.twimg.com"; "destiny.gg/embed/chat*"; "twitter.com";
      "mobile.twitter.com"; "pic.twitter.com";
      "x.com"; "t.co"; "nitter.net"; "fxtwitter.com"; "vxtwitter.com";
      "imgur.com"; "i.imgur.com"; "flickr.com";
      "youtube.com"; "youtu.be"; "vimeo.com"; "giphy.com";
      "media.giphy.com"; "tenor.com";
      "media.tenor.com"; "streamable.com"; "dropbox.com";
      "*.dropboxusercontent.com";
      "onedrive.live.com"; "photos.google.com";
      "lh3.googleusercontent.com"; "icloud.com";
      "res.cloudinary.com"; "s3.amazonaws.com"; "cdn.discordapp.com";
      "i.4cdn.org"; "kick.com";
      "twitch.tv"; "www.twitch.tv"; "files.catbox.moe";
      "destiny.gg/bigscreen*"; "packaged-media.redd.it"; "reddit.com";
      "i.redd.it"; "preview.redd.it"; "v.redd.it";
      "cdn.syndication.twimg.com"; "publish.twitter.com";
      "pbs.twimg.com"; "video.twimg.com"; "i.kym-cdn.com" ].

(** [MEDIA_WHITELIST.has(h)] *)
Definition whitelist_has (h : string) : bool :=
  bool_decide (h ∈ MEDIA_WHITELIST).

Definition one_of (l : list string) (s : string) : bool :=
  existsb (String.eqb s) l.

(** [MEDIA_EXT = /\.(png|jpe?g|gif|webp|mp4|webm|mov)$/i] *)
Definition MEDIA_EXT (path : string) : bool :=
  existsb (Js.endsWith (Js.toLowerCase path))
    [".png"; ".jpg"; ".jpeg"; ".gif"; ".webp"; ".mp4"; ".webm"; ".mov"].

Definition isTwitterImageUrl (u : URL) : bool :=
  let h := Js.strip_www (Js.toLowerCase (hostname u)) in
  if negb (String.eqb h "pbs.twimg.com") then false
  else
    let fmt := Js.toLowerCase (default "" (searchParams_get "format" u)) in
    one_of ["jpg"; "jpeg"; "png"; "webp"; "gif"] fmt.

Definition isTwitterVideoUrl (u : URL) : bool :=
  let h := Js.strip_www (Js.toLowerCase (hostname u)) in
  if negb (String.eqb h "video.twimg.com") then false
  else
    let path := Js.toLowerCase (pathname u) in
    Js.search (Js.lit ".mp4" Js.end_or_query) path
    || Js.includes path "/vid/"
    || Js.includes path "/mp4/".

Definition isTweetUrlHost (host : string) : bool :=
  let h := Js.strip_www (Js.toLowerCase host) in
  one_of ["twitter.com"; "x.com"; "mobile.twitter.com"; "fxtwitter.com";
          "vxtwitter.com"; "nitter.net"] h.

(** [/\/status\/\d+/.test(p) || /\/i\/web\/status\/\d+/.test(p)] *)
Definition status_path (p : string) : bool :=
  Js.search (Js.lit "/status/" Js.digits1) p
  || Js.search (Js.lit "/i/web/status/" Js.digits1) p.

(** [/^pic\.twitter\.com$/i.test(host.replace(/^www\./, ''))] *)
Definition isPicShortHost (host : string) : bool :=
  String.eqb (Js.toLowerCase (Js.strip_www host)) "pic.twitter.com".

(** [/^t\.co$/i.test(host)] *)
Definition isTcoHost (host : string) : bool :=
  String.eqb (Js.toLowerCase host) "t.co".

(** [^#twitch\/([a-z0-9_]+)] under the [i] flag: the capture. *)
Definition twitch_hash_capture (s : string) : option string :=
  if String.prefix "#twitch/" (Js.toLowerCase s)
  then let r := Js.takeWhile Js.is_word (Js.drop 8 s) in
       if Js.truthy r then Some r else None
  else None.

Definition extractDggBigscreenTwitch (u : URL) (linkText : string)
  : option string :=
  let isDgg := Js.domain_of "destiny.gg" (hostname u)
               && Js.startsWith (pathname u) "/bigscreen" in
  let from_hash :=
    if isDgg && Js.truthy (hash u) then twitch_hash_capture (hash u)
    else None in
  match from_hash with
  | Some c => Some c
  | None =>
      let t := Js.trim linkText in
      if Js.is_empty t then None
      else
        (* /^#twitch\/([a-z0-9_]+)$/i *)
        match twitch_hash_capture t with
        | Some c => if String.eqb (Js.drop 8 t) c then Some c else None
        | None => None
        end
  end.

(** The id, possibly the empty string; [None] is [null]. *)
Definition extractYouTubeId (u : URL) : option string :=
  if String.eqb (hostname u) "youtu.be" then Some (Js.drop 1 (pathname u))
  else if Js.includes (hostname u) "youtube.com" then
    match searchParams_get "v" u with
    | Some v =>
        if Js.truthy v then Some v
        else Js.capture_after "/shorts/"
               (fun c => negb (Ascii.eqb c "/")) (pathname u)
    | None =>
        Js.capture_after "/shorts/"
          (fun c => negb (Ascii.eqb c "/")) (pathname u)
    end
  else None.

(** [{ channel, video }] *)
Definition extractTwitch (u : URL) : option string * option string :=
  match Js.parts "/" (pathname u) with
  | p0 :: p1 :: _ =>
      if String.eqb p0 "videos" then (None, Some p1) else (Some p0, None)
  | [p0] => (Some p0, None)
  | [] => (None, None)
  end.

Definition extractKick (u : URL) : option string * option string :=
  match Js.parts "/" (pathname u) with
  | [] => (None, None)
  | p0 :: p1 :: _ =>
      if String.eqb p0 "video" || String.eqb p0 "videos"
      then (None, Some p1) else (Some p0, None)
  | [p0] => (Some p0, None)
  end.

Definition isCspBlockedHost (host : string) : bool :=
  let h := Js.toLowerCase host in
  let dom d := String.eqb h d || Js.endsWith h ("." +:+ d) in
  dom "files.catbox.moe" || dom "video.twimg.com" || dom "v.redd.it"
  || Js.endsWith h "cdninstagram.com".

(** [getSensitivityLabel] on the container's text. *)
Definition sensitivity_of (innerText : string) : option Label :=
  let text := Js.toLowerCase innerText in
  if Js.word_search "nsfl" false text then Some NSFL
  else if Js.word_search "nsfw" false text then Some NSFW
  else None.

Definition is_label (l : Label) (s : option Label) : bool :=
  match s, l with
  | Some NSFW, NSFW | Some NSFL, NSFL => true
  | _, _ => false
  end.

(** [(url.pathname.split(".").pop() || "").toLowerCase()] *)
Definition fileExt (path : string) : string :=
  Js.toLowerCase (Js.lastSegment "." path).

Definition IMAGE_EXTS : list string := ["png"; "jpg"; "jpeg"; "gif"; "webp"].
Definition VIDEO_EXTS : list string := ["mp4"; "webm"; "mov"].

Definition video_mime (ext : string) : string :=
  if String.eqb ext "mp4" then "video/mp4"
  else if String.eqb ext "webm" then "video/webm"
  else "video/quicktime".

End Dom.

(** ** The page: shared state, the message under scan, scroller and queues *)

Module Page.

Import Dom.
Open Scope Z_scope.
Open Scope list_scope.
Open Scope js_scope.

Inductive CardKind : Type :=
  BigscreenCard | YouTubeCard | TwitchCard | KickCard.

(** Media children of a card body. *)
Inductive Media : Type :=
| ImgNode (src : string)
| VideoNode (src mime : string).

(** The body of a tweet card ([.edgg-tweet-body]). *)
Inductive TweetBody : Type :=
| LoadingTweet
| LinkOnly (link : URL)
| RenderedTweet (user textHtml : string) (textLinks : list (URL * string))
    (media : list Media) (origin : URL).

(** The element handed to [injectBelow] or wrapped by a link card. *)
Inductive Element : Type :=
| IMG (src : string)
| VIDEO (source : option (string * string))
| TWEET (body : TweetBody)
| BLOCK (media : list Media) (caption : string) (footer : option URL)
| CARD (k : CardKind) (link : URL) (title : string) (thumb : option string).

(** An injected [div.edgg-wrap], child of the message node. *)
Record Wrap : Type := {
  w_id : nat;
  w_origin : option string;        (* data-edgg-origin *)
  w_sensitivity : option Label;    (* data-edgg-sensitivity *)
  w_el : Element;
  w_dataSrc : option string;       (* data-edgg-src of the element *)
  w_link : option URL;             (* a.edgg-media-link around an IMG *)
  w_cover : bool                   (* .edgg-spoiler-cover present *)
}.

Definition with_cover (c : bool) (x : Wrap) : Wrap :=
  {| w_id := w_id x; w_origin := w_origin x;
     w_sensitivity := w_sensitivity x; w_el := w_el x;
     w_dataSrc := w_dataSrc x; w_link := w_link x; w_cover := c |}.

Definition with_el (e : Element) (x : Wrap) : Wrap :=
  {| w_id := w_id x; w_origin := w_origin x;
     w_sensitivity := w_sensitivity x; w_el := e;
     w_dataSrc := w_dataSrc x; w_link := w_link x; w_cover := w_cover x |}.

Definition mk_anchor (id : nat) (text : string) (u : URL) : Anchor :=
  {| a_id := id; a_url := u; textContent := text |}.

(** [wrap.querySelectorAll("a[href]")] in document order. *)
Definition anchors_in (x : Wrap) : list Anchor :=
  match w_el x with
  | IMG _ =>
      match w_link x with
      | Some u => [mk_anchor (w_id x) "" u]
      | None => []
      end
  | VIDEO _ => []
  | TWEET LoadingTweet => []
  | TWEET (LinkOnly u) => [mk_anchor (w_id x) (href u) u]
  | TWEET (RenderedTweet _ _ links _ origin) =>
      map (fun l => mk_anchor (w_id x) l.2 l.1) links
      ++ [mk_anchor (w_id x) "Open on Twitter" origin]
  | BLOCK _ _ footer =>
      match footer with
      | Some u => [mk_anchor (w_id x) "Open on Reddit" u]
      | None => []
      end
  | CARD _ u title _ => [mk_anchor (w_id x) title u]
  end.

(** [wrap.querySelectorAll('img,video,iframe')], counted. *)
Definition media_count (e : Element) : nat :=
  match e with
  | IMG _ | VIDEO _ => 1
  | TWEET (RenderedTweet _ _ _ media _) => length media
  | TWEET _ => 0
  | BLOCK media _ _ => length media
  | CARD _ _ _ thumb => match thumb with Some _ => 1 | None => 0 end
  end.

Record STATE : Type := {
  settings : Settings;
  stickyWanted : bool;
  insertingEmbed : bool
}.

(** What the router reads from the host page and from the browser. *)
Record HostPage : Type := {
  bodyInnerText : string;     (* document.body.innerText *)
  hidensfl : bool;            (* isHideNsflEnabled() *)
  hidensfw : bool;            (* isHideNsfwEnabled() *)
  showremoved : string;       (* getShowRemovedSetting() *)
  parseURL : string -> option URL;  (* new URL(s, location.href) *)
  untracked : string -> bool  (* truthiness of variables the model leaves out *)
}.

(** The message node [el] that is scanned; injected wraps are appended to
    it. [appendFault] is the exception [appendChild] raises, if any, and
    [wrapHeight] what a new wrap adds to the scroller's content. *)
Record Message : Type := {
  innerText : string;
  anchors : list Anchor;
  wraps : list Wrap;
  tcoResolved : gset nat;     (* anchors with __edggResolvedTco *)
  linkInView : bool;          (* isElementInView(container, scroller) *)
  appendFault : option JsError;
  wrapHeight : Z
}.

Record Scroller : Type := {
  scrollHeight : Z;
  scrollTop : Z;
  clientHeight : Z
}.

(** Closures handed to [requestAnimationFrame], [setTimeout], listeners. *)
Inductive Task : Type :=
| DoScroll
| DoScrollIfSticky
| DisconnectObserver (wrap : nat)
| PagerFrame1 (savedScrollTop : Z) (wasStickyWanted wasInserting : bool)
| PagerFrame2 (savedScrollTop : Z) (wasStickyWanted wasInserting : bool).

(** Requests to the background worker. *)
Inductive BgMsg : Type :=
| BgFetch (url : string)
| BgFetchTwitchChannel (channel : string)  (* https://www.twitch.tv/<c> *)
| BgFetchTwitchVideo (video : string)   (* https://www.twitch.tv/videos/<v> *)
| FetchTweet (url : string)
| OEmbedYouTube (videoUrl : string).

(** The callbacks passed to [safeSendMessage], with what they capture. *)
Inductive Callback : Type :=
| OnTcoResolved (a : Anchor)
| OnBigscreenPage (chan : string) (card : nat)
| OnTweetData (a : Anchor) (card : nat) (sens : option Label)
| OnYouTubeOembed (card : nat)
| OnYouTubePage (ytId : string) (card : nat)
| OnTwitchPage (channel video : option string) (card : nat)
| OnKickPage (link : URL) (kChan kVid : option string) (card : nat)
| OnImgurPage (origin : URL) (sens : option Label)
| OnInstagramPage (primary : URL) (sens : option Label)
| OnRedditJson (origin : URL) (sens : option Label)
| OnSecondPass (a : Anchor) (card : nat)
| OnTcoLinkExpanded (card : nat) (link : URL).

Record Request : Type := { rq_msg : BgMsg; rq_cb : Callback }.

Record World : Type := {
  st : STATE;
  host : HostPage;
  msg : Message;
  scroller : Scroller;
  pager : Pager.Pager;
  frames : list Task;                (* requestAnimationFrame queue *)
  timeouts : list (Z * Task);        (* setTimeout(task, ms) *)
  loadListeners : list (nat * Task); (* once-listeners on a wrap's media *)
  observers : list (nat * Task);     (* ResizeObserver on a wrap *)
  outbox : list Request;             (* messages awaiting a response *)
  refreshers : list (nat * string * Z);
    (* calls startThumbAutoRefresh(thumb of card, baseUrl, periodMs) *)
  nextId : nat
}.

Definition with_st (f : STATE -> STATE) (w : World) : World :=
  {| st := f (st w); host := host w; msg := msg w; scroller := scroller w;
     pager := pager w; frames := frames w; timeouts := timeouts w;
     loadListeners := loadListeners w; observers := observers w;
     outbox := outbox w; refreshers := refreshers w; nextId := nextId w |}.

Definition with_msg (f : Message -> Message) (w : World) : World :=
  {| st := st w; host := host w; msg := f (msg w); scroller := scroller w;
     pager := pager w; frames := frames w; timeouts := timeouts w;
     loadListeners := loadListeners w; observers := observers w;
     outbox := outbox w; refreshers := refreshers w; nextId := nextId w |}.

Definition with_scroller (f : Scroller -> Scroller) (w : World) : World :=
  {| st := st w; host := host w; msg := msg w; scroller := f (scroller w);
     pager := pager w; frames := frames w; timeouts := timeouts w;
     loadListeners := loadListeners w; observers := observers w;
     outbox := outbox w; refreshers := refreshers w; nextId := nextId w |}.

Definition with_pager (f : Pager.Pager -> Pager.Pager) (w : World) : World :=
  {| st := st w; host := host w; msg := msg w; scroller := scroller w;
     pager := f (pager w); frames := frames w; timeouts := timeouts w;
     loadListeners := loadListeners w; observers := observers w;
     outbox := outbox w; refreshers := refreshers w; nextId := nextId w |}.

Definition with_frames (f : list Task -> list Task) (w : World) : World :=
  {| st := st w; host := host w; msg := msg w; scroller := scroller w;
     pager := pager w; frames := f (frames w); timeouts := timeouts w;
     loadListeners := loadListeners w; observers := observers w;
     outbox := outbox w; refreshers := refreshers w; nextId := nextId w |}.

Definition with_timeouts (f : list (Z * Task) -> list (Z * Task))
    (w : World) : World :=
  {| st := st w; host := host w; msg := msg w; scroller := scroller w;
     pager := pager w; frames := frames w; timeouts := f (timeouts w);
     loadListeners := loadListeners w; observers := observers w;
     outbox := outbox w; refreshers := refreshers w; nextId := nextId w |}.

Definition with_listeners (f : list (nat * Task) -> list (nat * Task))
    (w : World) : World :=
  {| st := st w; host := host w; msg := msg w; scroller := scroller w;
     pager := pager w; frames := frames w; timeouts := timeouts w;
     loadListeners := f (loadListeners w); observers := observers w;
     outbox := outbox w; refreshers := refreshers w; nextId := nextId w |}.

Definition with_observers (f : list (nat * Task) -> list (nat * Task))
    (w : World) : World :=
  {| st := st w; host := host w; msg := msg w; scroller := scroller w;
     pager := pager w; frames := frames w; timeouts := timeouts w;
     loadListeners := loadListeners w; observers := f (observers w);
     outbox := outbox w; refreshers := refreshers w; nextId := nextId w |}.

Definition with_outbox (f : list Request -> list Request) (w : World)
  : World :=
  {| st := st w; host := host w; msg := msg w; scroller := scroller w;
     pager := pager w; frames := frames w; timeouts := timeouts w;
     loadListeners := loadListeners w; observers := observers w;
     outbox := f (outbox w); refreshers := refreshers w;
     nextId := nextId w |}.

Definition with_nextId (f : nat -> nat) (w : World) : World :=
  {| st := st w; host := host w; msg := msg w; scroller := scroller w;
     pager := pager w; frames := frames w; timeouts := timeouts w;
     loadListeners := loadListeners w; observers := observers w;
     outbox := outbox w; refreshers := refreshers w;
     nextId := f (nextId w) |}.

Definition with_refreshers
    (f : list (nat * string * Z) -> list (nat * string * Z)) (w : World)
  : World :=
  {| st := st w; host := host w; msg := msg w; scroller := scroller w;
     pager := pager w; frames := frames w; timeouts := timeouts w;
     loadListeners := loadListeners w; observers := observers w;
     outbox := outbox w; refreshers := f (refreshers w);
     nextId := nextId w |}.

Definition set_stickyWanted (b : bool) : M World unit :=
  modify (with_st (fun s => {| settings := settings s; stickyWanted := b;
                               insertingEmbed := insertingEmbed s |})).

Definition set_insertingEmbed (b : bool) : M World unit :=
  modify (with_st (fun s => {| settings := settings s;
                               stickyWanted := stickyWanted s;
                               insertingEmbed := b |})).

(** [scroller.scrollTop = v]; the browser clamps to the scrollable range. *)
Definition set_scrollTop (v : Z) : M World unit :=
  modify (with_scroller (fun s =>
    {| scrollHeight := scrollHeight s;
       scrollTop := Z.max 0 (Z.min v (scrollHeight s - clientHeight s));
       clientHeight := clientHeight s |})).

Definition fresh : M World nat :=
  fun w => (Normal (nextId w), with_nextId S w).

(** * Scroll helpers *)

(** [isAtBottom(scroller, threshold = 32)] *)
Definition isAtBottom (threshold : Z) (w : World) : bool :=
  scrollHeight (scroller w) - scrollTop (scroller w)
    - clientHeight (scroller w) <=? threshold.

Definition scrollToBottom : M World unit :=
  h <- gets (fun w => scrollHeight (scroller w));;
  set_scrollTop h.


(** [doScroll] of [maintainStickyAfterAppend]. *)
Definition doScroll : M World unit :=
  c <- gets (fun w => stickyWanted (st w) || isAtBottom 2 w);;
  when c scrollToBottom.

Definition requestAnimationFrame (t : Task) : M World unit :=
  modify (with_frames (fun q => q ++ [t])).

Definition setTimeout (t : Task) (ms : Z) : M World unit :=
  modify (with_timeouts (fun q => q ++ [(ms, t)])).

Definition maintainStickyAfterAppend (shouldStick : bool) (root : Wrap)
  : M World unit :=
  when (negb shouldStick) return_ ;;
  doScroll ;;
  requestAnimationFrame DoScroll ;;
  setTimeout DoScroll 50 ;;
  setTimeout DoScroll 150 ;;
  setTimeout DoScroll 300 ;;
  setTimeout DoScrollIfSticky 800 ;;
  modify (with_listeners (fun l =>
    l ++ repeat (w_id root, DoScroll) (media_count (w_el root)))) ;;
  modify (with_observers (fun l => l ++ [(w_id root, DoScrollIfSticky)])) ;;
  setTimeout (DisconnectObserver (w_id root)) 2000.

(** [container.appendChild(wrap)] *)
Definition appendChild (x : Wrap) : M World unit :=
  fault <- gets (fun w => appendFault (msg w));;
  match fault with
  | Some e => throw e
  | None =>
      modify (with_msg (fun m =>
        {| innerText := innerText m; anchors := anchors m;
           wraps := wraps m ++ [x]; tcoResolved := tcoResolved m;
           linkInView := linkInView m; appendFault := appendFault m;
           wrapHeight := wrapHeight m |})) ;;
      modify (fun w => with_scroller (fun s =>
        {| scrollHeight := scrollHeight s + wrapHeight (msg w);
           scrollTop := scrollTop s;
           clientHeight := clientHeight s |}) w)
  end.

Definition safeAppendEmbed (x : Wrap) (shouldStick : bool) : M World unit :=
  wasStickyWanted <- gets (fun w => stickyWanted (st w));;
  set_insertingEmbed true ;;
  try_finally
    (appendChild x)
    (set_insertingEmbed false ;;
     when wasStickyWanted (set_stickyWanted true)) ;;
  call (maintainStickyAfterAppend shouldStick x).

(** [safePageTo] of the pager's closure. *)
Definition safePageTo (newIdx : Z) : M World unit :=
  wasInserting <- gets (fun w => insertingEmbed (st w));;
  wasStickyWanted <- gets (fun w => stickyWanted (st w));;
  savedScrollTop <- gets (fun w => scrollTop (scroller w));;
  set_insertingEmbed true ;;
  modify (with_pager (Pager.show newIdx)) ;;
  set_scrollTop savedScrollTop ;;
  requestAnimationFrame
    (PagerFrame1 savedScrollTop wasStickyWanted wasInserting).

(** A click on the pager's buttons or on one of its items. *)
Definition pagerClick (op : Pager.Op) : M World unit :=
  r <- gets (fun w => Pager.requested op (pager w));;
  match r with
  | Some i => safePageTo i
  | None => skip
  end.

Definition run_task (t : Task) : M World unit :=
  match t with
  | DoScroll => doScroll
  | DoScrollIfSticky =>
      s <- gets (fun w => stickyWanted (st w)) ;; when s doScroll
  | DisconnectObserver id =>
      modify (with_observers
                (List.filter (fun o => negb (Nat.eqb o.1 id))))
  | PagerFrame1 saved wasSticky wasInserting =>
      set_scrollTop saved ;;
      requestAnimationFrame (PagerFrame2 saved wasSticky wasInserting)
  | PagerFrame2 saved wasSticky wasInserting =>
      set_scrollTop saved ;;
      set_stickyWanted wasSticky ;;
      set_insertingEmbed wasInserting
  end.

(** One animation frame: the callbacks queued so far run in order; what
    they queue waits for the next frame. *)
Definition animationFrame (w : World) : World :=
  let due := frames w in
  fold_left (fun w' t => exec (run_task t) w') due
    (with_frames (fun _ => []) w).

End Page.

(** ** The embed router ([maybeEmbedInNode], [tryEmbed], [injectBelow]) *)

Module Router.

Import Dom Page.
Open Scope list_scope.
Open Scope js_scope.

(** [safeSendMessage(msg, cb)] with a live extension context: the message
    is posted and [cb] runs later with the response, or with [null] when
    the runtime reports an error. (With a dead context the source calls
    [cb(null)] at once.) *)
Definition safeSendMessage (m : BgMsg) (cb : Callback) : M World unit :=
  modify (with_outbox (fun q => q ++ [{| rq_msg := m; rq_cb := cb |}])).

Definition update_wrap (id : nat) (f : Wrap -> Wrap) : M World unit :=
  modify (with_msg (fun m =>
    {| innerText := innerText m; anchors := anchors m;
       wraps := map (fun x => if Nat.eqb (w_id x) id then f x else x)
                    (wraps m);
       tcoResolved := tcoResolved m;
       linkInView := linkInView m; appendFault := appendFault m;
       wrapHeight := wrapHeight m |})).

(** [applySpoilerIfNeeded(wrap, label, force)] on a wrap that was just
    inserted (neither revealed nor covered yet). *)
Definition applySpoilerIfNeeded (id : nat) (force : bool) : M World unit :=
  blur <- gets (fun w => blurMedia (settings (st w)));;
  update_wrap id (fun x =>
    if Nat.eqb (media_count (w_el x)) 0 then x
    else if negb blur && negb force then x
    else if w_cover x then x
    else with_cover true x).

(** [container.querySelector('[data-edgg-src="<d>"]')] finds something. *)
Definition has_data_src (d : string) (m : Message) : bool :=
  existsb (fun x => match w_dataSrc x with
                    | Some s => String.eqb s d
                    | None => false
                    end) (wraps m).

Definition shouldStick_now (w : World) : bool :=
  linkInView (msg w) && (stickyWanted (st w) || isAtBottom 2 w).

(** [injectBelow(container, el, originUrl, desiredWidthPx, sensitivityLabel)];
    [id] is the identity of the element [el] the caller created. Widths and
    the [target]/[rel] attributes set by [retargetLinks] are presentation
    and are not represented. *)
Definition injectBelow (id : nat) (el : Element) (originUrl : URL)
    (sensitivityLabel : option Label) : M World unit :=
  shouldStick <- gets shouldStick_now;;
  let dataUrl :=
    match el with
    | IMG src => if Js.truthy src then Some src else None
    | _ => None
    end in
  match dataUrl with
  | Some d => dup <- gets (fun w => has_data_src d (msg w));;
              when dup return_
  | None => skip
  end ;;
  let wrap :=
    {| w_id := id;
       w_origin := if Js.truthy (href originUrl)
                   then Some (href originUrl) else None;
       w_sensitivity := sensitivityLabel;
       w_el := el;
       w_dataSrc := dataUrl;
       w_link := match el with IMG _ => Some originUrl | _ => None end;
       w_cover := false |} in
  safeAppendEmbed wrap shouldStick ;;
  applySpoilerIfNeeded id (match sensitivityLabel with
                           | Some _ => true
                           | None => false
                           end).

(** The link cards of the Twitch, YouTube and Kick branches: built in
    place and appended with [safeAppendEmbed], without origin marker. *)
Definition insertCard (k : CardKind) (a : Anchor) (thumb : string)
  : M World nat :=
  id <- fresh;;
  shouldStick <- gets shouldStick_now;;
  safeAppendEmbed
    {| w_id := id; w_origin := None; w_sensitivity := None;
       w_el := CARD k (a_url a) "Loading…" (Some thumb);
       w_dataSrc := None; w_link := None; w_cover := false |}
    shouldStick ;;
  ret id.

(** [pathname.replace(/^\/reels\//i, '/p/').replace(/^\/reel\//i, '/p/')] *)
Definition reel_to_post (p : string) : string :=
  let p1 := if String.prefix "/reels/" (Js.toLowerCase p)
            then "/p/" +:+ Js.drop 7 p else p in
  if String.prefix "/reel/" (Js.toLowerCase p1)
  then "/p/" +:+ Js.drop 6 p1 else p1.

Definition canonicalizeInstagramUrl (u : URL) : URL :=
  let h := Js.strip_www (hostname u) in
  if negb (Js.domain_of "instagram.com" h) then u
  else {| protocol := protocol u; hostname := h;
          pathname := reel_to_post (pathname u);
          search := search u; hash := hash u;
          searchParams := searchParams u |}.

Definition resolveAndEmbedImgur (originUrl : URL) (sens : option Label)
  : M World unit :=
  try_catch
    (safeSendMessage (BgFetch (href originUrl)) (OnImgurPage originUrl sens))
    (fun _ => skip).

Definition resolveAndEmbedInstagram (originUrl : URL) (sens : option Label)
  : M World unit :=
  try_catch
    (let primary := canonicalizeInstagramUrl originUrl in
     safeSendMessage (BgFetch (href primary)) (OnInstagramPage primary sens))
    (fun _ => skip).

(** [u.origin + u.pathname.replace(/\/?$/, '/') + '.json?raw_json=1'] *)
Definition redditApiUrl (u : URL) : string :=
  protocol u +:+ "//" +:+ hostname u
  +:+ (if Js.endsWith (pathname u) "/" then pathname u
       else pathname u +:+ "/")
  +:+ ".json?raw_json=1".

Definition resolveAndEmbedReddit (originUrl : URL) (sens : option Label)
  : M World unit :=
  safeSendMessage (BgFetch (redditApiUrl originUrl))
    (OnRedditJson originUrl sens).

Definition is_some {A} (o : option A) : bool :=
  match o with Some _ => true | None => false end.

Definition tryEmbed (a : Anchor) : M World unit :=
  let url := a_url a in
  let h := hostname url in
  sensitivity <- gets (fun w => sensitivity_of (innerText (msg w)));;
  let linkText := Js.trim (textContent a) in
  when (String.eqb linkText "(source)") return_ ;;
  page <- gets host;;
  when (is_label NSFL sensitivity && hidensfl page) return_ ;;
  when (is_label NSFW sensitivity && hidensfw page
        && String.eqb (showremoved page) "0") return_ ;;
  let pageText := Js.toLowerCase (bodyInnerText page) in
  when (Js.includes pageText "log in" && negb (Js.includes pageText "logout"))
    return_ ;;
  let isTweet := isTweetUrlHost h && status_path (pathname url) in
  let isPicShort := isPicShortHost h in
  let looksLikeMediaPath :=
    MEDIA_EXT (pathname url) || isTwitterImageUrl url
    || isTwitterVideoUrl url in
  let isWhitelisted :=
    whitelist_has h || isTwitterImageUrl url || isTwitterVideoUrl url in
  (* t.co shortlinks: resolve, then re-run once on the destination *)
  resolved <- gets (fun w => bool_decide (a_id a ∈ tcoResolved (msg w)));;
  when (isTcoHost h && negb resolved)
    (modify (with_msg (fun m =>
       {| innerText := innerText m; anchors := anchors m; wraps := wraps m;
          tcoResolved := {[a_id a]} ∪ tcoResolved m;
          linkInView := linkInView m; appendFault := appendFault m;
          wrapHeight := wrapHeight m |})) ;;
     safeSendMessage (BgFetch (a_href a)) (OnTcoResolved a) ;;
     return_) ;;
  cfg <- gets (fun w => settings (st w));;
  (* DGG bigscreen Twitch hash links *)
  when (enableTwitch cfg)
    (match extractDggBigscreenTwitch url linkText with
     | Some chan =>
         card <- insertCard BigscreenCard a "";;
         safeSendMessage (BgFetchTwitchChannel chan)
           (OnBigscreenPage chan card) ;;
         return_
     | None => skip
     end) ;;
  (* tweets: no return, the later branches still run *)
  when (enableTweets cfg && isWhitelisted && (isTweet || isPicShort))
    (card <- fresh;;
     call (injectBelow card (TWEET LoadingTweet) url sensitivity) ;;
     safeSendMessage (FetchTweet (a_href a))
       (OnTweetData a card sensitivity)) ;;
  (* direct images and videos *)
  when (enableMedia cfg && isWhitelisted && looksLikeMediaPath)
    (let ext := fileExt (pathname url) in
     let isTwImg := isTwitterImageUrl url in
     let isTwVid := isTwitterVideoUrl url in
     when (isTwImg || one_of IMAGE_EXTS ext)
       (img <- fresh;;
        call (injectBelow img (IMG (a_href a)) url sensitivity) ;;
        return_) ;;
     when (isTwVid || one_of VIDEO_EXTS ext)
       (vid <- fresh;;
        let mime := if isTwVid || String.eqb ext "mp4" then "video/mp4"
                    else if String.eqb ext "webm" then "video/webm"
                    else "video/quicktime" in
        let source := if isCspBlockedHost (hostname url) then None
                      else Some (a_href a, mime) in
        call (injectBelow vid (VIDEO source) url sensitivity) ;;
        return_)) ;;
  (* reddit.com/media?url=<direct media> *)
  when (enableMedia cfg && Js.domain_of "reddit.com" h
        && String.eqb (pathname url) "/media")
    (match searchParams_get "url" url with
     | Some target =>
         when (Js.truthy target)
           (try_catch
              (match parseURL page target with
               | None => throw TypeError
               | Some mu =>
                   let mhost := Js.strip_www (hostname mu) in
                   let mExt := fileExt (pathname mu) in
                   let okHost := whitelist_has mhost
                                 || Js.domain_of "redd.it" mhost in
                   when okHost
                     (when (one_of IMAGE_EXTS mExt)
                        (img <- fresh;;
                         call (injectBelow img (IMG (href mu)) url
                                 sensitivity) ;;
                         return_) ;;
                      when (one_of VIDEO_EXTS mExt)
                        (vid <- fresh;;
                         call (injectBelow vid
                                 (VIDEO (Some (href mu, video_mime mExt)))
                                 url sensitivity) ;;
                         return_))
               end)
              (fun _ => skip))
     | None => skip
     end) ;;
  (* Imgur page without a file extension *)
  when (enableMedia cfg && Js.domain_of "imgur.com" h
        && negb looksLikeMediaPath)
    (call (resolveAndEmbedImgur url sensitivity) ;; return_) ;;
  (* Instagram page *)
  when (enableInstagram cfg && Js.domain_of "instagram.com" h)
    (call (resolveAndEmbedInstagram url sensitivity) ;; return_) ;;
  (* Reddit post *)
  when (enableMedia cfg && Js.domain_of "reddit.com" h
        && Js.includes (pathname url) "/comments/")
    (call (resolveAndEmbedReddit url sensitivity) ;; return_) ;;
  when isWhitelisted
    (when (enableYouTube cfg
           && (Js.includes h "youtube.com" || Js.includes h "youtu.be"))
       (match extractYouTubeId url with
        | Some ytId =>
            when (Js.truthy ytId)
              (card <- insertCard YouTubeCard a
                         ("https://i.ytimg.com/vi/" +:+ ytId
                          +:+ "/hqdefault.jpg");;
               safeSendMessage (OEmbedYouTube (a_href a))
                 (OnYouTubeOembed card) ;;
               safeSendMessage (BgFetch (a_href a))
                 (OnYouTubePage ytId card) ;;
               return_)
        | None => skip
        end) ;;
     when (enableTwitch cfg && Js.includes h "twitch.tv")
       (let '(channel, video) := extractTwitch url in
        when (is_some channel || is_some video)
          (card <- insertCard TwitchCard a "";;
           safeSendMessage
             (match channel with
              | Some c => BgFetchTwitchChannel c
              | None => BgFetchTwitchVideo (default "" video)
              end)
             (OnTwitchPage channel video card) ;;
           return_)) ;;
     when (enableKick cfg && Js.domain_of "kick.com" h)
       (let '(kChan, kVid) := extractKick url in
        when (is_some kChan || is_some kVid)
          (card <- insertCard KickCard a "";;
           safeSendMessage (BgFetch (a_href a))
             (OnKickPage url kChan kVid card) ;;
           return_))).

Fixpoint forEach {A} (l : list A) (f : A -> M World unit) : M World unit :=
  match l with
  | [] => skip
  | x :: rest => call (f x) ;; forEach rest f
  end.

(** [el.querySelectorAll("a[href]")] on the message node: its own anchors,
    then those of the wraps appended to it. *)
Definition scan_anchors (m : Message) : list Anchor :=
  anchors m ++ flat_map anchors_in (wraps m).

(** [maybeEmbedInNode(el)] for the message node [el] (which is neither an
    injected wrapper nor inside one). *)
Definition maybeEmbedInNode : M World unit :=
  found <- gets (fun w => scan_anchors (msg w));;
  when (Nat.eqb (length found) 0) return_ ;;
  forEach found tryEmbed.

(** Cards of this message that carry the origin marker [o]. *)
Definition cards_with_origin (o : string) (w : World) : list Wrap :=
  List.filter (fun x => match w_origin x with
                        | Some s => String.eqb s o
                        | None => false
                        end) (wraps (msg w)).

(** Link cards of this message that point to [u]. *)
Definition cards_linking (u : URL) (w : World) : list Wrap :=
  List.filter (fun x => match w_el x with
                        | CARD _ l _ _ => String.eqb (href l) (href u)
                        | _ => false
                        end) (wraps (msg w)).

End Router.

(** ** Tweet payloads *)

Module Tweet.

(** An entry of [photos] or of [entities.media]; absent fields are [""]. *)
Inductive Photo : Type :=
| PhotoNull
| PhotoStr (s : string)
| PhotoObj (url media_url_https media_url src : string).

(** An entry of [videos]; absent fields are [""]. *)
Record Video : Type := { v_url : string; v_src : string; v_type : string }.

Record User : Type := { name : string; screen_name : string }.

Record UrlEntity : Type := {
  ent_url : string;
  expanded_url : string;
  unwound_url : string
}.

Record Entities : Type := {
  media : option (list Photo);      (* [None]: not an array *)
  urls : list UrlEntity
}.

(** The tweet object: the widget CDN's JSON, and what the background
    worker sends back after [Object.assign({}, data, normalized)]. *)
Record Data : Type := {
  user : option User;
  author_name : string;
  text : string;
  full_text : string;
  description : string;
  created_at : string;
  date : string;
  entities : option Entities;
  photos : option (list Photo);     (* [None]: not an array *)
  videos : option (list Video);     (* [None]: not an array *)
  video_urls : option (list string);
  video_url : string;
  oembed_html : string;
  html : string
}.

End Tweet.

(** ** The background worker: tweet resolution ([fetchTweet]) *)

Module Background.

Import Tweet.
Open Scope list_scope.

Local Set Warnings "-register-all".

(** A parsed JSON payload; object fields are in enumeration order. *)
Inductive Json : Type :=
| JNull
| JBool (b : bool)
| JNum (n : Z)
| JStr (s : string)
| JArr (items : list Json)
| JObj (fields : list (string * Json)).

Definition truthy (v : Json) : bool :=
  match v with
  | JNull => false
  | JBool b => b
  | JNum n => negb (Z.eqb n 0)
  | JStr s => Js.truthy s
  | JArr _ | JObj _ => true
  end.

(** [v[k]] of a non-null value; [None] is [undefined]. *)
Fixpoint field (k : string) (fs : list (string * Json)) : option Json :=
  match fs with
  | [] => None
  | (k', v) :: rest => if String.eqb k k' then Some v else field k rest
  end.

Definition get (k : string) (v : Json) : option Json :=
  match v with
  | JObj fs => field k fs
  | _ => None
  end.

(** [typeof v[k] === 'string' && v[k]], as a string ([""] when falsy). *)
Definition string_field (k : string) (v : Json) : string :=
  match get k v with
  | Some (JStr s) => s
  | _ => ""
  end.

(** [walk] of [scan]: the non-empty strings of the payload, in visit
    order. *)
Fixpoint walk (v : Json) : list string :=
  match v with
  | JStr s => if Js.truthy s then [s] else []
  | JArr items =>
      (fix go (l : list Json) : list string :=
         match l with
         | [] => []
         | x :: r => walk x ++ go r
         end) items
  | JObj fields =>
      (fix go (l : list (string * Json)) : list string :=
         match l with
         | [] => []
         | (_, x) :: r => walk x ++ go r
         end) fields
  | _ => []
  end.

Definition one_suffix (exts : list string) (s : string) : bool :=
  existsb (fun e => Js.search (Js.lit e Js.end_or_query) (Js.toLowerCase s))
          exts.

(** [/^https?:\/\/pbs\.twimg\.com\/media\//] and
    [/\.(?:jpg|jpeg|png|gif|webp)(?:$|\?)/i] *)
Definition is_photo_url (s : string) : bool :=
  (String.prefix "http://pbs.twimg.com/media/" s
   || String.prefix "https://pbs.twimg.com/media/" s)
  && one_suffix [".jpg"; ".jpeg"; ".png"; ".gif"; ".webp"] s.

(** [/^https?:\/\/video\.twimg\.com\//] and [/\.mp4(?:$|\?)/i] *)
Definition is_video_url (s : string) : bool :=
  (String.prefix "http://video.twimg.com/" s
   || String.prefix "https://video.twimg.com/" s)
  && one_suffix [".mp4"] s.

(** [scan(obj)]: [{ photos, videos }] *)
Definition scan (j : Json) : list string * list string :=
  (List.filter is_photo_url (walk j), List.filter is_video_url (walk j)).

(** Keep the first occurrence of each string. *)
Fixpoint dedup_from (seen l : list string) : list string :=
  match l with
  | [] => []
  | x :: r =>
      if existsb (String.eqb x) seen then dedup_from seen r
      else x :: dedup_from (x :: seen) r
  end.

Definition dedup (l : list string) : list string := dedup_from [] l.

(** The mirror endpoints of [tryUrls], for a fixed tweet id:
    [fxtwitter.com/i/status/<id>.json],
    [api.vxtwitter.com/Twitter/status/<id>],
    [vxtwitter.com/i/status/<id>.json]. *)
Inductive Mirror : Type := Fx | VxApi | Vx.

Definition tryUrls : list Mirror := [Fx; VxApi; Vx].

(** What a [fetch] followed by [resp.json()] can come to. *)
Inductive Fetched : Type :=
| NetworkError                (* fetch rejects *)
| NotOk (status : Z)          (* !resp.ok *)
| BadJson                     (* resp.json() rejects *)
| Parsed (j : Json).

(** [out] of [enrichFromFxVx] *)
Record Extra : Type := {
  x_photos : list string;
  x_videos : list Video;
  x_text : string
}.

Definition no_extra : Extra :=
  {| x_photos := []; x_videos := []; x_text := "" |}.

(** The text a mirror payload offers: [j.text], [j.tweet.full_text],
    [j.tweet.text]; [None] when reading it throws ([j] is [null]). *)
Definition mirror_text (j : Json) : option string :=
  match j with
  | JNull => None
  | _ =>
      let tweet := match get "tweet" j with
                   | Some t => if truthy t then t else JNull
                   | None => JNull
                   end in
      Some (Js.or_else (string_field "text" j)
              (Js.or_else (string_field "full_text" tweet)
                 (string_field "text" tweet)))
  end.

Definition mp4 (u : string) : Video :=
  {| v_url := u; v_src := ""; v_type := "video/mp4" |}.

(** The [for (const u of tryUrls)] loop, with the list of endpoints that
    were fetched. *)
Fixpoint enrich_loop (net : Mirror -> Fetched) (todo : list Mirror)
    (out : Extra) (fetched : list Mirror) : Extra * list Mirror :=
  match todo with
  | [] => (out, fetched)
  | u :: rest =>
      let fetched' := fetched ++ [u] in
      match net u with
      | Parsed j =>
          let out1 :=
            match mirror_text j with
            | Some t =>
                if Js.truthy t && negb (Js.truthy (x_text out))
                then {| x_photos := x_photos out; x_videos := x_videos out;
                        x_text := t |}
                else out
            | None => out
            end in
          let '(ps, vs) := scan j in
          if negb (Nat.eqb (length ps) 0) || negb (Nat.eqb (length vs) 0)
          then ({| x_photos := x_photos out1 ++ dedup ps;
                   x_videos := x_videos out1 ++ map mp4 (dedup vs);
                   x_text := x_text out1 |}, fetched')     (* break *)
          else enrich_loop net rest out1 fetched'
      | _ => enrich_loop net rest out fetched'              (* continue *)
      end
  end.

Definition enrichFromFxVx (net : Mirror -> Fetched) (tid : option string)
  : Extra * list Mirror :=
  match tid with
  | None => (no_extra, [])
  | Some _ => enrich_loop net tryUrls no_extra []
  end.

(** A mirror yields media when its payload has a photo or a video URL. *)
Definition yields_media (r : Fetched) : bool :=
  match r with
  | Parsed j =>
      negb (Nat.eqb (length (scan j).1) 0)
      || negb (Nat.eqb (length (scan j).2) 0)
  | _ => false
  end.

Definition has_media (x : Extra) : bool :=
  negb (Nat.eqb (length (x_photos x)) 0)
  || negb (Nat.eqb (length (x_videos x)) 0).

(** [!text || !String(text).trim()] *)
Definition blank (s : string) : bool := Js.is_empty (Js.trim s).

Definition photo_url (p : Photo) : string :=
  match p with
  | PhotoNull => ""
  | PhotoStr s => s
  | PhotoObj u mh m _ => Js.or_else u (Js.or_else mh m)
  end.

Definition url_photo (u : string) : Photo := PhotoObj u "" "" "".

(** The merge of the enrichment into [normalized]. *)
Definition merge_extra (normalized : Data) (extra : Extra) : Data :=
  if has_media extra then
    let photoObjs := default [] (photos normalized) in
    let existing := List.filter Js.truthy (map photo_url photoObjs) in
    let added :=
      List.filter (fun pu => negb (existsb (String.eqb pu) existing))
        (x_photos extra) in
    {| user := user normalized;
       author_name := author_name normalized;
       text := if blank (text normalized) && Js.truthy (x_text extra)
               then x_text extra else text normalized;
       full_text := full_text normalized;
       description := description normalized;
       created_at := created_at normalized;
       date := date normalized;
       entities := entities normalized;
       photos := Some (photoObjs ++ map url_photo added);
       videos := Some (x_videos extra);
       video_urls := video_urls normalized;
       video_url := video_url normalized;
       oembed_html := oembed_html normalized;
       html := html normalized |}
  else normalized.

(** [Object.assign({}, data, normalized)] before enrichment. *)
Definition normalize (data : Data) : Data :=
  {| user := user data;
     author_name :=
       Js.or_else (author_name data)
         (match user data with
          | Some u => Js.or_else (name u) (screen_name u)
          | None => ""
          end);
     text := Js.or_else (text data)
               (Js.or_else (full_text data) (description data));
     full_text := full_text data;
     description := description data;
     created_at := Js.or_else (created_at data) (date data);
     date := date data;
     entities := entities data;
     photos := Some (match photos data with
                     | Some l => l
                     | None => match entities data with
                               | Some e => default [] (media e)
                               | None => []
                               end
                     end);
     videos := videos data;
     video_urls := video_urls data;
     video_url := video_url data;
     oembed_html := oembed_html data;
     html := html data |}.

Definition with_oembed_html (h : string) (d : Data) : Data :=
  {| user := user d; author_name := author_name d; text := text d;
     full_text := full_text d; description := description d;
     created_at := created_at d; date := date d; entities := entities d;
     photos := photos d; videos := videos d; video_urls := video_urls d;
     video_url := video_url d; oembed_html := h; html := html d |}.

(** What fetching the widget CDN and reading its body can come to. *)
Inductive CdnFetched : Type :=
| CdnRejects                  (* fetch rejects *)
| CdnNotOk (status : Z)       (* !r.ok *)
| CdnUnreadable               (* r.json() rejects, or the body is null *)
| CdnOk (data : Data).

(** The network as the handler sees it, for a fixed tweet URL: the widget
    CDN by id and by URL, the mirrors, and the oEmbed endpoint. *)
Record Net : Type := {
  cdn_by_id : CdnFetched;
  cdn_by_url : CdnFetched;
  mirror : Mirror -> Fetched;
  oembed : Fetched
}.

(** [sendResponse] payloads: [{ ok: false }], or [{ ok: true, source, data }]
    with source ['cdn'], ['vx'] or ['oembed']. *)
Inductive Response : Type :=
| Failed
| FromCdn (data : Data)
| FromVx (data : Data)
| FromOembed (od_html od_author : string).

(** The oEmbed markup kept for the content script when no text was found. *)
Definition attach_oembed (net : Net) (normalized : Data) : Data :=
  if blank (text normalized) then
    match oembed net with
    | Parsed od =>
        if truthy od && Js.truthy (string_field "html" od)
        then with_oembed_html (string_field "html" od) normalized
        else normalized
    | _ => normalized
    end
  else normalized.

(** The widget CDN answer the handler goes on with: by id when there is
    one, and by URL when there is no id or the first answer is not ok. *)
Definition cdn_result (net : Net) (id : option string) : CdnFetched :=
  let first := match id with
               | Some _ => cdn_by_id net
               | None => cdn_by_url net
               end in
  match first, id with
  | CdnNotOk _, Some _ => cdn_by_url net
  | _, _ => first
  end.

(** The [fetchTweet] handler; [id] is [extractTweetId(rawUrl)]. *)
Definition fetchTweet (net : Net) (id : option string) : Response :=
  match cdn_result net id with
  | CdnRejects => Failed                             (* outer catch *)
  | CdnUnreadable => Failed                          (* outer catch *)
  | CdnOk data =>
      let normalized := normalize data in
      let extra := (enrichFromFxVx (mirror net) id).1 in
      FromCdn (attach_oembed net (merge_extra normalized extra))
  | CdnNotOk _ =>
      let extra := (enrichFromFxVx (mirror net) id).1 in
      if has_media extra then
        FromVx {| user := None; author_name := ""; text := x_text extra;
                  full_text := ""; description := ""; created_at := "";
                  date := ""; entities := None;
                  photos := Some (map url_photo (x_photos extra));
                  videos := Some (x_videos extra);
                  video_urls := None; video_url := "";
                  oembed_html := ""; html := "" |}
      else
        match oembed net with
        | Parsed JNull => Failed                     (* odata.html throws *)
        | Parsed od => FromOembed (string_field "html" od)
                         (string_field "author_name" od)
        | _ => Failed
        end
  end.

End Background.

(** ** Media of a tweet card ([renderTweetInto] and the oEmbed path) *)

Module Render.

Import Dom Tweet Page.
Open Scope list_scope.

(** [photos] of [renderTweetInto]: [data.photos] when it has entries, else
    [entities.media]. *)
Definition chosen_photos (d : Data) : list Photo :=
  match photos d with
  | Some (p :: ps) => p :: ps
  | _ =>
      match entities d with
      | Some e => default [] (media e)
      | None => []
      end
  end.

(** [videos] of [renderTweetInto]: [data.videos], else [data.video_urls],
    else [data.video_url]. *)
Definition chosen_videos (d : Data) : list Video :=
  match videos d with
  | Some vs => vs
  | None =>
      match video_urls d with
      | Some us =>
          map (fun u => {| v_url := u; v_src := ""; v_type := "video/mp4" |})
              us
      | None =>
          if Js.truthy (video_url d)
          then [{| v_url := video_url d; v_src := ""; v_type := "video/mp4" |}]
          else []
      end
  end.

(** [p.url], [p.media_url_https], [p.media_url] or [p.src]; [""] is
    [null]. *)
Definition photo_src (p : Photo) : string :=
  match p with
  | PhotoObj u mh m s =>
      Js.or_else u (Js.or_else mh (Js.or_else m s))
  | _ => ""
  end.

Definition photo_node (p : Photo) : list Media :=
  if Js.truthy (photo_src p) then [ImgNode (photo_src p)] else [].

(** [/https?:\/\/video\.twimg\.com\//.test(vu) && /\.mp4(?:$|\?)/.test(vu)] *)
Definition playable (vu : string) : bool :=
  (Js.includes vu "http://video.twimg.com/"
   || Js.includes vu "https://video.twimg.com/")
  && Js.search (Js.lit ".mp4" Js.end_or_query) vu.

Definition video_node (v : Video) : list Media :=
  let vu := Js.or_else (v_url v) (v_src v) in
  if Js.truthy vu && playable vu then [VideoNode vu "video/mp4"] else [].

(** [mediaNodes] of [renderTweetInto]: the loops run over the first
    [Math.min(4, photos.length)] photos and the first
    [Math.min(2, videos.length)] videos. *)
Definition mediaNodes (d : Data) : list Media :=
  flat_map photo_node (take 4 (chosen_photos d))
  ++ flat_map video_node (take 2 (chosen_videos d)).

(** The nodes one anchor of the oEmbed blockquote contributes; [None] is an
    anchor whose URL does not parse. *)
Definition oembed_anchor_nodes (a : option URL) : list Media :=
  match a with
  | None => []
  | Some eu =>
      let h := Js.strip_www (Js.toLowerCase (hostname eu)) in
      let path := Js.toLowerCase (pathname eu) in
      (if String.eqb h "pbs.twimg.com"
          && existsb (fun e => Js.search (Js.lit e Js.end_or_query) path)
               [".jpg"; ".jpeg"; ".png"; ".webp"; ".gif"]
       then [ImgNode (href eu)] else [])
      ++ (if String.eqb h "video.twimg.com"
             && Js.search (Js.lit ".mp4" Js.end_or_query) path
          then [VideoNode (href eu) "video/mp4"] else [])
  end.

(** [mediaNodes] of the oEmbed path, before the cap. *)
Definition oembed_mediaNodes (anchors : list (option URL)) : list Media :=
  flat_map oembed_anchor_nodes anchors.



Definition is_video (m : Media) : bool :=
  match m with ImgNode _ => false | VideoNode _ _ => true end.


End Render.

(** ** Live thumbnail refresh ([startThumbAutoRefresh],
       [startTwitchThumbAutoRefresh]) *)

Module Thumb.

Open Scope Z_scope.

(** [img.src]: a plain URL, or a base URL followed by [t=<Date.now()>]. *)
Inductive Src : Type :=
| Plain (url : string)
| Stamped (base : string) (t : Z).

(** What the refresher is bound to: a base URL, or a Twitch channel whose
    live preview URL is rebuilt on every refresh. *)
Inductive Target : Type :=
| BaseUrl (baseUrl : string)
| TwitchChannel (channel : string).

(** The thumbnail element with its timer property ([__edggThumbTimer] or
    [__edggTwTimer]), and the browser's table of live intervals with their
    periods in milliseconds. *)
Record State : Type := {
  src : Src;
  timerProp : option nat;
  intervals : gmap nat Z;
  nextTimer : nat;
  refreshes : nat
}.

(** What [update] observes when it runs. *)
Record Obs : Type := {
  isConnected : bool;      (* imgEl.isConnected *)
  inView : bool;           (* isElementInView(wrap, scroller) *)
  now : Z                  (* Date.now() *)
}.

(** [getTwitchLivePreviewUrl(channel, 640, 360)] *)
Definition getTwitchLivePreviewUrl (channel : string) : string :=
  let c := Js.toLowerCase channel in
  if Js.is_empty c then ""
  else "https://static-cdn.jtvnw.net/previews-ttv/live_user_" +:+ c
       +:+ "-640x360.jpg".

(** [clearInterval(id)]; clearing [null] or an unknown id does nothing. *)
Definition clearInterval (id : option nat) (s : State) : State :=
  match id with
  | Some i =>
      {| src := src s; timerProp := timerProp s;
         intervals := delete i (intervals s);
         nextTimer := nextTimer s; refreshes := refreshes s |}
  | None => s
  end.

Definition set_timerProp (p : option nat) (s : State) : State :=
  {| src := src s; timerProp := p; intervals := intervals s;
     nextTimer := nextTimer s; refreshes := refreshes s |}.

Definition set_src (v : Src) (s : State) : State :=
  {| src := v; timerProp := timerProp s; intervals := intervals s;
     nextTimer := nextTimer s; refreshes := S (refreshes s) |}.

(** The closure [update]. *)
Definition update (target : Target) (o : Obs) (s : State) : State :=
  if negb (isConnected o) then
    set_timerProp None (clearInterval (timerProp s) s)
  else if negb (inView o) then s              (* skip when off-screen *)
  else
    match target with
    | BaseUrl baseUrl =>
        set_src (Stamped (baseUrl +:+ (if Js.includes baseUrl "?"
                                       then "&" else "?") +:+ "t=")
                         (now o)) s
    | TwitchChannel channel =>
        let base := getTwitchLivePreviewUrl channel in
        if Js.is_empty base then s
        else set_src (Stamped (base +:+ "?t=") (now o)) s
    end.

(** [setInterval(update, ms)] *)
Definition setInterval (ms : Z) (s : State) : nat * State :=
  (nextTimer s,
   {| src := src s; timerProp := timerProp s;
      intervals := <[nextTimer s := ms]> (intervals s);
      nextTimer := S (nextTimer s); refreshes := refreshes s |}).

(** [Math.max(15000, periodMs | 0)] *)
Definition period_of (periodMs : Z) : Z := Z.max 15000 (Js.toInt32 periodMs).

(** [startThumbAutoRefresh(imgEl, baseUrl, periodMs, scopeEl)] and
    [startTwitchThumbAutoRefresh(imgEl, channel, periodMs, scopeEl)], called
    while the page is as [o] says. *)
Definition start (target : Target) (periodMs : Z) (o : Obs) (s : State)
  : State :=
  let given := match target with
               | BaseUrl b => Js.truthy b
               | TwitchChannel c => Js.truthy c
               end in
  if negb given then s
  else
    let s1 := clearInterval (timerProp s) s in
    let s2 := update target o s1 in
    let '(id, s3) := setInterval (period_of periodMs) s2 in
    set_timerProp (Some id) s3.

(** The default of the [periodMs] parameter. *)
Definition default_period : Z := 60000.

(** The browser runs the callback of interval [id], if it is still live. *)
Definition fire (target : Target) (id : nat) (o : Obs) (s : State) : State :=
  match intervals s !! id with
  | Some _ => update target o s
  | None => s
  end.

Definition run (target : Target) (id : nat) (obs : list Obs) (s : State)
  : State :=
  fold_left (fun s' o => fire target id o s') obs s.

End Thumb.

(** ** Spoiler overlays on a DOM tree ([applySpoilerIfNeeded],
       [applySpoilersInRoot], [revealAllInTweet]) *)

Module Spoiler.

Open Scope list_scope.

Local Set Warnings "-register-all".

(** An element: identity, tag name (lower case), class list, children. *)
Inductive Node : Type :=
| El (id : nat) (tag : string) (classes : list string) (kids : list Node).

Definition node_id (n : Node) : nat := match n with El i _ _ _ => i end.
Definition node_tag (n : Node) : string := match n with El _ t _ _ => t end.
Definition node_classes (n : Node) : list string :=
  match n with El _ _ c _ => c end.
Definition node_kids (n : Node) : list Node :=
  match n with El _ _ _ k => k end.

Definition found {A} (o : option A) : bool :=
  match o with Some _ => true | None => false end.

(** [n.classList.contains(c)] *)
Definition has_class (c : string) (n : Node) : bool :=
  existsb (String.eqb c) (node_classes n).

(** [n.classList.add(c)] *)
Definition add_class (c : string) (n : Node) : Node :=
  match n with
  | El i t cs k => if existsb (String.eqb c) cs then n else El i t (cs ++ [c]) k
  end.

(** [n.classList.remove(c)] *)
Definition remove_class (c : string) (n : Node) : Node :=
  match n with
  | El i t cs k => El i t (List.filter (fun x => negb (String.eqb c x)) cs) k
  end.

(** [n.appendChild(k)] *)
Definition append_kid (k : Node) (n : Node) : Node :=
  match n with El i t cs ks => El i t cs (ks ++ [k]) end.

(** The descendants of a node in document order. *)
Fixpoint descendants (n : Node) : list Node :=
  match n with
  | El _ _ _ kids =>
      (fix go (l : list Node) : list Node :=
         match l with
         | [] => []
         | k :: r => k :: descendants k ++ go r
         end) kids
  end.

Definition querySelectorAll (sel : Node -> bool) (n : Node) : list Node :=
  List.filter sel (descendants n).

Definition querySelector (sel : Node -> bool) (n : Node) : option Node :=
  head (querySelectorAll sel n).

(** The chain from [n] down to the element [target], when [n] contains it. *)
Fixpoint path_to (target : nat) (n : Node) : option (list Node) :=
  match n with
  | El i _ _ kids =>
      if Nat.eqb i target then Some [n]
      else
        match (fix go (l : list Node) : option (list Node) :=
                 match l with
                 | [] => None
                 | k :: r => match path_to target k with
                             | Some p => Some p
                             | None => go r
                             end
                 end) kids with
        | Some p => Some (n :: p)
        | None => None
        end
  end.

(** The element with identity [target] as it is now in the tree. *)
Definition find_node (target : nat) (root : Node) : option Node :=
  match path_to target root with
  | Some p => last p
  | None => None
  end.

(** [el.closest(sel)]: the nearest of the element and its ancestors. *)
Definition closest (sel : Node -> bool) (target : nat) (root : Node)
  : option Node :=
  match path_to target root with
  | Some p => List.find sel (rev p)
  | None => None
  end.

(** [el.parentElement] *)
Definition parentElement (target : nat) (root : Node) : option Node :=
  match path_to target root with
  | Some p => match rev p with
              | _ :: parent :: _ => Some parent
              | _ => None
              end
  | None => None
  end.

(** Replace the element [target] by [f] of it. *)
Fixpoint update (target : nat) (f : Node -> Node) (n : Node) : Node :=
  match n with
  | El i t cs kids =>
      if Nat.eqb i target then f n
      else El i t cs
             ((fix go (l : list Node) : list Node :=
                 match l with
                 | [] => []
                 | k :: r => update target f k :: go r
                 end) kids)
  end.

(** [parent.removeChild(el)] for the element [target]. *)
Fixpoint remove (target : nat) (n : Node) : Node :=
  match n with
  | El i t cs kids =>
      El i t cs
        ((fix go (l : list Node) : list Node :=
            match l with
            | [] => []
            | k :: r => if Nat.eqb (node_id k) target then go r
                        else remove target k :: go r
            end) kids)
  end.

(** [img.edgg-media, video.edgg-media, iframe.edgg-media] *)
Definition media_sel (n : Node) : bool :=
  existsb (String.eqb (node_tag n)) ["img"; "video"; "iframe"]
  && has_class "edgg-media" n.

(** [img, video, iframe] *)
Definition any_media_sel (n : Node) : bool :=
  existsb (String.eqb (node_tag n)) ["img"; "video"; "iframe"].

(** [.edgg-spoiler:not(.edgg-spoiler-revealed)] *)
Definition spoiler_sel (n : Node) : bool :=
  has_class "edgg-spoiler" n && negb (has_class "edgg-spoiler-revealed" n).

(** [.edgg-wrap.edgg-spoiler:not(.edgg-spoiler-revealed)] *)
Definition wrap_spoiler_sel (n : Node) : bool :=
  has_class "edgg-wrap" n && has_class "edgg-spoiler" n
  && negb (has_class "edgg-spoiler-revealed" n).

Definition cover_sel (n : Node) : bool := has_class "edgg-spoiler-cover" n.

(** The body of the first [forEach] of [revealAllInTweet]. *)
Definition reveal_spoiler (sid : nat) (root : Node) : Node :=
  match find_node sid root with
  | None => root
  | Some spoiler =>
      match querySelector media_sel spoiler with
      | None => root
      | Some m =>
          let r1 :=
            update (node_id m) (remove_class "edgg-spoiler-blur") root in
          let r2 := update sid (add_class "edgg-spoiler-revealed") r1 in
          match querySelector cover_sel spoiler with
          | Some c => remove (node_id c) r2
          | None => r2
          end
      end
  end.

(** The body of the second [forEach] (wrapper-style spoilers). *)
Definition reveal_wrap (wid : nat) (root : Node) : Node :=
  match find_node wid root with
  | None => root
  | Some w =>
      match querySelector media_sel w with
      | None => root
      | Some m =>
          let r1 :=
            update (node_id m) (remove_class "edgg-spoiler-blur") root in
          let r2 :=
            update wid (fun x => add_class "edgg-spoiler-revealed"
                                   (remove_class "edgg-spoiler" x)) r1 in
          match querySelector cover_sel w with
          | Some c => remove (node_id c) r2
          | None => r2
          end
      end
  end.

(** [revealAllInTweet(triggerElement)] *)
Definition revealAllInTweet (trigger : nat) (root : Node) : Node :=
  match closest (has_class "edgg-tweet-media") trigger root with
  | None => root
  | Some tweetContainer =>
      let spoilers :=
        map node_id (querySelectorAll spoiler_sel tweetContainer) in
      let r1 := fold_left (fun r sid => reveal_spoiler sid r) spoilers root in
      let wrapSpoilers :=
        match find_node (node_id tweetContainer) r1 with
        | Some tc => map node_id (querySelectorAll wrap_spoiler_sel tc)
        | None => []
        end in
      fold_left (fun r wid => reveal_wrap wid r) wrapSpoilers r1
  end.

(** The document with the reveal listeners of the covers: each cover with
    the media element its listeners pass to [revealAllInTweet]. *)
Record Doc : Type := {
  root : Node;
  listeners : list (nat * nat);
  nextId : nat
}.

(** The cover element: [div.edgg-spoiler-cover > div.edgg-spoiler-text >
    span.edgg-spoiler-icon]. *)
Definition cover_node (i : nat) : Node :=
  El i "div" ["edgg-spoiler-cover"]
    [El (S i) "div" ["edgg-spoiler-text"]
       [El (S (S i)) "span" ["edgg-spoiler-icon"] []]].

(** [applySpoilerIfNeeded(wrap, label, force)], given
    [STATE.settings.blurMedia]. *)
Definition applySpoilerIfNeeded (wrap : nat) (blurMedia force : bool)
    (d : Doc) : Doc :=
  match find_node wrap (root d) with
  | None => d
  | Some w =>
      match querySelector any_media_sel w with
      | None => d
      | Some m =>
          if negb blurMedia && negb force then d
          else if has_class "edgg-spoiler-revealed" w then d
          else if found (querySelector cover_sel w) then d
          else
            let r1 := update wrap (add_class "edgg-spoiler") (root d) in
            let r2 := update (node_id m) (add_class "edgg-spoiler-blur") r1 in
            let r3 := update wrap (append_kid (cover_node (nextId d))) r2 in
            {| root := r3;
               listeners := listeners d ++ [(nextId d, node_id m)];
               nextId := 3 + nextId d |}
      end
  end.

(** One turn of the [forEach] of [applySpoilersInRoot]. *)
Definition spoil_media (m : nat) (blurMedia force : bool) (d : Doc) : Doc :=
  if found (closest (has_class "edgg-spoiler-revealed") m (root d)) then d
  else if found (closest cover_sel m (root d)) then d
  else
    match parentElement m (root d) with
    | None => d
    | Some parent =>
        if has_class "edgg-wrap" parent
        then applySpoilerIfNeeded (node_id parent) blurMedia force d
        else
          let holder := nextId d in
          let cover := S holder in
          {| root := update m (fun x =>
                       El holder "div" ["edgg-spoiler"]
                         [add_class "edgg-spoiler-blur" x; cover_node cover])
                       (root d);
             listeners := listeners d ++ [(cover, m)];
             nextId := 4 + nextId d |}
    end.

(** [applySpoilersInRoot(root, label, force)] on the subtree [scope]. *)
Definition applySpoilersInRoot (scope : nat) (blurMedia force : bool)
    (d : Doc) : Doc :=
  if negb blurMedia && negb force then d
  else
    match find_node scope (root d) with
    | None => d
    | Some r =>
        fold_left (fun d' m => spoil_media m blurMedia force d')
          (map node_id (querySelectorAll media_sel r)) d
    end.

(** How a cover is activated. *)
Inductive Activation : Type := Click | KeyDown (key : string).

(** The [click] and [keydown] listeners of a cover. *)
Definition activate (ev : Activation) (cover : nat) (d : Doc) : Doc :=
  let fires := match ev with
               | Click => true
               | KeyDown k => String.eqb k "Enter" || String.eqb k " "
               end in
  if fires then
    match List.find (fun l => Nat.eqb l.1 cover) (listeners d) with
    | Some (_, m) =>
        {| root := revealAllInTweet m (root d); listeners := listeners d;
           nextId := nextId d |}
    | None => d
    end
  else d.

(** Media that are still blurred, and covers that are still in place. *)
Definition blurred (d : Doc) : list nat :=
  map node_id (querySelectorAll (has_class "edgg-spoiler-blur") (root d)).

Definition covers (d : Doc) : list nat :=
  map node_id (querySelectorAll cover_sel (root d)).

End Spoiler.

(** ** Resolver callbacks *)

Module Resolver.

Import Dom Tweet Page Router.
Open Scope list_scope.
Open Scope js_scope.

(** The answer to a [bgFetch] message: [{ ok, status, body, finalUrl }]. *)
Record PageRes : Type := { ok : bool; body : string; finalUrl : string }.

(** The answer to a [fetchTweet] message: [{ ok, source, data }]. *)
Record TweetRes : Type := {
  t_ok : bool;
  t_source : string;
  t_data : option Data
}.

(** What the content script receives for a handler response. *)
Definition of_background (r : Background.Response) : TweetRes :=
  match r with
  | Background.Failed => {| t_ok := false; t_source := ""; t_data := None |}
  | Background.FromCdn d =>
      {| t_ok := true; t_source := "cdn"; t_data := Some d |}
  | Background.FromVx d =>
      {| t_ok := true; t_source := "vx"; t_data := Some d |}
  | Background.FromOembed h au =>
      {| t_ok := true; t_source := "oembed";
         t_data := Some {| user := None; author_name := au; text := "";
                           full_text := ""; description := "";
                           created_at := ""; date := ""; entities := None;
                           photos := None; videos := None;
                           video_urls := None; video_url := "";
                           oembed_html := ""; html := h |} |}
  end.

(** A parsed HTML document as the callbacks query it: the value of an
    attribute of the first element that matches a selector (selectors are
    written without their inner quotes). *)
Definition HtmlDoc : Type := string -> string -> option string.

(** The blockquote of oEmbed markup: whether there is one, the markup of its
    first paragraph, and its anchors with their own markup, the URL of their
    [href] and the URL of [data-expanded-url || href] (when they parse). *)
Record BqAnchor : Type := {
  outerHTML : string;
  hrefUrl : option URL;
  expandedUrl : option URL
}.

Record OembedMarkup : Type := {
  bq_found : bool;
  p_innerHTML : string;
  bq_anchors : list BqAnchor
}.

(** Names in scope where the Kick callback tests its auto-refresh guard,
    innermost scope first. *)
Definition kick_guard_scopes : list (list string) :=
  [ (* the callback: its try block and its parameter *)
    ["title"; "image"; "tn"; "res"];
    (* the blocks of the Kick branch *)
    ["card"; "thumb"; "overlay"; "wrap"; "scroller"; "linkInView";
     "shouldStick"; "fetchUrl"; "kChan"; "kVid"];
    (* tryEmbed *)
    ["a"; "container"; "url"; "host"; "sensitivity"; "linkText"; "pageText";
     "isTweet"; "isPicShort"; "looksLikeMediaPath"; "isWhitelisted";
     "widthPx"];
    (* the script's top-level function *)
    ["STATE"; "MEDIA_EXT"; "MEDIA_WHITELIST"; "isTwitterImageUrl";
     "isTwitterVideoUrl"; "api"; "isExtAlive"; "safeSendMessage"; "init";
     "findScrollableRoot"; "setupDggMoreBelowHook"; "maybeEmbedInNode";
     "isTweetUrlHost"; "tryEmbed"; "resolveAndEmbedImgur";
     "resolveAndEmbedReddit"; "sanitizeRedditUrl";
     "resolveAndEmbedInstagram"; "canonicalizeInstagramUrl";
     "renderTweetInto"; "injectBelow"; "computeDesiredWidth";
     "extractYouTubeId"; "extractTwitch"; "extractKick";
     "extractKickLiveTitle"; "getTwitchLivePreviewUrl";
     "buildDdInstagramUrl"; "extractInstagramCaption"; "isCspBlockedHost";
     "startTwitchThumbAutoRefresh"; "startThumbAutoRefresh"; "isYouTubeLive";
     "isHideNsflEnabled"; "isHideNsfwEnabled"; "getShowRemovedSetting";
     "extractTwitchLiveTitle"; "decodeJsonString";
     "extractDggBigscreenTwitch"; "cssEscape"; "escapeHtml";
     "isElementInView"; "revealAllInTweet"; "getSensitivityLabel";
     "applySpoilerIfNeeded"; "applySpoilersInRoot"; "safeAppendEmbed";
     "maintainStickyAfterAppend"; "getScrollContainer"; "isAtBottom";
     "scrollToBottom"; "getVideoOriginalUrl"; "prepareVideoForCsp";
     "ensureCspSafeVideos"; "initTweetMediaPager"; "retargetLinks";
     "expandTcoLinksIn"];
    (* globals the script refers to *)
    ["window"; "document"; "location"; "chrome"; "browser"; "console";
     "URL"; "DOMParser"; "MutationObserver"; "IntersectionObserver";
     "ResizeObserver"; "HTMLElement"; "Set"; "Array"; "String"; "Number";
     "Math"; "JSON"; "Date"; "Boolean"; "fetch"; "getComputedStyle";
     "requestAnimationFrame"; "setTimeout"; "clearTimeout"; "setInterval";
     "clearInterval"; "encodeURIComponent"; "parseFloat"; "parseInt";
     "undefined"] ].

Definition declared (scopes : list (list string)) (x : string) : bool :=
  existsb (existsb (String.eqb x)) scopes.

(** Reading an identifier the model keeps no value for: its truthiness comes
    from the page when the name resolves, and a [ReferenceError] is thrown
    when it does not. *)
Definition read_identifier (scopes : list (list string)) (x : string)
  : M World bool :=
  if declared scopes x then gets (fun w => untracked (host w) x)
  else throw (ReferenceError x).

(** [safeSendMessage] runs the callback inside
    [try { cb(res) } catch (_) {}]. *)
Definition deliver (cb : M World unit) : M World unit :=
  try_catch (call cb) (fun _ => skip).

Definition set_card (card : nat) (title : string) (image : string)
  : M World unit :=
  update_wrap card (fun x =>
    match w_el x with
    | CARD k l _ th =>
        with_el (CARD k l title
                   (match th with
                    | Some old => if Js.truthy image then Some image else None
                    | None => None
                    end)) x
    | _ => x
    end).

Definition set_tweet_body (card : nat) (b : TweetBody) : M World unit :=
  update_wrap card (fun x =>
    match w_el x with
    | TWEET _ => with_el (TWEET b) x
    | _ => x
    end).

(** [/\.(e1|e2)(?:$|\?)/i.test(s)] *)
Definition has_ext (exts : list string) (s : string) : bool :=
  existsb (fun e => Js.search (Js.lit e Js.end_or_query) (Js.toLowerCase s))
          exts.

Section Callbacks.

(** The browser's parsers and the scrapers of third-party markup; their
    results are inputs of the callbacks. *)
Variable parseFromString : string -> HtmlDoc.
Variable JSON_parse : string -> option Background.Json.
Variable serializeQuery : list (string * string) -> string.
Variable oembedMarkup : string -> OembedMarkup.
Variable extractKickLiveTitle : string -> option string.

(** The text markup [renderTweetInto] builds from the payload and from the
    markup rendered before, the anchors the browser finds in a piece of
    markup, and an exception raised while rendering, if any. *)
Variable textHtml_of : Data -> string -> string.
Variable links_in : string -> list (URL * string).
Variable render_fault : Data -> option JsError.

(** [pick(sel)]: [n ? (n.getAttribute('content') || '').trim() : ''] *)
Definition pick (doc : HtmlDoc) (sel : string) : string :=
  Js.trim (default "" (doc sel "content")).

Definition usable (res : option PageRes) : bool :=
  match res with
  | Some r => ok r && Js.truthy (body r)
  | None => false
  end.

(** *** Kick *)

(** [title] and [image] as the callback has them before it touches the
    card. *)
Definition kick_meta (kChan : option string) (res : option PageRes)
  : string * string :=
  let title0 := if Js.truthy (default "" kChan)
                then "Kick • " +:+ default "" kChan else "Kick Video" in
  match res with
  | Some r =>
      if ok r && Js.truthy (body r) then
        let doc := parseFromString (body r) in
        let image := Js.or_else (pick doc "meta[property=og:image]")
                       (pick doc "meta[name=twitter:image]") in
        let desc := Js.or_else (pick doc "meta[property=og:description]")
                      (pick doc "meta[name=twitter:description]") in
        let liveT := default "" (extractKickLiveTitle (body r)) in
        let title :=
          if Js.truthy liveT then liveT
          else if Js.truthy desc && Nat.leb 3 (String.length desc) then desc
          else Js.or_else (pick doc "meta[property=og:title]")
                 (Js.or_else (pick doc "meta[name=twitter:title]") title0) in
        (title, image)
      else (title0, "")
  | None => (title0, "")
  end.

(** [if (wasLive && image)] *)
Definition kick_guard (image : string) : M World bool :=
  wasLive <- read_identifier kick_guard_scopes "wasLive";;
  ret (wasLive && Js.truthy image).

(** The callback of the Kick branch. *)
Definition onKickPage (kChan : option string) (card : nat)
    (res : option PageRes) : M World unit :=
  try_catch
    (let '(title, image) := kick_meta kChan res in
     set_card card title image ;;
     go <- kick_guard image;;
     when go
       (try_catch
          (modify (with_refreshers (fun l => l ++ [(card, image, 60000%Z)])))
          (fun _ => skip)))
    (fun _ => skip).

(** *** Imgur *)

Definition imgur_video (doc : HtmlDoc) : string :=
  let v := Js.or_else (pick doc "meta[property=og:video:secure_url]")
             (Js.or_else (pick doc "meta[property=og:video]")
                (pick doc "meta[name=twitter:player:stream]")) in
  if Js.truthy v && negb (has_ext [".mp4"; ".webm"] v) then "" else v.

Definition imgur_image (doc : HtmlDoc) : string :=
  Js.or_else (pick doc "meta[property=og:image:secure_url]")
    (Js.or_else (pick doc "meta[property=og:image]")
       (default "" (doc "link[rel=image_src]" "href"))).

(** The callback of [resolveAndEmbedImgur]. *)
Definition onImgurPage (originUrl : URL) (sens : option Label)
    (res : option PageRes) : M World unit :=
  when (negb (usable res)) return_ ;;
  try_catch
    (let doc := parseFromString (default "" (body <$> res)) in
     let videoUrl := imgur_video doc in
     let imageUrl := imgur_image doc in
     when (Js.truthy videoUrl)
       (vid <- fresh;;
        call (injectBelow vid
                (VIDEO (Some (videoUrl,
                              if has_ext [".webm"] videoUrl
                              then "video/webm" else "video/mp4")))
                originUrl sens) ;;
        return_) ;;
     when (Js.truthy imageUrl)
       (img <- fresh;;
        call (injectBelow img (IMG imageUrl) originUrl sens) ;;
        return_))
    (fun _ => skip).

(** *** Reddit *)

Definition jget (k : string) (v : option Background.Json)
  : option Background.Json :=
  match v with
  | Some j => match Background.get k j with
              | Some x => if Background.truthy x then Some x else None
              | None => None
              end
  | None => None
  end.

(** [v[0]], when truthy. *)
Definition jfirst (v : option Background.Json) : option Background.Json :=
  match v with
  | Some (Background.JArr (x :: _)) =>
      if Background.truthy x then Some x else None
  | Some (Background.JObj fs) => jget "0" v
  | _ => None
  end.

Definition jstring (k : string) (v : option Background.Json) : string :=
  match jget k v with
  | Some (Background.JStr s) => s
  | _ => ""
  end.

(** [json[0].data.children[0].data], or [null]. *)
Definition reddit_post (json : Background.Json) : option Background.Json :=
  match json with
  | Background.JArr _ =>
      match jfirst (jget "children" (jget "data" (jfirst (Some json)))) with
      | Some child => jget "data" (Some child)
      | None => None
      end
  | _ => None
  end.

(** [sanitizeRedditUrl(u)] *)
Definition sanitizeRedditUrl (u : URL) : URL :=
  let kept :=
    List.filter
      (fun kv => negb (one_of ["utm_source"; "utm_medium"; "utm_campaign";
                               "utm_name"; "utm_term"; "utm_content"] kv.1))
      (searchParams u) in
  {| protocol := protocol u; hostname := hostname u; pathname := pathname u;
     search := serializeQuery kept; hash := hash u; searchParams := kept |}.

(** [unescape] of [resolveAndEmbedReddit] *)
Definition unescape (s : string) : string :=
  Js.replace_all "&quot;" Js.dq (Js.replace_all "&amp;" "&" s).

(** The media of a post: a hosted video, else an image. *)
Definition reddit_media (post : option Background.Json) : list Media :=
  let fallback m :=
    jstring "fallback_url" (jget "reddit_video" (jget m post)) in
  let is_video := is_some (jget "is_video" post) in
  let url := jstring "url" post in
  let preview :=
    jstring "url"
      (jget "source" (jfirst (jget "images" (jget "preview" post)))) in
  if is_video && Js.truthy (fallback "media")
  then [VideoNode (fallback "media") "video/mp4"]
  else if Js.truthy (fallback "secure_media")
  then [VideoNode (fallback "secure_media") "video/mp4"]
  else if Js.truthy url
          && existsb (Js.endsWith (Js.toLowerCase url))
               [".png"; ".jpg"; ".jpeg"; ".gif"; ".webp"]
  then [ImgNode url]
  else if Js.truthy preview then [ImgNode (unescape preview)]
  else [].

(** The callback of [resolveAndEmbedReddit]. *)
Definition onRedditJson (originUrl : URL) (sens : option Label)
    (res : option PageRes) : M World unit :=
  try_catch
    (when (negb (usable res)) return_ ;;
     match JSON_parse (default "" (body <$> res)) with
     | None => throw SyntaxError
     | Some json =>
         let post := reddit_post json in
         when (negb (is_some post)) return_ ;;
         let textRaw :=
           Js.trim (Js.or_else (jstring "selftext" post)
                      (jstring "title" post)) in
         let textTrim :=
           if Nat.ltb 300 (String.length textRaw)
           then Js.take 300 textRaw +:+ "…" else textRaw in
         card <- fresh;;
         call (injectBelow card
                 (BLOCK (reddit_media post) textTrim
                    (Some (sanitizeRedditUrl originUrl)))
                 (sanitizeRedditUrl originUrl) sens)
     end)
    (fun _ => skip).

(** *** Tweets *)

(** The markup of the fallback: just the original link. *)
Definition fallback_link (a : Anchor) (card : nat) : M World unit :=
  set_tweet_body card (LinkOnly (a_url a)).

Definition tweet_failed (res : option TweetRes) : bool :=
  match res with
  | Some r => negb (t_ok r) || negb (is_some (t_data r))
  | None => true
  end.

(** [expandTcoLinksIn(body)]: one request per [t.co] link of the body. *)
Definition expandTcoLinksIn (card : nat) (links : list (URL * string))
  : M World unit :=
  forEach links (fun l =>
    when (String.eqb (Js.toLowerCase (Js.strip_www (hostname l.1))) "t.co")
      (safeSendMessage (BgFetch (href l.1)) (OnTcoLinkExpanded card l.1))).

(** [initTweetMediaPager(body)] on the media of the card: element [k] of the
    group is [base + k], its spoiler holder (when spoilers apply) is
    [base + n + k]. *)
Definition pager_items (base : nat) (spoiled : bool) (media : list Media)
  : list Pager.Item :=
  imap (fun k m =>
          {| Pager.el := base + k;
             Pager.isVideo := Render.is_video m;
             Pager.holder := if spoiled
                             then Some (base + length media + k)%nat
                             else None |}) media.

Definition initTweetMediaPager (spoiled : bool) (media : list Media)
  : M World unit :=
  base <- gets nextId;;
  modify (with_nextId (fun n => n + 2 * length media)%nat) ;;
  match Pager.init (pager_items base spoiled media) ∅ with
  | Some p => modify (with_pager (fun _ => p))
  | None => skip
  end.

Definition body_of (card : nat) (w : World) : option TweetBody :=
  match List.find (fun x => Nat.eqb (w_id x) card) (wraps (msg w)) with
  | Some x => match w_el x with TWEET b => Some b | _ => None end
  | None => None
  end.

Definition sensitivity_attr (card : nat) (w : World) : option Label :=
  match List.find (fun x => Nat.eqb (w_id x) card) (wraps (msg w)) with
  | Some x => w_sensitivity x
  | None => None
  end.

(** [renderTweetInto(cardEl, data, originUrl)] *)
Definition renderTweetInto (card : nat) (data : Data) (originUrl : URL)
  : M World unit :=
  prev <- gets (body_of card);;
  let prevTextHtml := match prev with
                      | Some (RenderedTweet _ t _ _ _) => t
                      | _ => ""
                      end in
  let prevUserText := match prev with
                      | Some (RenderedTweet u _ _ _ _) => u
                      | _ => ""
                      end in
  match render_fault data with
  | Some e => throw e
  | None =>
      let userName :=
        Js.or_else
          (match user data with
           | Some u => Js.or_else (name u) (screen_name u)
           | None => ""
           end)
          (Js.or_else (author_name data) prevUserText) in
      let textHtml := textHtml_of data prevTextHtml in
      let media := Render.mediaNodes data in
      set_tweet_body card
        (RenderedTweet userName textHtml (links_in textHtml) media originUrl) ;;
      expandTcoLinksIn card
        (links_in textHtml ++ [(originUrl, "Open on Twitter")]) ;;
      label <- gets (sensitivity_attr card);;
      blur <- gets (fun w => blurMedia (settings (st w)));;
      initTweetMediaPager (blur || is_some label) media
  end.

(** The callback of the second pass of the oEmbed path. *)
Definition onSecondPass (a : Anchor) (card : nat) (res2 : option TweetRes)
  : M World unit :=
  try_catch
    (match res2 with
     | Some r =>
         match t_data r with
         | Some d => when (t_ok r) (call (renderTweetInto card d (a_url a)))
         | None => skip
         end
     | None => skip
     end)
    (fun _ => skip).

Definition is_pic_link (b : BqAnchor) : bool :=
  match hrefUrl b with
  | Some u => String.eqb (Js.strip_www (Js.toLowerCase (hostname u)))
                "pic.twitter.com"
  | None => false
  end.

Definition is_status_link (b : BqAnchor) : bool :=
  match expandedUrl b with
  | Some eu =>
      one_of ["twitter.com"; "x.com"; "mobile.twitter.com"]
        (Js.strip_www (Js.toLowerCase (hostname eu)))
      && status_path (Js.toLowerCase (pathname eu))
  | None => false
  end.

(** The oEmbed branch of the tweet callback. *)
Definition renderOembed (a : Anchor) (card : nat) (sens : option Label)
    (d : Data) : M World unit :=
  let m := oembedMarkup (html d) in
  let userName := author_name d in
  let text0 := if bq_found m then p_innerHTML m else "" in
  let text1 :=
    if Js.truthy text0 then text0
    else "<a href=" +:+ Js.dq +:+ a_href a +:+ Js.dq
         +:+ " target=" +:+ Js.dq +:+ "_blank" +:+ Js.dq
         +:+ " rel=" +:+ Js.dq +:+ "noopener noreferrer" +:+ Js.dq +:+ ">"
         +:+ Js.escapeHtml (a_href a) +:+ "</a>" in
  let anchors := if bq_found m then bq_anchors m else [] in
  let textHtml :=
    fold_left (fun t b => if is_pic_link b && Js.truthy t
                          then Js.replace_first (outerHTML b) "" t else t)
      anchors text1 in
  let candidateTweetUrl := List.find is_status_link anchors in
  let mediaNodes := Render.oembed_mediaNodes (map expandedUrl anchors) in
  set_tweet_body card
    (RenderedTweet userName textHtml (links_in textHtml)
       (take 4 mediaNodes) (a_url a)) ;;
  expandTcoLinksIn card
    (links_in textHtml ++ [(a_url a, "Open on Twitter")]) ;;
  match candidateTweetUrl with
  | Some c =>
      when (Nat.eqb (length mediaNodes) 0)
        (safeSendMessage
           (FetchTweet (default "" (href <$> expandedUrl c)))
           (OnSecondPass a card))
  | None => skip
  end ;;
  blur <- gets (fun w => blurMedia (settings (st w)));;
  initTweetMediaPager (blur || is_some sens) (take 4 mediaNodes).

(** The callback of the tweet branch. *)
Definition onTweetData (a : Anchor) (card : nat) (sens : option Label)
    (res : option TweetRes) : M World unit :=
  when (tweet_failed res) (fallback_link a card ;; return_) ;;
  match res with
  | Some r =>
      match t_data r with
      | Some d =>
          try_catch
            (when (String.eqb (t_source r) "oembed" && Js.truthy (html d))
               (renderOembed a card sens d ;; return_) ;;
             call (renderTweetInto card d (a_url a)))
            (fun _ => fallback_link a card)
      | None => skip
      end
  | None => skip
  end.

End Callbacks.

End Resolver.

(** ** Sample pages, messages and links *)

Module Sample.

Import Dom Page.
Open Scope Z_scope.

Definition https (h p : string) : URL :=
  {| protocol := "https:"; hostname := h; pathname := p;
     search := ""; hash := ""; searchParams := [] |}.

(** The defaults of [STATE.settings]. *)
Definition defaults : Settings :=
  {| enableTweets := true; enableMedia := true; enableYouTube := true;
     enableTwitch := true; enableKick := true; enableInstagram := true;
     blurMedia := false |}.

Definition three_items : list Pager.Item :=
  [ {| Pager.el := 1; Pager.isVideo := false; Pager.holder := None |};
    {| Pager.el := 2; Pager.isVideo := false; Pager.holder := Some 12%nat |};
    {| Pager.el := 3; Pager.isVideo := true; Pager.holder := None |} ].

Definition no_pager : Pager.Pager :=
  {| Pager.items := []; Pager.idx := 0; Pager.display := ∅;
     Pager.playing := ∅; Pager.counter := None;
     Pager.prevDisplay := None; Pager.nextDisplay := None;
     Pager.counterDisplay := None |}.

Definition pager_of_three : Pager.Pager :=
  default no_pager (Pager.init three_items ∅).

(** A logged-in chat page showing one message with the given text and
    anchors, scrolled to the bottom. *)
Definition page (text : string) (links : list Anchor) (p : Pager.Pager)
  : World :=
  {| st := {| settings := defaults; stickyWanted := false;
              insertingEmbed := false |};
     host := {| bodyInnerText := "chat settings logout";
                hidensfl := false; hidensfw := false; showremoved := "0";
                parseURL := fun _ => None; untracked := fun _ => true |};
     msg := {| innerText := text; anchors := links; wraps := [];
               tcoResolved := ∅; linkInView := true;
               appendFault := None; wrapHeight := 120 |};
     scroller := {| scrollHeight := 1000; scrollTop := 400;
                    clientHeight := 600 |};
     pager := p; frames := []; timeouts := []; loadListeners := [];
     observers := []; outbox := []; refreshers := []; nextId := 100 |}.

Definition link (id : nat) (text : string) (u : URL) : Anchor :=
  {| a_id := id; a_url := u; textContent := text |}.

(** A link to an arbitrary host whose text has the bigscreen form. *)
Definition a_text_twitch : Anchor :=
  link 1 "#twitch/xqc" (https "evil.example" "/x").


Definition a_twitch : Anchor :=
  link 1 "https://www.twitch.tv/xqc" (https "www.twitch.tv" "/xqc").

Definition a_catbox : Anchor :=
  link 1 "https://files.catbox.moe/d97241.mp4"
    (https "files.catbox.moe" "/d97241.mp4").

Definition a_image : Anchor :=
  link 1 "https://i.imgur.com/abc.png" (https "i.imgur.com" "/abc.png").

(** A tweet whose widget-CDN answer has no text; the first mirror is down,
    the second has the text and one photo. *)
Definition cdn_without_text : Tweet.Data :=
  {| Tweet.user :=
       Some {| Tweet.name := "Someone"; Tweet.screen_name := "some1" |};
     Tweet.author_name := ""; Tweet.text := "  "; Tweet.full_text := "";
     Tweet.description := ""; Tweet.created_at := "2025-07-11";
     Tweet.date := ""; Tweet.entities := None; Tweet.photos := None;
     Tweet.videos := None; Tweet.video_urls := None; Tweet.video_url := "";
     Tweet.oembed_html := ""; Tweet.html := "" |}.

Definition vx_payload : Background.Json :=
  Background.JObj
    [ ("text", Background.JStr "hello from the mirror");
      ("media_extended",
        Background.JArr
          [ Background.JObj
              [ ("url", Background.JStr
                          "https://pbs.twimg.com/media/Gabc.jpg?name=orig") ] ])
    ].

Definition net_mirror_second : Background.Net :=
  {| Background.cdn_by_id := Background.CdnOk cdn_without_text;
     Background.cdn_by_url := Background.CdnRejects;
     Background.mirror := fun m =>
       match m with
       | Background.Fx => Background.NotOk 503
       | Background.VxApi => Background.Parsed vx_payload
       | Background.Vx => Background.NetworkError
       end;
     Background.oembed := Background.NetworkError |}.


(** A chat message marked NSFW with a direct image link, after
    [injectBelow] has appended the wrapper and before the spoiler pass. *)
Definition direct_image_doc : Spoiler.Doc :=
  {| Spoiler.root :=
       Spoiler.El 1 "div" ["msg-chat"]
         [ Spoiler.El 2 "a" [] [];
           Spoiler.El 10 "div" ["edgg-wrap"; "edgg-left"]
             [ Spoiler.El 11 "a" ["edgg-media-link"]
                 [ Spoiler.El 12 "img" ["edgg-media"] [] ] ] ];
     Spoiler.listeners := [];
     Spoiler.nextId := 20 |}.

(** The same message once [injectBelow] has run
    [applySpoilerIfNeeded(wrap, 'NSFW', true)]. *)
Definition covered_image_doc : Spoiler.Doc :=
  Spoiler.applySpoilerIfNeeded 10 false true direct_image_doc.

(** A rendered tweet card with two photos and a video, before the spoiler
    pass of [renderTweetInto]. *)
Definition tweet_doc : Spoiler.Doc :=
  {| Spoiler.root :=
       Spoiler.El 1 "div" ["msg-chat"]
         [ Spoiler.El 2 "a" [] [];
           Spoiler.El 10 "div" ["edgg-wrap"; "edgg-left"]
             [ Spoiler.El 11 "div" ["edgg-embed"; "edgg-tweet"; "edgg-media"]
                 [ Spoiler.El 12 "div" ["edgg-tweet-body"]
                     [ Spoiler.El 13 "div" ["edgg-tweet-header"] [];
                       Spoiler.El 14 "div" ["edgg-tweet-text"] [];
                       Spoiler.El 15 "div" ["edgg-tweet-media"]
                         [ Spoiler.El 31 "img"
                             ["edgg-media"; "edgg-tweet-photo"] [];
                           Spoiler.El 32 "img"
                             ["edgg-media"; "edgg-tweet-photo"] [];
                           Spoiler.El 33 "video"
                             ["edgg-media"; "edgg-tweet-video"]
                             [ Spoiler.El 34 "source" [] [] ] ];
                       Spoiler.El 16 "div" ["edgg-tweet-footer"]
                         [ Spoiler.El 17 "a" [] [] ] ] ] ] ];
     Spoiler.listeners := [];
     Spoiler.nextId := 40 |}.

(** The card once [renderTweetInto] has run
    [applySpoilersInRoot(body, 'NSFW', true)]. *)
Definition covered_tweet_doc : Spoiler.Doc :=
  Spoiler.applySpoilersInRoot 12 false true tweet_doc.

(** A link to an Imgur album and to a Kick channel. *)
Definition a_imgur : Anchor :=
  link 1 "https://imgur.com/a/Vxl95hq" (https "imgur.com" "/a/Vxl95hq").

Definition a_kick : Anchor :=
  link 1 "https://kick.com/xqc" (https "kick.com" "/xqc").

Definition a_tweet : Anchor :=
  link 1 "https://x.com/TheOmniLiberal/status/1943717870245949733"
    (https "x.com" "/TheOmniLiberal/status/1943717870245949733").

(** A page whose markup carries no metadata at all. *)
Definition no_metadata : string -> Resolver.HtmlDoc := fun _ _ _ => None.

(** A thumbnail with no timer yet, and what the refresher observes. *)
Definition fresh_thumb : Thumb.State :=
  {| Thumb.src := Thumb.Plain "https://i.ytimg.com/vi/abc/hqdefault_live.jpg";
     Thumb.timerProp := None; Thumb.intervals := ∅;
     Thumb.nextTimer := 1; Thumb.refreshes := 0 |}.

Definition on_screen (t : Z) : Thumb.Obs :=
  {| Thumb.isConnected := true; Thumb.inView := true; Thumb.now := t |}.

Definition off_screen (t : Z) : Thumb.Obs :=
  {| Thumb.isConnected := true; Thumb.inView := false; Thumb.now := t |}.

Definition detached (t : Z) : Thumb.Obs :=
  {| Thumb.isConnected := false; Thumb.inView := false; Thumb.now := t |}.

End Sample.

(** ** Vocabulary of the statements *)

(** [Math.max(0, Math.min(i, n - 1))] *)
Definition clamp (n i : Z) : Z := Z.max 0 (Z.min i (n - 1)).

(** The state of a pager that was set up on [its] and then driven by any
    number of clicks. *)
Definition pager_inv (its : list Pager.Item) (p : Pager.Pager) : Prop :=
  Pager.items p = its
  /\ (0 <= Pager.idx p < Z.of_nat (length its))%Z
  /\ Pager.visible_count p = 1%nat.





(** [m] only adds elements satisfying [P] and requests satisfying [Q]. *)
Definition Grows {A} (P : Page.Element -> bool) (Q : Page.Request -> bool)
    (m : M Page.World A) : Prop :=
  forall w, exists els reqs,
    map Page.w_el (Page.wraps (Page.msg (exec m w)))
    = (map Page.w_el (Page.wraps (Page.msg w)) ++ els)%list
    /\ forallb P els = true
    /\ Page.outbox (exec m w) = (Page.outbox w ++ reqs)%list
    /\ forallb Q reqs = true.

(** What a mirror answers with, seen through [scan]. *)
Definition yields (net : Background.Mirror -> Background.Fetched)
    (m : Background.Mirror) : bool :=
  Background.yields_media (net m).

Definition mirror_scan (net : Background.Mirror -> Background.Fetched)
    (m : Background.Mirror) : list string * list string :=
  match net m with
  | Background.Parsed j => Background.scan j
  | _ => ([], [])
  end.

(** The timer of an element is the one its property names. *)
Definition owned (id : nat) (s : Thumb.State) : Prop :=
  forall p, Thumb.intervals s !! id = Some p -> Thumb.timerProp s = Some id.

(** ** The background worker: page fetches, oEmbed, tweet ids, settings *)

Module Worker.

Import Dom.
Open Scope list_scope.

(** [MEDIA_WHITELIST] of [background.js], smaller than the content
    script's. *)
Definition MEDIA_WHITELIST : gset string :=
  list_to_set
    [ "imgur.com"; "i.imgur.com"; "flickr.com"; "www.flickr.com";
      "youtube.com"; "www.youtube.com";
      "youtu.be"; "vimeo.com"; "instagram.com"; "www.instagram.com";
      "ddinstagram.com";
      "www.ddinstagram.com"; "giphy.com"; "media.giphy.com"; "tenor.com";
      "media.tenor.com";
      "streamable.com"; "dropbox.com"; "onedrive.live.com";
      "photos.google.com";
      "lh3.googleusercontent.com"; "icloud.com"; "res.cloudinary.com";
      "s3.amazonaws.com";
      "cdn.discordapp.com"; "i.4cdn.org"; "kick.com"; "twitch.tv";
      "www.twitch.tv";
      "i.kym-cdn.com";
      "twitter.com"; "x.com"; "t.co"; "fxtwitter.com"; "nitter.net" ].

(** What [fetch(url)] followed by [res.text()] comes to; [contentType] is
    [res.headers.get("content-type") || ""] and [url] is [res.url]. *)
Inductive Fetched : Type :=
| Rejects
| Answer (ok : bool) (status : Z) (contentType text url : string).

(** The payloads of [sendResponse] in the [bgFetch] handler. *)
Inductive Reply : Type :=
| Blocked          (* { ok: false, error: "blocked_by_whitelist" } *)
| Errored          (* { ok: false, error: String(e) } *)
| Page (ok : bool) (status : Z) (contentType body finalUrl : string).

(** The [bgFetch] handler; [parse] is [new URL(s)], [None] when it
    throws. *)
Definition bgFetch (parse : string -> option URL)
    (fetch : string -> Fetched) (url : string) : Reply :=
  match parse url with
  | None => Errored
  | Some u =>
      if negb (bool_decide (hostname u ∈ MEDIA_WHITELIST)) then Blocked
      else
        match fetch url with
        | Rejects => Errored
        | Answer ok status contentType text resUrl =>
            Page ok status contentType text (Js.or_else resUrl url)
        end
  end.

(** The reply as the content script's callbacks read it. *)
Definition as_res (r : Reply) : Resolver.PageRes :=
  match r with
  | Page ok _ _ body finalUrl =>
      {| Resolver.ok := ok; Resolver.body := body;
         Resolver.finalUrl := finalUrl |}
  | _ => {| Resolver.ok := false; Resolver.body := "";
            Resolver.finalUrl := "" |}
  end.

(** The payloads of [sendResponse] in the YouTube [oembed] handler. *)
Inductive OembedReply : Type :=
| InvalidProvider             (* { ok: false, error: "invalid_provider" } *)
| OembedErrored               (* { ok: false, error: String(e) } *)
| OembedNotOk (status : Z)    (* { ok: false, status } *)
| OembedData (json : Background.Json).

(** [url.hostname.endsWith("youtube.com") || url.hostname === "youtu.be"] *)
Definition youtube_provider (u : URL) : bool :=
  Js.endsWith (hostname u) "youtube.com" || String.eqb (hostname u) "youtu.be".

(** The [oembed] handler for provider [youtube]; [endpoint] is what
    fetching the oEmbed URL of the video and reading its JSON comes to. *)
Definition oembedYouTube (parse : string -> option URL)
    (endpoint : string -> Background.Fetched) (videoUrl : string)
  : OembedReply :=
  match parse videoUrl with
  | None => OembedErrored
  | Some url =>
      if negb (youtube_provider url) then InvalidProvider
      else
        match endpoint videoUrl with
        | Background.NetworkError | Background.BadJson => OembedErrored
        | Background.NotOk status => OembedNotOk status
        | Background.Parsed json => OembedData json
        end
  end.

(** [url.pathname.match(/\/status\/(\d+)/)
     || url.pathname.match(/\/i\/web\/status\/(\d+)/)], first capture. *)
Definition tweet_id_in (path : string) : option string :=
  match Js.capture_after "/status/" Js.is_digit path with
  | Some id => Some id
  | None => Js.capture_after "/i/web/status/" Js.is_digit path
  end.

(** [extractTweetId(u)] of the [fetchTweet] handler. *)
Definition extractTweetId (parse : string -> option URL) (u : string)
  : option string :=
  match parse u with
  | Some url => tweet_id_in (pathname url)
  | None => None
  end.

(** *** Settings *)

(** [chrome.storage.sync] and settings objects: toggles by key. *)
Definition Store : Type := gmap string bool.

Definition DEFAULTS : Store :=
  list_to_map
    [ ("enableTweets", true); ("enableMedia", true);
      ("enableYouTube", true); ("enableTwitch", true);
      ("enableKick", true); ("enableInstagram", true);
      ("blurMedia", false) ].

(** [{ ...a, ...b }] *)
Definition spread (a b : Store) : Store := b ∪ a.

(** [chrome.storage.sync.set(items)] *)
Definition storage_set (items storage : Store) : Store :=
  spread storage items.

(** The [onInstalled] listener. *)
Definition onInstalled (storage : Store) : Store :=
  storage_set (spread DEFAULTS storage) storage.

(** The [getSettings] handler: [res.settings]. *)
Definition getSettings (storage : Store) : Store := spread DEFAULTS storage.

(** The [setSettings] handler: [storage.sync.set(msg.settings || {})]. *)
Definition setSettings (settings : option Store) (storage : Store) : Store :=
  storage_set (default ∅ settings) storage.

(** [keys] of [popup.js]. *)
Definition keys : list string :=
  [ "enableTweets"; "enableMedia"; "enableYouTube"; "enableTwitch";
    "enableKick"; "enableInstagram"; "blurMedia" ].

(** [onToggle(k)] of the popup, with the state of the checkbox. *)
Definition onToggle (k : string) (checked : bool) (storage : Store) : Store :=
  setSettings (Some {[ k := checked ]}) storage.

(** [load()] of the popup: the state given to checkbox [k]
    ([!!s[k]]). *)
Definition load (storage : Store) (k : string) : bool :=
  default false (getSettings storage !! k).

(** [STATE.settings[k]] for the toggles the content script reads. *)
Definition setting (k : string) (s : Settings) : option bool :=
  if String.eqb k "enableTweets" then Some (enableTweets s)
  else if String.eqb k "enableMedia" then Some (enableMedia s)
  else if String.eqb k "enableYouTube" then Some (enableYouTube s)
  else if String.eqb k "enableTwitch" then Some (enableTwitch s)
  else if String.eqb k "enableKick" then Some (enableKick s)
  else if String.eqb k "enableInstagram" then Some (enableInstagram s)
  else if String.eqb k "blurMedia" then Some (blurMedia s)
  else None.

(** The callback of the content script's [getSettings] request:
    [if (res && res.ok) STATE.settings = { ...STATE.settings,
    ...res.settings }]; [None] is a missing or failed response. *)
Definition applySettings (res : option Store) (s : Settings) : Settings :=
  match res with
  | None => s
  | Some r =>
      {| enableTweets := default (enableTweets s) (r !! "enableTweets");
         enableMedia := default (enableMedia s) (r !! "enableMedia");
         enableYouTube := default (enableYouTube s) (r !! "enableYouTube");
         enableTwitch := default (enableTwitch s) (r !! "enableTwitch");
         enableKick := default (enableKick s) (r !! "enableKick");
         enableInstagram :=
           default (enableInstagram s) (r !! "enableInstagram");
         blurMedia := default (blurMedia s) (r !! "blurMedia") |}
  end.

End Worker.

(** ** Videos and the page's content security policy
       ([getVideoOriginalUrl], [prepareVideoForCsp]) *)

Module Csp.

Import Dom.
Open Scope list_scope.

(** A [<video>]: its [__edggCspReady] mark, its [src] and the [src] of
    its [<source>] children. *)
Record Video : Type := {
  ready : bool;
  v_src : string;
  sources : list string
}.

Definition getVideoOriginalUrl (v : Video) : option string :=
  if Js.truthy (v_src v) && negb (Js.startsWith (v_src v) "blob:")
  then Some (v_src v)
  else
    match sources v with
    | s :: _ => if Js.truthy s then Some s else None
    | [] => None
    end.

(** [/^(files\.catbox\.moe|video\.twimg\.com|v\.redd\.it|
      .*\.cdninstagram\.com)$/i.test(h)] for a host without line breaks. *)
Definition blob_at_once_host (h : string) : bool :=
  let l := Js.toLowerCase h in
  one_of ["files.catbox.moe"; "video.twimg.com"; "v.redd.it"] l
  || Js.endsWith l ".cdninstagram.com".

(** The host test of [prepareVideoForCsp] on [url]; [parse] is
    [new URL(url, location.href)]. *)
Definition blob_at_once (parse : string -> option URL) (url : string) : bool :=
  match parse url with
  | Some u => blob_at_once_host (Js.toLowerCase (Js.strip_www (hostname u)))
  | None => false
  end.

(** What [prepareVideoForCsp] sets up: the URL that [toBlob] will fetch
    when the video raises [error], and whether [toBlob] is started at
    once. *)
Record Plan : Type := { target : string; at_once : bool }.

(** [prepareVideoForCsp(videoEl, originUrl)]; [originUrl] is [None] for
    [null]. *)
Definition prepareVideoForCsp (parse : string -> option URL)
    (originUrl : option string) (v : Video) : Video * option Plan :=
  if ready v then (v, None)
  else
    let v' := {| ready := true; v_src := v_src v; sources := sources v |} in
    let url := match originUrl with
               | Some o => if Js.truthy o then Some o
                           else getVideoOriginalUrl v
               | None => getVideoOriginalUrl v
               end in
    match url with
    | None => (v', None)
    | Some u =>
        if negb (Js.truthy u) || Js.startsWith u "blob:" then (v', None)
        else (v', Some {| target := u; at_once := blob_at_once parse u |})
    end.

(** One turn of the loop of [ensureCspSafeVideos]. *)
Definition ensureCspSafe (parse : string -> option URL) (v : Video)
  : Video * option Plan :=
  prepareVideoForCsp parse (getVideoOriginalUrl v) v.

End Csp.

(** ** Relations between the page before and after a statement *)

(** [m] takes every page to one related to it by [R]. *)
Definition Keeps {A} (R : Page.World -> Page.World -> Prop)
    (m : M Page.World A) : Prop :=
  forall w, R w (exec m w).

(** The settings and the sticky intent are as before, and the insertion
    guard is lowered if it was. *)
Definition same_intent (w w' : Page.World) : Prop :=
  Page.settings (Page.st w') = Page.settings (Page.st w)
  /\ Page.stickyWanted (Page.st w') = Page.stickyWanted (Page.st w)
  /\ (Page.insertingEmbed (Page.st w) = false ->
      Page.insertingEmbed (Page.st w') = false).

(** What the scroll machinery has queued. *)
Definition queued (w : Page.World)
  : list Page.Task * list (Z * Page.Task) * list (nat * Page.Task)
    * list (nat * Page.Task) :=
  (Page.frames w, Page.timeouts w, Page.loadListeners w, Page.observers w).

(** A message out of view stays out of view, the scroll position is as
    before and nothing was queued. *)
Definition no_scroll (w w' : Page.World) : Prop :=
  Page.linkInView (Page.msg w') = Page.linkInView (Page.msg w)
  /\ (Page.linkInView (Page.msg w) = false ->
      Page.scrollTop (Page.scroller w') = Page.scrollTop (Page.scroller w)
      /\ queued w' = queued w).

(** The [data-edgg-src] values present in the message. *)
Definition data_srcs (w : Page.World) : list string :=
  omap Page.w_dataSrc (Page.wraps (Page.msg w)).

Definition distinct_srcs (w w' : Page.World) : Prop :=
  NoDup (data_srcs w) -> NoDup (data_srcs w').

(** The hosts whose links can get a tweet card or a link card of each
    kind. *)
Definition card_host (a : Dom.Anchor) (e : Page.Element) : bool :=
  let h := Dom.hostname (Dom.a_url a) in
  match e with
  | Page.TWEET _ =>
      Dom.one_of ["twitter.com"; "x.com"; "mobile.twitter.com";
                  "fxtwitter.com"; "vxtwitter.com"; "nitter.net";
                  "pic.twitter.com"] h
  | Page.CARD Page.YouTubeCard _ _ _ =>
      Dom.one_of ["youtube.com"; "youtu.be"] h
  | Page.CARD Page.TwitchCard _ _ _ =>
      Dom.one_of ["twitch.tv"; "www.twitch.tv"] h
  | Page.CARD Page.KickCard _ _ _ => String.eqb h "kick.com"
  | _ => true
  end.

(** The characters [escapeHtml] replaces. *)
Definition html_special (c : ascii) : bool :=
  Js.mem_char c ("&<>'" +:+ Js.dq).



(** The scrollable range is as before. *)
Definition same_range (w w' : Page.World) : Prop :=
  Page.scrollHeight (Page.scroller w') = Page.scrollHeight (Page.scroller w)
  /\ Page.clientHeight (Page.scroller w')
     = Page.clientHeight (Page.scroller w).

(** Everything a scan keeps at once. *)
Definition scan_relation (w w' : Page.World) : Prop :=
  same_intent w w' /\ no_scroll w w' /\ distinct_srcs w w'.

(** The controls of a pager on [its] agree with its position, and no
    video off screen is playing. *)
Definition pager_controls (its : list Pager.Item) (p : Pager.Pager) : Prop :=
  let n := Z.of_nat (length its) in
  Pager.items p = its
  /\ (0 <= Pager.idx p < n)%Z
  /\ Pager.prevDisplay p
     = Some (if (0 <? Pager.idx p)%Z then Pager.Block else Pager.Hidden)
  /\ Pager.nextDisplay p
     = Some (if (Pager.idx p <? n - 1)%Z then Pager.Block else Pager.Hidden)
  /\ Pager.counter p = Some (Pager.idx p + 1, n)%Z
  /\ Pager.counterDisplay p = Some Pager.Block
  /\ forall j it, its !! j = Some it -> Pager.isVideo it = true ->
       Z.of_nat j <> Pager.idx p -> Pager.el it ∉ Pager.playing p.

(** What happens to a thumbnail over time: a refresher of one kind is
    started on it with [arg] (the channel for the Twitch kind, the base
    URL for the other), or the browser runs the callback of interval
    [id]. *)
Inductive ThumbEvent : Type :=
| Restart (arg : string) (periodMs : Z) (o : Thumb.Obs)
| Tick (arg : string) (id : nat) (o : Thumb.Obs).

Definition thumb_target (twitch : bool) (arg : string) : Thumb.Target :=
  if twitch then Thumb.TwitchChannel arg else Thumb.BaseUrl arg.

Definition thumb_event (twitch : bool) (e : ThumbEvent) (s : Thumb.State)
  : Thumb.State :=
  match e with
  | Restart arg periodMs o =>
      Thumb.start (thumb_target twitch arg) periodMs o s
  | Tick arg id o => Thumb.fire (thumb_target twitch arg) id o s
  end.

Definition thumb_events (twitch : bool) (es : list ThumbEvent)
    (s : Thumb.State) : Thumb.State :=
  fold_left (fun s' e => thumb_event twitch e s') es s.

(** Every live interval is the one the element's timer property holds,
    and its id has been handed out. *)
Definition one_timer (s : Thumb.State) : Prop :=
  forall i p, Thumb.intervals s !! i = Some p ->
    Thumb.timerProp s = Some i /\ (i < Thumb.nextTimer s)%nat.

(** The title and the thumbnail of the card in wrapper [card]. *)
Definition card_of (card : nat) (w : Page.World)
  : option (string * option string) :=
  match List.find (fun x => Nat.eqb (Page.w_id x) card)
          (Page.wraps (Page.msg w)) with
  | Some x => match Page.w_el x with
              | Page.CARD _ _ t th => Some (t, th)
              | _ => None
              end
  | None => None
  end.

(** The card has a title, and its thumbnail, if it is still there, has a
    source. *)
Definition completed (c : string * option string) : bool :=
  Js.truthy c.1 && match c.2 with
                   | Some src => Js.truthy src
                   | None => true
                   end.

(** The toggle an element inserted by the router stands under; the
    router inserts no block of a resolved post itself. *)
Definition toggle_of_el (s : Dom.Settings) (e : Page.Element) : bool :=
  match e with
  | Page.TWEET _ => Dom.enableTweets s
  | Page.IMG _ | Page.VIDEO _ => Dom.enableMedia s
  | Page.BLOCK _ _ _ => false
  | Page.CARD Page.BigscreenCard _ _ _
  | Page.CARD Page.TwitchCard _ _ _ => Dom.enableTwitch s
  | Page.CARD Page.YouTubeCard _ _ _ => Dom.enableYouTube s
  | Page.CARD Page.KickCard _ _ _ => Dom.enableKick s
  end.

(** The toggle a request stands under, by the callback that waits for
    its answer; resolving a [t.co] link stands under none. *)
Definition toggle_of_req (s : Dom.Settings) (r : Page.Request) : bool :=
  match Page.rq_cb r with
  | Page.OnTcoResolved _ => true
  | Page.OnBigscreenPage _ _ | Page.OnTwitchPage _ _ _ => Dom.enableTwitch s
  | Page.OnTweetData _ _ _ | Page.OnSecondPass _ _
  | Page.OnTcoLinkExpanded _ _ => Dom.enableTweets s
  | Page.OnYouTubeOembed _ | Page.OnYouTubePage _ _ => Dom.enableYouTube s
  | Page.OnKickPage _ _ _ _ => Dom.enableKick s
  | Page.OnImgurPage _ _ | Page.OnRedditJson _ _ => Dom.enableMedia s
  | Page.OnInstagramPage _ _ => Dom.enableInstagram s
  end.

(** Run with the settings [s], [m] keeps them and only adds elements and
    requests whose toggle is on. *)
Definition GrowsWith {A} (s : Dom.Settings) (m : M Page.World A) : Prop :=
  forall w, Page.settings (Page.st w) = s ->
    Page.settings (Page.st (exec m w)) = s
    /\ exists els reqs,
         map Page.w_el (Page.wraps (Page.msg (exec m w)))
         = (map Page.w_el (Page.wraps (Page.msg w)) ++ els)%list
         /\ forallb (toggle_of_el s) els = true
         /\ Page.outbox (exec m w) = (Page.outbox w ++ reqs)%list
         /\ forallb (toggle_of_req s) reqs = true.


(** ** Link attributes ([retargetLinks]) *)

Module Links.

Open Scope list_scope.

(** [s.split(/\s+/).filter(Boolean)]: the maximal runs of characters that
    are not white space (below code unit 256, as for [trim]); [cur] is
    the run being read. *)
Fixpoint tokens_from (cur s : string) : list string :=
  match s with
  | EmptyString => if Js.is_empty cur then [] else [cur]
  | String c t =>
      if Js.is_space c
      then (if Js.is_empty cur then tokens_from "" t
            else cur :: tokens_from "" t)
      else tokens_from (cur +:+ String c "") t
  end.

Definition tokens (s : string) : list string := tokens_from "" s.

(** [set.add(x)] on a [Set] of strings, seen as the list of its members
    in insertion order. *)
Definition set_add (x : string) (l : list string) : list string :=
  if existsb (String.eqb x) l then l else l ++ [x].

(** [parts.join(' ')] *)
Fixpoint join (l : list string) : string :=
  match l with
  | [] => ""
  | [x] => x
  | x :: r => x +:+ " " +:+ join r
  end.

(** The two attributes of an [<a href>] that [retargetLinks] writes;
    [None] is an absent attribute. *)
Record Link : Type := { target : option string; rel : option string }.

(** [parts] after the two [add]s: [new Set(rel.split(/\s+/)
    .filter(Boolean))] keeps the first occurrence of each token. *)
Definition rel_parts (a : Link) : list string :=
  set_add "noreferrer"
    (set_add "noopener"
       (Background.dedup
          (tokens (Js.toLowerCase (default "" (rel a)))))).

(** One turn of the loop of [retargetLinks]. *)
Definition retarget (a : Link) : Link :=
  {| target := Some "_blank"; rel := Some (join (rel_parts a)) |}.

(** [retargetLinks(root)] on the [a[href]] elements of [root]. *)
Definition retargetLinks (links : list Link) : list Link :=
  map retarget links.

End Links.

(** A token of a [rel] attribute as [retargetLinks] writes it: not empty,
    without white space, in lower case. *)
Definition rel_token (t : string) : bool :=
  Js.truthy t
  && Js.all_chars (fun c => negb (Js.is_space c)) t
  && Js.all_chars (fun c => Ascii.eqb (Js.lower_char c) c) t.

(** ** The metadata callbacks of the link cards *)

Module Cards.

Import Dom Page Router Resolver.
Open Scope list_scope.
Open Scope js_scope.

(** The answer to an [oembed] message: [{ ok, data }] with the text
    fields of [data] the callback reads ([""] when absent). *)
Record OembedData : Type := { title : string; thumbnail_url : string }.

(** [overlay.querySelector('.edgg-card-title').textContent = t] *)
Definition set_title (card : nat) (t : string) : M World unit :=
  update_wrap card (fun x =>
    match w_el x with
    | CARD k l _ th => with_el (CARD k l t th) x
    | _ => x
    end).

(** [thumb.src = src], seen in the card while the thumbnail is in it. *)
Definition set_thumb (card : nat) (src : string) : M World unit :=
  update_wrap card (fun x =>
    match w_el x with
    | CARD k l t (Some _) => with_el (CARD k l t (Some src)) x
    | _ => x
    end).

(** [thumb.remove()] *)
Definition remove_thumb (card : nat) : M World unit :=
  update_wrap card (fun x =>
    match w_el x with
    | CARD k l t _ => with_el (CARD k l t None) x
    | _ => x
    end).


(** A call of [startTwitchThumbAutoRefresh] or [startThumbAutoRefresh]:
    the card whose thumbnail it is given, the target and the period. *)
Definition Refresher : Type := nat * Thumb.Target * Z.

Section Callbacks.

(** The browser's parser and encoder ([None] when it throws), and the
    scrapers of third-party markup. *)
Variable parseFromString : string -> HtmlDoc.
Variable encodeURIComponent : string -> option string.
Variable extractTwitchLiveTitle : string -> option string.
Variable isYouTubeLive : string -> bool.

(** [getTwitchLivePreviewUrl(channel, 640, 360)] *)
Definition getTwitchLivePreviewUrl (channel : string) : string :=
  let c := Js.toLowerCase channel in
  if Js.is_empty c then ""
  else
    match encodeURIComponent c with
    | Some e => "https://static-cdn.jtvnw.net/previews-ttv/live_user_"
                +:+ e +:+ "-640x360.jpg"
    | None => ""
    end.

(** [title], [image] and [wasLive] as the Twitch callbacks have them
    before they touch the card; [probe] says whether the live title is
    looked for ([channel ? extractTwitchLiveTitle(res.body) : null]). *)
Definition twitch_meta (title0 channel : string) (probe : bool)
    (res : option PageRes) : string * string * bool :=
  match res with
  | Some r =>
      if ok r && Js.truthy (body r) then
        let doc := parseFromString (body r) in
        let image := Js.or_else (pick doc "meta[property=og:image]")
                       (pick doc "meta[name=twitter:image]") in
        let desc := Js.or_else (pick doc "meta[property=og:description]")
                      (pick doc "meta[name=twitter:description]") in
        let liveTitle :=
          if probe then default "" (extractTwitchLiveTitle (body r))
          else "" in
        if Js.truthy liveTitle
        then (liveTitle,
              Js.or_else (getTwitchLivePreviewUrl channel) image, true)
        else
          (if Js.truthy desc && Nat.leb 3 (String.length desc) then desc
           else Js.or_else (pick doc "meta[property=og:title]")
                  (Js.or_else (pick doc "meta[name=twitter:title]") title0),
           image, false)
      else (title0, "", false)
  | None => (title0, "", false)
  end.

(** The tail shared by the Twitch callbacks: thumbnail, title, and the
    refresher when [go] holds. *)
Definition finish_twitch (card : nat) (channel : string)
    (meta : string * string * bool) (go : bool)
  : M World (option Refresher) :=
  let '(title, image, wasLive) := meta in
  (if Js.truthy image then set_thumb card image else remove_thumb card) ;;
  set_title card title ;;
  ret (if go && wasLive
       then Some (card, Thumb.TwitchChannel channel, 60000%Z)
       else None).

Definition catching {A} (body : M World (option A))
    (handler : M World unit) : M World (option A) :=
  fun w =>
    match body w with
    | (Thrown _, w') =>
        match handler w' with
        | (Normal _, w'') => (Normal None, w'')
        | (Returned, w'') => (Returned, w'')
        | (Thrown e, w'') => (Thrown e, w'')
        end
    | r => r
    end.

(** The callback of the bigscreen branch; the result is the refresher it
    starts, if any. *)
Definition onBigscreenPage (chan : string) (card : nat)
    (res : option PageRes) : M World (option Refresher) :=
  catching
    (finish_twitch card chan
       (twitch_meta ("Twitch • " +:+ chan) chan true res) true)
    (set_title card ("Twitch • " +:+ chan) ;; remove_thumb card).

(** The callback of the Twitch branch. *)
Definition onTwitchPage (channel video : option string) (card : nat)
    (res : option PageRes) : M World (option Refresher) :=
  let chan := default "" channel in
  let title0 := if Js.truthy chan then "Twitch • " +:+ chan
                else "Twitch Video • " +:+ default "null" video in
  catching
    (finish_twitch card chan
       (twitch_meta title0 chan (Js.truthy chan) res) (Js.truthy chan))
    (remove_thumb card).



End Callbacks.

End Cards.


(** * Properties *)

(** ** The pager *)

Section PagerFacts.

Import Pager.
Open Scope Z_scope.

Lemma show_loop_other its : forall k i d pl x,
  x ∉ map node its ->
  (show_loop its k i d pl).1 !! x = d !! x.
Proof.
  induction its as [|it rest IH]; intros k i d pl x Hx; simpl; [done|].
  apply not_elem_of_cons in Hx as [Hne Hx].
  rewrite IH by done. by rewrite lookup_insert_ne.
Qed.

Lemma show_loop_visible its : forall k i d pl,
  NoDup (map node its) ->
  forall j it, its !! j = Some it ->
    (show_loop its k i d pl).1 !! node it
    = Some (if k + Z.of_nat j =? i then Block else Hidden).
Proof.
  induction its as [|it0 rest IH]; intros k i d pl Hnd j it Hj; [done|].
  simpl in Hnd. apply NoDup_cons in Hnd as [Hnotin Hnd].
  destruct j as [|j]; simpl in Hj.
  - injection Hj as ->. simpl. rewrite show_loop_other by done.
    rewrite lookup_insert_eq. by rewrite Z.add_0_r.
  - simpl. rewrite (IH (k + 1) i _ _ Hnd j it Hj).
    by replace (k + Z.of_nat (S j)) with (k + 1 + Z.of_nat j) by lia.
Qed.

Lemma count_single (vis : Item -> bool) its : forall k i,
  (forall j it, its !! j = Some it -> vis it = (k + Z.of_nat j =? i)) ->
  length (List.filter vis its)
  = if (k <=? i) && (i <? k + Z.of_nat (length its)) then 1%nat else 0%nat.
Proof.
  induction its as [|it0 rest IH]; intros k i Hvis.
  - cbn [List.filter length].
    destruct (k <=? i) eqn:E1; destruct (i <? k + Z.of_nat 0) eqn:E2;
      try done; exfalso; lia.
  - pose proof (Hvis 0%nat it0 eq_refl) as H0. rewrite Z.add_0_r in H0.
    assert (Hrest : forall j it, rest !! j = Some it ->
               vis it = (k + 1 + Z.of_nat j =? i)).
    { intros j it Hj. rewrite (Hvis (S j) it Hj). f_equal. lia. }
    specialize (IH (k + 1) i Hrest).
    cbn [List.filter length]. rewrite H0.
    destruct (k =? i) eqn:Ek; cbn [length]; rewrite IH.
    + apply Z.eqb_eq in Ek. subst i.
      replace (k + 1 <=? k) with false by lia.
      replace (k <=? k) with true by lia.
      replace (k <? k + Z.of_nat (S (length rest))) with true by lia.
      done.
    + apply Z.eqb_neq in Ek.
      destruct (k + 1 <=? i) eqn:E1, (k <=? i) eqn:E2,
        (i <? k + 1 + Z.of_nat (length rest)) eqn:E3,
        (i <? k + Z.of_nat (S (length rest))) eqn:E4;
        try done; exfalso; lia.
Qed.

(** What [show] establishes on a group with distinct display nodes. *)
Lemma show_spec (i : Z) (p : Pager) :
  items p <> [] ->
  NoDup (map node (items p)) ->
  let n := Z.of_nat (length (items p)) in
  items (show i p) = items p
  /\ idx (show i p) = clamp n i
  /\ visible_count (show i p) = 1%nat.
Proof.
  intros Hne Hnd n. unfold show.
  destruct (items p) as [|it0 rest] eqn:Hits; [done|].
  fold n. fold (clamp n i).
  destruct (show_loop (it0 :: rest) 0 (clamp n i) (display p) (playing p))
    as [d pl] eqn:Hloop.
  split; [done|]. split; [done|].
  unfold visible_count, visible. cbn [items display].
  rewrite (count_single _ (it0 :: rest) 0 (clamp n i)).
  - assert (0 < n) by (subst n; simpl; lia).
    unfold clamp.
    destruct (0 <=? _) eqn:E1, (_ <? 0 + _) eqn:E2;
      try done; exfalso; subst n; lia.
  - intros j it Hj.
    pose proof (show_loop_visible (it0 :: rest) 0 (clamp n i) (display p)
                  (playing p) Hnd j it Hj) as Hv.
    rewrite Hloop in Hv. cbn [fst] in Hv. rewrite Hv.
    by destruct (0 + Z.of_nat j =? clamp n i).
Qed.

Lemma show_inv its i p :
  its <> [] -> NoDup (map node its) -> items p = its ->
  pager_inv its (show i p).
Proof.
  intros Hne Hnd Hits. subst its.
  destruct (show_spec i p Hne Hnd) as (H1 & H2 & H3).
  repeat split; try done; rewrite H2; unfold clamp;
    destruct (items p); try done; simpl length; lia.
Qed.

Lemma step_inv its op p :
  its <> [] -> NoDup (map node its) ->
  pager_inv its p -> pager_inv its (step op p).
Proof.
  intros Hne Hnd Hinv. unfold step.
  destruct (requested op p); [|done].
  apply show_inv; try done. apply Hinv.
Qed.

Lemma run_inv its ops : forall p,
  its <> [] -> NoDup (map node its) ->
  pager_inv its p -> pager_inv its (run ops p).
Proof.
  induction ops as [|op ops IH]; intros p Hne Hnd Hinv; [done|].
  simpl. apply IH; try done. by apply step_inv.
Qed.

(** C5. A pager over a group of n >= 2 items clamps at both ends and
    never wraps: "previous" at index 0 stays at 0, "next" at index n-1
    stays at n-1, and after the initial layout and after every further
    pager operation exactly one item of the group is displayed. *)
Theorem pager_clamps_and_shows_one (its : list Item) (pl : gset nat) :
  (2 <= length its)%nat ->
  NoDup (map node its) ->
  exists p0, init its pl = Some p0 /\
    forall ops,
      let p := run ops p0 in
      let n := Z.of_nat (length its) in
      (idx p = 0 -> idx (step ClickPrev p) = 0)
      /\ (idx p = n - 1 -> idx (step ClickNext p) = n - 1)
      /\ visible_count p = 1%nat
      /\ 0 <= idx p < n.
Proof.
  intros Hlen Hnd.
  assert (Hne : its <> []) by (destruct its; [simpl in Hlen; lia | done]).
  unfold init.
  destruct (length its <=? 1)%nat eqn:E; [apply Nat.leb_le in E; lia|].
  eexists. split; [reflexivity|].
  intros ops. set (p := run ops _). set (n := Z.of_nat (length its)).
  assert (Hinv : pager_inv its p).
  { apply run_inv; try done. by apply show_inv. }
  destruct Hinv as (Hits & Hidx & Hvis).
  assert (Hne' : items p <> []) by by rewrite Hits.
  assert (Hnd' : NoDup (map node (items p))) by by rewrite Hits.
  repeat split; try done; try lia.
  - intros H0. unfold step. cbn [requested].
    destruct (show_spec (idx p - 1) p Hne' Hnd') as (_ & -> & _).
    rewrite Hits, H0. unfold clamp. lia.
  - intros Hn. unfold step. cbn [requested].
    destruct (show_spec (idx p + 1) p Hne' Hnd') as (_ & -> & _).
    rewrite Hits, Hn. unfold clamp. fold n. lia.
Qed.

Lemma pager_clamps_and_shows_one_witness :
  exists p0, init Sample.three_items ∅ = Some p0 /\
    forall ops,
      let p := run ops p0 in
      (idx p = 0 -> idx (step ClickPrev p) = 0)
      /\ (idx p = 3 - 1 -> idx (step ClickNext p) = 3 - 1)
      /\ visible_count p = 1%nat
      /\ 0 <= idx p < 3.
Proof.
  apply (pager_clamps_and_shows_one Sample.three_items ∅).
  - simpl. lia.
  - apply (bool_decide_unpack _). vm_compute. exact I.
Defined.

(** The pagers [initTweetMediaPager] builds have distinct display nodes:
    every item is its own node or has a spoiler holder of its own. *)
Lemma built_pager_nodes_distinct (base : nat) (spoiled : bool)
    (media : list Page.Media) :
  NoDup (map node (Resolver.pager_items base spoiled media)).
Proof.
  unfold Resolver.pager_items.
  change (map node ?l) with (node <$> l). rewrite fmap_imap.
  rewrite (imap_ext _ (fun k _ =>
             if spoiled then (base + length media + k)%nat
             else (base + k)%nat)).
  2:{ intros k m _. unfold node. cbn. by destruct spoiled. }
  rewrite imap_seq_0. apply NoDup_fmap_2; [|apply NoDup_seq].
  intros x y Hxy. destruct spoiled; lia.
Qed.

End PagerFacts.

(** ** The insertion guard [STATE.insertingEmbed] *)

(** Unfold the statements of the scroll controller down to state
    transformers. *)
Ltac step_m :=
  unfold Page.safeAppendEmbed, Page.safePageTo,
    Page.maintainStickyAfterAppend, Page.appendChild,
    Page.doScroll, Page.scrollToBottom, Page.requestAnimationFrame,
    Page.setTimeout, Page.set_insertingEmbed, Page.set_stickyWanted,
    Page.set_scrollTop,
    try_finally, try_catch, call, when, skip, bind, gets, modify, ret,
    throw, return_, exec, outcome in *;
  cbn -[Z.add Z.sub Z.max Z.min Z.leb] in *.

Ltac case_if :=
  match goal with
  | |- context [if ?c then _ else _] => destruct c eqn:?
  | |- context [match ?c with Some _ => _ | None => _ end] => destruct c eqn:?
  end.

Section InsertionGuard.

Import Dom Page.
Open Scope Z_scope.












(** Two clicks before the next animation frame: once every queued
    callback has run, the guard is left raised. *)
Lemma overlapping_pager_clicks_leave_guard_raised :
  let w := Sample.page "hello" [] Sample.pager_of_three in
  let w1 := exec (pagerClick Pager.ClickNext) w in
  let w2 := exec (pagerClick Pager.ClickNext) w1 in
  let w4 := animationFrame (animationFrame w2) in
  frames w4 = [] /\ insertingEmbed (st w4) = true.
Proof. vm_compute. done. Qed.

End InsertionGuard.

(** ** The allow-list and the router *)

Section AllowList.

Import Dom Page Router.
Open Scope list_scope.

Variables (P : Element -> bool) (Q : Request -> bool).

Lemma Grows_same {A} (m : M World A) :
  (forall w, wraps (msg (exec m w)) = wraps (msg w)
             /\ outbox (exec m w) = outbox w) ->
  Grows P Q m.
Proof.
  intros H w. destruct (H w) as [-> ->]. exists [], [].
  by rewrite !app_nil_r.
Qed.

Lemma Grows_bind {A B} (m : M World A) (k : A -> M World B) :
  Grows P Q m -> (forall x, Grows P Q (k x)) -> Grows P Q (bind m k).
Proof.
  intros Hm Hk w. destruct (Hm w) as (e1 & r1 & H1 & H2 & H3 & H4).
  unfold exec, bind in *. destruct (m w) as [[x| |e] w1]; cbn in *.
  - destruct (Hk x w1) as (e2 & r2 & K1 & K2 & K3 & K4).
    unfold exec in K1, K3.
    exists (e1 ++ e2), (r1 ++ r2).
    rewrite K1, K3, H1, H3, !app_assoc, !forallb_app, H2, H4, K2, K4.
    done.
  - by exists e1, r1.
  - by exists e1, r1.
Qed.

Lemma Grows_when (c : bool) (m : M World unit) :
  (c = true -> Grows P Q m) -> Grows P Q (when c m).
Proof.
  intros H. destruct c; [by apply H|]. by apply Grows_same.
Qed.



Lemma Grows_gets {A} (f : World -> A) : Grows P Q (gets f).
Proof. by apply Grows_same. Qed.

Lemma Grows_skip : Grows P Q skip.
Proof. by apply Grows_same. Qed.

Lemma Grows_ret {A} (x : A) : Grows P Q (ret x).
Proof. by apply Grows_same. Qed.

Lemma Grows_return {A} : Grows P Q (@return_ World A).
Proof. by apply Grows_same. Qed.


Lemma Grows_fresh : Grows P Q fresh.
Proof. by apply Grows_same. Qed.

Lemma Grows_send m cb :
  Q {| rq_msg := m; rq_cb := cb |} = true ->
  Grows P Q (safeSendMessage m cb).
Proof.
  intros HQ w. exists [], [{| rq_msg := m; rq_cb := cb |}].
  cbn. by rewrite app_nil_r, HQ.
Qed.

Lemma maintainSticky_same stick x w :
  msg (exec (call (maintainStickyAfterAppend stick x)) w) = msg w
  /\ outbox (exec (call (maintainStickyAfterAppend stick x)) w) = outbox w.
Proof.
  unfold maintainStickyAfterAppend, doScroll, scrollToBottom,
    requestAnimationFrame, setTimeout, set_scrollTop, call, when, skip,
    bind, gets, modify, ret, return_, exec.
  destruct stick; cbn; [|done].
  destruct (stickyWanted (st w) || isAtBottom 2 w); done.
Qed.

Lemma safeAppendEmbed_msg x stick w :
  let w' := exec (safeAppendEmbed x stick) w in
  outbox w' = outbox w
  /\ wraps (msg w') = match appendFault (msg w) with
                      | Some _ => wraps (msg w)
                      | None => wraps (msg w) ++ [x]
                      end.
Proof. step_m. repeat (case_if; cbn); done. Qed.

Lemma Grows_safeAppendEmbed x stick :
  P (w_el x) = true -> Grows P Q (safeAppendEmbed x stick).
Proof.
  intros HP w. destruct (safeAppendEmbed_msg x stick w) as [Hout Hw].
  rewrite Hout, Hw. destruct (appendFault (msg w)).
  - exists [], []. by rewrite !app_nil_r.
  - exists [w_el x], []. cbn. by rewrite HP, map_app, app_nil_r.
Qed.

Lemma Grows_applySpoiler id force :
  Grows P Q (applySpoilerIfNeeded id force).
Proof.
  intros w. exists [], []. rewrite !app_nil_r.
  unfold applySpoilerIfNeeded, update_wrap, bind, gets, modify, exec.
  cbn. split; [|done]. rewrite map_map. apply map_ext.
  intros x. repeat (case_if; cbn); done.
Qed.

Lemma Grows_injectBelow id el origin sens :
  P el = true -> Grows P Q (injectBelow id el origin sens).
Proof.
  intros HP. unfold injectBelow.
  apply Grows_bind; [apply Grows_gets|intros stick].
  apply Grows_bind.
  { destruct el; try apply Grows_skip.
    destruct (Js.truthy src); [|apply Grows_skip].
    apply Grows_bind; [apply Grows_gets|intros dup].
    apply Grows_when. intros _. apply Grows_return. }
  intros _. apply Grows_bind; [|intros _; apply Grows_applySpoiler].
  by apply Grows_safeAppendEmbed.
Qed.

Lemma Grows_insertCard k a thumb :
  P (CARD k (a_url a) "Loading…" (Some thumb)) = true ->
  Grows P Q (insertCard k a thumb).
Proof.
  intros HP. unfold insertCard.
  apply Grows_bind; [apply Grows_fresh|intros id].
  apply Grows_bind; [apply Grows_gets|intros stick].
  apply Grows_bind; [by apply Grows_safeAppendEmbed|intros _].
  apply Grows_ret.
Qed.

End AllowList.

Section AllowListGate.

Import Dom Page Router.
Open Scope list_scope.







End AllowListGate.

(** ** Re-scanning a message *)

Section Rescan.

Import Dom Page Router.

(** C3. Scanning the same message node twice. The duplicate marker
    ([data-edgg-src]) is only set and looked up for [<img>] embeds, so it
    keeps a direct image at one card; a link card (here a Twitch channel)
    or a direct video is inserted again by the second scan, and the second
    scan also picks up the anchor of the card the first scan inserted. *)
Theorem rescan_inserts_duplicate_cards :
  let scan2 a :=
    exec maybeEmbedInNode
      (exec maybeEmbedInNode
         (Sample.page (a_href a) [a] Sample.no_pager)) in
  length (cards_linking (a_url Sample.a_twitch) (scan2 Sample.a_twitch))
  = 3%nat
  /\ length (cards_with_origin (a_href Sample.a_catbox)
              (scan2 Sample.a_catbox)) = 2%nat
  /\ length (cards_with_origin (a_href Sample.a_image)
              (scan2 Sample.a_image)) = 1%nat.
Proof. vm_compute. done. Qed.

End Rescan.

(** ** Mirror enrichment in the background worker *)

Section Enrichment.

Import Tweet Background.
Open Scope list_scope.

Lemma enrich_loop_spec (net : Mirror -> Fetched) (todo : list Mirror) :
  forall out fetched,
    let r := enrich_loop net todo out fetched in
    match List.find (yields net) todo with
    | Some m =>
        exists before after,
          todo = before ++ m :: after
          /\ forallb (fun m' => negb (yields net m')) before = true
          /\ r.2 = fetched ++ before ++ [m]
          /\ x_photos r.1 = x_photos out ++ dedup (mirror_scan net m).1
          /\ x_videos r.1
             = x_videos out ++ map mp4 (dedup (mirror_scan net m).2)
    | None =>
        r.2 = fetched ++ todo
        /\ x_photos r.1 = x_photos out /\ x_videos r.1 = x_videos out
    end.
Proof.
  induction todo as [|u rest IH]; intros out fetched; cbn [enrich_loop find].
  - by rewrite app_nil_r.
  - unfold yields at 1, yields_media, mirror_scan.
    destruct (net u) as [| | |j] eqn:Hu; cbn [negb orb].
    1-3: specialize (IH out (fetched ++ [u])); cbn zeta in IH;
      destruct (find (yields net) rest) as [m|];
      [ destruct IH as (before & after & -> & Hb & H1 & H2 & H3);
        exists (u :: before), after; cbn [forallb];
        unfold yields at 1, yields_media; rewrite Hu, Hb, H1, H2, H3;
        by rewrite <- app_assoc
      | destruct IH as (H1 & H2 & H3); rewrite H1, H2, H3;
        by rewrite <- app_assoc ].
    set (out1 := match mirror_text j with Some _ => _ | None => _ end).
    assert (Hp : x_photos out1 = x_photos out /\ x_videos out1 = x_videos out).
    { subst out1. destruct (mirror_text j); [|done]. by case_if. }
    destruct Hp as [Hp Hv].
    destruct (scan j) as [ps vs] eqn:Hscan. cbn [fst snd].
    destruct (negb (length ps =? 0)%nat || negb (length vs =? 0)%nat) eqn:Hy.
    + exists [], rest. cbn. rewrite Hu, Hscan, Hp, Hv. done.
    + specialize (IH out1 (fetched ++ [u])). cbn zeta in IH.
      destruct (find (yields net) rest) as [m|].
      * destruct IH as (before & after & -> & Hb & H1 & H2 & H3).
        exists (u :: before), after. cbn [forallb].
        unfold yields at 1, yields_media. rewrite Hu, Hscan. cbn [fst snd].
        rewrite Hy, Hb, H1, H2, H3, Hp, Hv. by rewrite <- app_assoc.
      * destruct IH as (H1 & H2 & H3). rewrite H1, H2, H3, Hp, Hv.
        by rewrite <- app_assoc.
Qed.

Lemma attach_oembed_text net d : text (attach_oembed net d) = text d.
Proof.
  unfold attach_oembed. repeat case_if; try done.
  all: destruct (oembed net); try done; by repeat case_if.
Qed.

(** C7. The mirror endpoints are fetched in the fixed order fxtwitter,
    api.vxtwitter, vxtwitter, and no further one once an endpoint has yielded
    a photo or video URL: its media are the enrichment. The enrichment's text
    replaces the text of the accepted widget-CDN result only when that text
    is blank (and the enrichment has media and a text of its own); a
    non-blank primary text is always kept. *)
Theorem mirrors_in_order_text_fills_gap :
  (forall (net : Mirror -> Fetched) (tid : string),
      let r := enrichFromFxVx net (Some tid) in
      match List.find (yields net) tryUrls with
      | Some m =>
          exists before after,
            tryUrls = before ++ m :: after
            /\ forallb (fun m' => negb (yields net m')) before = true
            /\ r.2 = before ++ [m]
            /\ x_photos r.1 = dedup (mirror_scan net m).1
            /\ x_videos r.1 = map mp4 (dedup (mirror_scan net m).2)
      | None => r.2 = tryUrls /\ has_media r.1 = false
      end)
  /\ (forall (net : Net) (id : option string) (data : Data),
        cdn_result net id = CdnOk data ->
        let primary := text (normalize data) in
        let extra := (enrichFromFxVx (mirror net) id).1 in
        exists d, fetchTweet net id = FromCdn d
          /\ text d = (if blank primary && has_media extra
                          && Js.truthy (x_text extra)
                       then x_text extra else primary)
          /\ (blank primary = false -> text d = primary)).
Proof.
  split.
  - intros net tid r. subst r. unfold enrichFromFxVx.
    pose proof (enrich_loop_spec net tryUrls no_extra []) as H.
    cbn zeta in H. destruct (find (yields net) tryUrls) as [m|].
    + destruct H as (before & after & H0 & Hb & H1 & H2 & H3).
      exists before, after. by rewrite H1, H2, H3.
    + destruct H as (H1 & H2 & H3). split; [done|].
      unfold has_media. by rewrite H2, H3.
  - intros net id data Hcdn primary extra. unfold fetchTweet. rewrite Hcdn.
    eexists. split; [reflexivity|]. rewrite attach_oembed_text.
    fold extra. unfold merge_extra. fold primary.
    destruct (has_media extra), (blank primary), (Js.truthy (x_text extra));
      cbn; done.
Qed.

(** When the widget CDN is not ok, a mirror result with media is sent as
    it is, text included. *)
Lemma mirror_only_response (net : Net) (id : option string) (status : Z) :
  cdn_result net id = CdnNotOk status ->
  has_media (enrichFromFxVx (mirror net) id).1 = true ->
  exists d, fetchTweet net id = FromVx d
            /\ text d = x_text (enrichFromFxVx (mirror net) id).1.
Proof.
  intros Hcdn Hm. unfold fetchTweet. rewrite Hcdn, Hm. by eexists.
Qed.

Lemma mirrors_in_order_text_fills_gap_witness :
  exists d, fetchTweet Sample.net_mirror_second (Some "1943717870245949733")
            = FromCdn d
    /\ text d = "hello from the mirror"
    /\ photos d
       = Some [url_photo "https://pbs.twimg.com/media/Gabc.jpg?name=orig"].
Proof.
  destruct (proj2 mirrors_in_order_text_fills_gap Sample.net_mirror_second
              (Some "1943717870245949733") Sample.cdn_without_text eq_refl)
    as (d & Hd & Ht & _).
  exists d. split; [exact Hd|].
  vm_compute in Hd. injection Hd as <-. vm_compute. done.
Defined.

End Enrichment.

(** ** Media caps of a tweet card *)

Section MediaCaps.

Import Tweet Page Render.
Open Scope list_scope.



Lemma filter_length_le {A} (P : A -> bool) (l : list A) :
  (length (List.filter P l) <= length l)%nat.
Proof.
  induction l as [|x l IH]; [done|]. cbn. destruct (P x); cbn; lia.
Qed.



End MediaCaps.

(** ** Live thumbnail refresh timers *)

Section ThumbTimers.

Import Thumb.
Open Scope Z_scope.

Lemma toInt32_small z : 0 <= z < 2 ^ 31 -> Js.toInt32 z = z.
Proof.
  intros Hz. unfold Js.toInt32.
  rewrite Z.mod_small; lia.
Qed.

Lemma fire_owned target id o s : owned id s -> owned id (fire target id o s).
Proof.
  intros Hown p. unfold fire.
  destruct (intervals s !! id) as [q|] eqn:Hq.
  - pose proof (Hown q Hq) as Hprop. unfold update.
    destruct (isConnected o); cbn.
    + destruct (inView o); cbn; [|by intros; eauto].
      destruct target; cbn; [by intros; eauto|].
      case_if; cbn; by intros; eauto.
    + rewrite Hprop. cbn. by rewrite lookup_delete_eq.
  - by rewrite Hq.
Qed.

Lemma run_owned target id obs : forall s,
  owned id s -> owned id (run target id obs s).
Proof.
  induction obs as [|o obs IH]; intros s Hs; [done|].
  cbn. apply IH. by apply fire_owned.
Qed.

(** C9. A refresher started on a thumbnail creates an interval whose period
    is [max(15000, periodMs | 0)], so at least 15 s, and 60 s with the
    default argument. Whenever the interval fires while the card is attached
    but off-screen, the image is left as it is and the interval stays live.
    When it fires after the element was detached, it clears itself, and
    from then on it never fires again: the state no longer changes. *)
Theorem thumb_refresh_timer (target : Target) (periodMs : Z) (o0 : Obs)
    (s0 : State) (obs : list Obs) :
  (match target with
   | BaseUrl b => Js.truthy b
   | TwitchChannel c => Js.truthy c
   end) = true ->
  intervals s0 !! nextTimer s0 = None ->
  let id := nextTimer s0 in
  let s1 := start target periodMs o0 s0 in
  let s := run target id obs s1 in
  (* the period *)
  intervals s1 !! id = Some (period_of periodMs)
  /\ 15000 <= period_of periodMs
  /\ period_of default_period = 60000
  (* off-screen: no refresh, the schedule goes on *)
  /\ (forall o, isConnected o = true -> inView o = false ->
        fire target id o s = s)
  (* detached: the timer cancels itself for good *)
  /\ (forall o, isConnected o = false ->
        let s' := fire target id o s in
        intervals s' !! id = None
        /\ src s' = src s /\ refreshes s' = refreshes s
        /\ forall later, run target id later s' = s').
Proof.
  intros Hgiven Hfresh id s1 s.
  assert (Hs1 : intervals s1 !! id = Some (period_of periodMs)
                /\ timerProp s1 = Some id).
  { subst s1. unfold start. rewrite Hgiven. cbn [negb].
    set (sa := clearInterval (timerProp s0) s0).
    assert (Hn : nextTimer (update target o0 sa) = nextTimer s0).
    { unfold update, sa, clearInterval, set_timerProp, set_src.
      repeat (case_if; cbn); try done; destruct target; cbn;
        repeat (case_if; cbn); done. }
    unfold setInterval. cbn. rewrite Hn. by rewrite lookup_insert_eq. }
  destruct Hs1 as [Hper Hprop].
  assert (Hown : owned id s).
  { apply run_owned. intros p _. exact Hprop. }
  split; [exact Hper|]. split; [unfold period_of; lia|].
  split; [reflexivity|]. split.
  - intros o Hc Hv. unfold fire, update. rewrite Hc, Hv. cbn.
    by destruct (intervals s !! id).
  - intros o Hc s'. subst s'. unfold fire, update.
    destruct (intervals s !! id) as [p|] eqn:Hlive.
    + rewrite Hc. cbn [negb]. rewrite (Hown p Hlive).
      cbn. rewrite lookup_delete_eq. repeat split; try done.
      intros later. induction later as [|o' later IH]; [done|].
      cbn [run fold_left]. unfold fire at 2. cbn.
      rewrite lookup_delete_eq. exact IH.
    + repeat split; try done.
      intros later. induction later as [|o' later IH]; [done|].
      cbn [run fold_left]. unfold fire at 2. rewrite Hlive. exact IH.
Qed.

Lemma thumb_refresh_timer_witness :
  let target := BaseUrl "https://i.ytimg.com/vi/abc/hqdefault_live.jpg" in
  let s1 := start target 60000 (Sample.on_screen 1000) Sample.fresh_thumb in
  let s := run target 1%nat
             [Sample.on_screen 61000; Sample.off_screen 121000] s1 in
  intervals s1 !! 1%nat = Some 60000
  /\ fire target 1%nat (Sample.off_screen 181000) s = s
  /\ intervals (fire target 1%nat (Sample.detached 181000) s) !! 1%nat = None.
Proof.
  pose proof (thumb_refresh_timer
                (BaseUrl "https://i.ytimg.com/vi/abc/hqdefault_live.jpg")
                60000 (Sample.on_screen 1000) Sample.fresh_thumb
                [Sample.on_screen 61000; Sample.off_screen 121000]
                eq_refl eq_refl) as (Hper & _ & _ & Hskip & Hcancel).
  split; [exact Hper|]. split.
  - apply Hskip; reflexivity.
  - apply (Hcancel (Sample.detached 181000)). reflexivity.
Defined.

End ThumbTimers.

(** ** Spoiler reveal *)

Section SpoilerReveal.

Import Spoiler.

(** A tweet card: activating any one cover reveals every medium of the
    group. *)
Lemma tweet_group_reveals_together :
  let d := Sample.covered_tweet_doc in
  blurred d = [31; 32; 33] /\ covers d = [41; 45; 49]
  /\ forall c, In c (covers d) ->
       blurred (activate Click c d) = []
       /\ covers (activate Click c d) = []
       /\ activate (KeyDown "Enter") c d = activate Click c d
       /\ activate (KeyDown " ") c d = activate Click c d.
Proof.
  split; [reflexivity|]. split; [reflexivity|].
  intros c Hc. vm_compute in Hc.
  destruct Hc as [<-|[<-|[<-|[]]]]; vm_compute; done.
Qed.

(** C6. The spoiler of a directly embedded image (the wrapper-style cover
    of [applySpoilerIfNeeded]): its listeners call [revealAllInTweet] on an
    image that has no [.edgg-tweet-media] ancestor, so activating the cover,
    by click or by any key, changes nothing. The image stays blurred and the
    cover stays in place. *)
Theorem wrapper_cover_reveals_nothing :
  let d := Sample.covered_image_doc in
  blurred d = [12] /\ covers d = [20]
  /\ forall ev, activate ev 20 d = d.
Proof.
  split; [reflexivity|]. split; [reflexivity|].
  intros [|k]; [reflexivity|].
  unfold activate.
  destruct ((k =? "Enter")%string || (k =? " ")%string); reflexivity.
Qed.

End SpoilerReveal.

(** ** Resolver callbacks *)

Section ResolverFailures.

Import Dom Tweet Page Router Resolver.
Open Scope list_scope.

Variable parseFromString : string -> HtmlDoc.
Variable JSON_parse : string -> option Background.Json.
Variable serializeQuery : list (string * string) -> string.
Variable oembedMarkup : string -> OembedMarkup.
Variable extractKickLiveTitle : string -> option string.
Variable textHtml_of : Data -> string -> string.
Variable links_in : string -> list (URL * string).
Variable render_fault : Data -> option JsError.

Lemma deliver_never_throws (cb : M World unit) (w : World) :
  outcome (deliver cb) w = Normal tt.
Proof.
  unfold deliver, outcome, try_catch, call, skip, ret.
  destruct (cb w) as [[[]| |e] w']; done.
Qed.

Lemma fallback_link_body (a : Anchor) (card : nat) (w : World) (b : TweetBody) :
  body_of card w = Some b ->
  body_of card (exec (fallback_link a card) w) = Some (LinkOnly (a_url a)).
Proof.
  unfold body_of, fallback_link, set_tweet_body, update_wrap, modify, exec.
  cbn. induction (wraps (msg w)) as [|x l IH]; [done|].
  cbn [List.find map]. destruct (w_id x =? card)%nat eqn:Hid.
  - destruct (w_el x) eqn:Hel; try done. intros _. cbn. by rewrite Hid.
  - rewrite Hid. exact IH.
Qed.

Lemma fallback_link_frame (a : Anchor) (card : nat) (w : World) :
  let w' := exec (fallback_link a card) w in
  map w_id (wraps (msg w')) = map w_id (wraps (msg w))
  /\ outbox w' = outbox w.
Proof.
  unfold fallback_link, set_tweet_body, update_wrap, modify, exec. cbn.
  split; [|done]. rewrite map_map. apply map_ext. intros x.
  destruct (w_id x =? card)%nat; [|done]. by destruct (w_el x).
Qed.

(** C4, as the code has it. No callback of a resolver lets an exception
    escape. A failed tweet resolution (no response, a response that is not
    ok or has no data, or an exception while rendering) turns the
    placeholder card into the minimal fallback, the original link alone. A
    failed Imgur or Reddit resolution (no usable response, a body that does
    not parse, no post in the payload) inserts nothing and requests
    nothing: the message is left as it was. *)
Theorem resolver_failures_degrade :
  (forall (cb : M World unit) (w : World),
      outcome (deliver cb) w = Normal tt)
  /\ (forall a card sens res w b,
        tweet_failed res = true ->
        body_of card w = Some b ->
        let w' := exec (deliver (onTweetData oembedMarkup textHtml_of
                                   links_in render_fault a card sens res)) w in
        body_of card w' = Some (LinkOnly (a_url a))
        /\ map w_id (wraps (msg w')) = map w_id (wraps (msg w))
        /\ outbox w' = outbox w)
  /\ (forall a card sens r d e w b,
        t_ok r = true -> t_data r = Some d -> t_source r <> "oembed" ->
        render_fault d = Some e ->
        body_of card w = Some b ->
        let w' := exec (deliver (onTweetData oembedMarkup textHtml_of
                                   links_in render_fault a card sens
                                   (Some r))) w in
        body_of card w' = Some (LinkOnly (a_url a))
        /\ map w_id (wraps (msg w')) = map w_id (wraps (msg w))
        /\ outbox w' = outbox w)
  /\ (forall origin sens res w,
        usable res = false ->
        exec (deliver (onImgurPage parseFromString origin sens res)) w = w)
  /\ (forall origin sens res w,
        usable res = false
        \/ JSON_parse (default "" (body <$> res)) = None
        \/ (exists json, JSON_parse (default "" (body <$> res)) = Some json
                         /\ reddit_post json = None) ->
        exec (deliver (onRedditJson JSON_parse serializeQuery origin sens
                         res)) w = w).
Proof.
  split; [apply deliver_never_throws|]. split; [|split; [|split]].
  - intros a card sens res w b Hfail Hb w'.
    assert (Hw : w' = exec (fallback_link a card) w).
    { subst w'. unfold deliver, onTweetData, exec, try_catch, call, when, bind,
        return_. rewrite Hfail.
      by destruct (fallback_link a card w) as [[[]| |e] w1]. }
    rewrite Hw. split; [by eapply fallback_link_body|].
    apply fallback_link_frame.
  - intros a card sens r d e w b Hok Hd Hsrc Hfault Hb w'.
    assert (Hw : w' = exec (fallback_link a card) w).
    { subst w'.
      unfold deliver, onTweetData, tweet_failed, exec, try_catch, call, when,
        bind, return_, skip, ret.
      rewrite Hok, Hd. cbn.
      assert (Hs : (t_source r =? "oembed")%string = false)
        by by apply String.eqb_neq.
      rewrite Hs. cbn.
      unfold renderTweetInto, bind, gets, throw. rewrite Hfault. cbn.
      by destruct (fallback_link a card w) as [[[]| |e'] w1]. }
    rewrite Hw. split; [by eapply fallback_link_body|].
    apply fallback_link_frame.
  - intros origin sens res w Hres.
    unfold deliver, onImgurPage, exec, try_catch, call, when, bind, return_.
    by rewrite Hres.
  - intros origin sens res w H.
    unfold deliver, onRedditJson, exec, try_catch, call, when, bind, return_,
      skip, ret, throw.
    destruct (usable res); cbn; [|done].
    destruct H as [H|[H|(json & H & Hpost)]]; [done| |]; rewrite H; cbn;
      [done|]. by rewrite Hpost.
Qed.

(** C10. In the callback of a Kick card the guard of the auto-refresh
    reads [wasLive], a name that no enclosing scope declares: evaluating the
    guard throws a [ReferenceError], whatever the response was. The
    callback's own [catch] swallows it, so the callback ends normally,
    [startThumbAutoRefresh] is never called, and the card keeps the title
    and the thumbnail that were assigned before the guard. *)
Theorem kick_guard_throws_reference_error :
  forall (kChan : option string) (card : nat) (res : option PageRes)
         (w : World),
    let meta := kick_meta parseFromString extractKickLiveTitle kChan res in
    let run := onKickPage parseFromString extractKickLiveTitle kChan card res in
    (forall w', outcome (kick_guard meta.2) w'
                = Thrown (ReferenceError "wasLive"))
    /\ outcome run w = Normal tt
    /\ exec run w = exec (set_card card meta.1 meta.2) w
    /\ refreshers (exec run w) = refreshers w.
Proof.
  intros kChan card res w meta run.
  assert (Hguard : forall w', kick_guard meta.2 w'
                              = (Thrown (ReferenceError "wasLive"), w')).
  { intros w'. reflexivity. }
  split; [intros w'; unfold outcome; by rewrite Hguard|].
  subst run. unfold onKickPage. fold meta. destruct meta as [title image].
  cbn [fst snd] in *.
  assert (Hset : set_card card title image w
                 = (Normal tt, exec (set_card card title image) w))
    by reflexivity.
  unfold outcome, exec at 1 3, try_catch, bind.
  rewrite Hset, !Hguard. cbn [fst snd]. repeat split; reflexivity.
Qed.

End ResolverFailures.

Lemma resolver_failures_degrade_witness :
  let w := exec (Router.tryEmbed Sample.a_tweet)
             (Sample.page "look" [Sample.a_tweet] Sample.no_pager) in
  let cb := Resolver.onTweetData
              (fun _ => {| Resolver.bq_found := false;
                           Resolver.p_innerHTML := "";
                           Resolver.bq_anchors := [] |})
              (fun _ prev => prev) (fun _ => []) (fun _ => None)
              Sample.a_tweet 100 None None in
  let w' := exec (Resolver.deliver cb) w in
  Resolver.body_of 100 w' = Some (Page.LinkOnly (Dom.a_url Sample.a_tweet))
  /\ map Page.w_id (Page.wraps (Page.msg w'))
     = map Page.w_id (Page.wraps (Page.msg w))
  /\ Page.outbox w' = Page.outbox w.
Proof.
  refine (proj1 (proj2 (resolver_failures_degrade
                          Sample.no_metadata (fun _ => None) (fun _ => "")
                          _ _ _ _))
            Sample.a_tweet 100%nat None None _ Page.LoadingTweet _ _);
    reflexivity.
Defined.

(** C4 as stated fails: when the page of an Imgur link cannot be fetched,
    the callback returns at once. No fallback card is inserted. *)
Lemma imgur_failure_inserts_no_card :
  let w := Sample.page "https://imgur.com/a/Vxl95hq" [Sample.a_imgur]
             Sample.no_pager in
  let w1 := exec (Router.tryEmbed Sample.a_imgur) w in
  let w2 := exec (Resolver.deliver
                    (Resolver.onImgurPage Sample.no_metadata
                       (Dom.a_url Sample.a_imgur) None None)) w1 in
  map Page.rq_cb (Page.outbox w1)
  = [Page.OnImgurPage (Dom.a_url Sample.a_imgur) None]
  /\ Page.wraps (Page.msg w2) = [].
Proof. vm_compute. done. Qed.

(** * Further properties of the code *)

(** ** Strings and the pure helpers *)

Section Helpers.

Import Dom.
Open Scope list_scope.

Lemma all_chars_app (P : ascii -> bool) (s t : string) :
  Js.all_chars P (s +:+ t) = Js.all_chars P s && Js.all_chars P t.
Proof.
  induction s as [|c s IH]; [done|]. simpl. by rewrite IH, andb_assoc.
Qed.

Lemma takeWhile_all (P : ascii -> bool) (s : string) :
  Js.all_chars P (Js.takeWhile P s) = true.
Proof.
  induction s as [|c s IH]; [done|]. cbn.
  destruct (P c) eqn:E; [|done]. cbn. by rewrite E, IH.
Qed.

Lemma capture_after_eq (p : string) (cls : ascii -> bool) (s : string) :
  Js.capture_after p cls s
  = match (if String.prefix p s
           then let r := Js.takeWhile cls (Js.drop (String.length p) s) in
                if Js.truthy r then Some r else None
           else None) with
    | Some r => Some r
    | None => match s with
              | EmptyString => None
              | String _ t => Js.capture_after p cls t
              end
    end.
Proof. by destruct s. Qed.

Lemma search_eq (P : string -> bool) (s : string) :
  Js.search P s = P s || match s with
                         | EmptyString => false
                         | String _ t => Js.search P t
                         end.
Proof. by destruct s. Qed.

Lemma capture_after_shape (p : string) (cls : ascii -> bool) (s r : string) :
  Js.capture_after p cls s = Some r ->
  Js.truthy r = true /\ Js.all_chars cls r = true.
Proof.
  induction s as [|c s IH]; rewrite capture_after_eq; cbv zeta;
    destruct (String.prefix p _); try done;
    destruct (Js.truthy (Js.takeWhile cls _)) eqn:E; try done;
    intros [= <-]; (split; [done|apply takeWhile_all]).
Qed.

(** An unanchored [/p(c+)/] matches where [/pc/] does. *)
Lemma capture_after_search (p : string) (cls : ascii -> bool) (s : string) :
  Router.is_some (Js.capture_after p cls s)
  = Js.search (Js.lit p (fun r => match r with
                                  | EmptyString => false
                                  | String c _ => cls c
                                  end)) s.
Proof.
  assert (Hhead : forall x, Js.truthy (Js.takeWhile cls x)
                            = match x with
                              | EmptyString => false
                              | String c _ => cls c
                              end).
  { intros [|c x]; [done|]. cbn. by destruct (cls c). }
  induction s as [|c s IH]; rewrite capture_after_eq, search_eq;
    unfold Js.lit; cbv zeta; rewrite Hhead;
    destruct (String.prefix p _); try done;
    destruct (Js.drop _ _) as [|d x]; try done;
    destruct (cls d); done.
Qed.

Lemma prefix_split (p s : string) :
  String.prefix p s = true -> exists r, s = p +:+ r.
Proof.
  revert s. induction p as [|c p IH]; intros s H; [by exists s|].
  destruct s as [|d s]; [done|]. cbn in H.
  destruct (Ascii.ascii_dec c d) as [->|]; [|done].
  destruct (IH s H) as [r ->]. by exists r.
Qed.

Lemma search_lit_app (p : string) (k : string -> bool) (pre r : string) :
  k r = true -> Js.search (Js.lit p k) (pre +:+ p +:+ r) = true.
Proof.
  intros Hk. induction pre as [|c pre IH]; rewrite search_eq.
  - unfold Js.lit.
    assert (Hp : String.prefix p (p +:+ r) = true).
    { clear. induction p as [|c p IH]; simpl; [by destruct r|].
      by destruct (Ascii.ascii_dec c c). }
    assert (Hd : Js.drop (String.length p) (p +:+ r) = r).
    { clear. induction p as [|c p IH]; simpl; [done|done]. }
    change ("" +:+ p +:+ r) with (p +:+ r). by rewrite Hp, Hd, Hk.
  - change (String c pre +:+ p +:+ r) with (String c (pre +:+ p +:+ r)).
    cbv beta iota. rewrite IH. apply orb_true_r.
Qed.

(** X1. [escapeHtml] leaves none of [<], [>], the double quote and the
    apostrophe in its result, whatever the input; a string without any of
    the five characters it replaces is returned as it is. *)
Theorem escapeHtml_output_is_inert (s : string) :
  Js.all_chars (fun c => negb (Js.mem_char c ("<>'" +:+ Js.dq)))
    (Js.escapeHtml s) = true
  /\ (Js.all_chars (fun c => negb (html_special c)) s = true ->
      Js.escapeHtml s = s).
Proof.
  split.
  - induction s as [|c s IH]; [done|].
    cbn [Js.escapeHtml]. rewrite all_chars_app, IH, andb_true_r.
    destruct c as [[] [] [] [] [] [] [] []]; reflexivity.
  - induction s as [|c s IH]; [done|].
    cbn [Js.escapeHtml Js.all_chars]. intros H.
    apply andb_true_iff in H as [Hc Hs]. rewrite (IH Hs).
    destruct c as [[] [] [] [] [] [] [] []]; try reflexivity;
      discriminate Hc.
Qed.

Lemma escapeHtml_output_is_inert_witness :
  Js.escapeHtml "Open on Twitter" = "Open on Twitter".
Proof.
  apply (proj2 (escapeHtml_output_is_inert "Open on Twitter")). reflexivity.
Defined.

Lemma twitch_hash_capture_shape (s c : string) :
  twitch_hash_capture s = Some c ->
  Js.truthy c = true /\ Js.all_chars Js.is_word c = true.
Proof.
  unfold twitch_hash_capture. destruct (String.prefix _ _); [|done].
  destruct (Js.truthy _) eqn:E; [|done]. intros [= <-].
  split; [done|apply takeWhile_all].
Qed.

(** X2. The channel that [extractDggBigscreenTwitch] takes from a link's
    hash or from its text is never empty and consists of letters, digits
    and underscores only. *)
Theorem bigscreen_channel_is_a_word (u : URL) (linkText c : string) :
  extractDggBigscreenTwitch u linkText = Some c ->
  Js.truthy c = true /\ Js.all_chars Js.is_word c = true.
Proof.
  unfold extractDggBigscreenTwitch. cbv zeta.
  destruct (_ && Js.truthy (hash u)).
  - destruct (twitch_hash_capture (hash u)) as [c0|] eqn:E1.
    + intros [= <-]. by eapply twitch_hash_capture_shape.
    + destruct (Js.is_empty _); [done|].
      destruct (twitch_hash_capture (Js.trim linkText)) as [c1|] eqn:E2;
        [|done].
      destruct (String.eqb _ _); [|done]. intros [= <-].
      by eapply twitch_hash_capture_shape.
  - destruct (Js.is_empty _); [done|].
    destruct (twitch_hash_capture (Js.trim linkText)) as [c1|] eqn:E2;
      [|done].
    destruct (String.eqb _ _); [|done]. intros [= <-].
    by eapply twitch_hash_capture_shape.
Qed.

Lemma bigscreen_channel_is_a_word_witness :
  Js.truthy "xqc" = true /\ Js.all_chars Js.is_word "xqc" = true.
Proof.
  apply (bigscreen_channel_is_a_word (Dom.a_url Sample.a_text_twitch)
           "  #twitch/xqc " "xqc").
  reflexivity.
Defined.

Lemma mem_char_snoc (sep c : ascii) (cur : string) :
  Js.mem_char sep (cur +:+ String c EmptyString)
  = Js.mem_char sep cur || Ascii.eqb sep c.
Proof.
  induction cur as [|d cur IH]; simpl; [by rewrite orb_false_r|].
  by rewrite IH, orb_assoc.
Qed.

Lemma split_aux_clean (sep : ascii) (s : string) : forall cur,
  Js.mem_char sep cur = false ->
  Forall (fun p => Js.mem_char sep p = false) (Js.split_aux sep s cur).
Proof.
  induction s as [|c s IH]; intros cur Hcur; cbn [Js.split_aux].
  - by constructor.
  - destruct (Ascii.eqb c sep) eqn:E.
    + constructor; [done|]. by apply IH.
    + apply IH. rewrite mem_char_snoc, Hcur. cbn.
      by rewrite Ascii.eqb_sym.
Qed.

Lemma parts_shape (sep : ascii) (s x : string) :
  In x (Js.parts sep s) ->
  Js.truthy x = true /\ Js.mem_char sep x = false.
Proof.
  unfold Js.parts, Js.split. intros H. apply filter_In in H as [Hin Ht].
  split; [done|].
  pose proof (split_aux_clean sep s EmptyString eq_refl) as Hall.
  rewrite List.Forall_forall in Hall. by apply Hall.
Qed.

(** X3. [extractTwitch] and [extractKick] never return a channel and a
    video together; whatever they return is a non-empty segment of the
    path without a slash, and a video id is only returned for a path whose
    first segment is [videos] (for Kick also [video]). *)
Theorem stream_targets_are_path_segments (u : URL) :
  let segs := Js.parts "/" (pathname u) in
  let seg x := In x segs /\ Js.truthy x = true
               /\ Js.mem_char "/" x = false in
  (forall c v, extractTwitch u = (c, v) ->
      (c = None \/ v = None)
      /\ (forall x, c = Some x -> seg x)
      /\ (forall x, v = Some x -> seg x /\ head segs = Some "videos"))
  /\ (forall c v, extractKick u = (c, v) ->
        (c = None \/ v = None)
        /\ (forall x, c = Some x -> seg x)
        /\ (forall x, v = Some x ->
              seg x /\ (head segs = Some "video"
                        \/ head segs = Some "videos"))).
Proof.
  intros segs seg.
  assert (Hseg : forall x, In x segs -> seg x).
  { intros x Hx. split; [done|]. by apply (parts_shape "/" (pathname u)). }
  assert (Hc : forall p0 rest (c v : option string),
             segs = p0 :: rest -> (c, v) = (Some p0, None) ->
             forall alt : Prop,
             (c = None \/ v = None)
             /\ (forall x, c = Some x -> seg x)
             /\ (forall x, v = Some x -> seg x /\ alt)).
  { intros p0 rest c v Hs [= -> ->] alt.
    split; [by right|]. split; [|done].
    intros x [= <-]. apply Hseg. rewrite Hs. by left. }
  assert (Hv : forall p0 p1 rest (c v : option string),
             segs = p0 :: p1 :: rest -> (c, v) = (None, Some p1) ->
             forall alt : Prop, alt ->
             (c = None \/ v = None)
             /\ (forall x, c = Some x -> seg x)
             /\ (forall x, v = Some x -> seg x /\ alt)).
  { intros p0 p1 rest c v Hs [= -> ->] alt Halt.
    split; [by left|]. split; [done|].
    intros x [= <-]. split; [|done]. apply Hseg. rewrite Hs.
    right. by left. }
  unfold extractTwitch, extractKick. fold segs.
  destruct segs as [|p0 [|p1 rest]] eqn:Hs.
  - split; intros c v [= <- <-]; (split; [by left|done]).
  - split; intros c v Hcv; symmetry in Hcv; by eapply Hc.
  - split; intros c v Hcv; symmetry in Hcv.
    + destruct (String.eqb p0 "videos") eqn:E; [|by eapply Hc].
      apply String.eqb_eq in E as ->. by eapply Hv.
    + destruct (String.eqb p0 "video") eqn:E1;
        [|destruct (String.eqb p0 "videos") eqn:E2];
        cbn [orb] in Hcv; [| |by eapply Hc].
      * apply String.eqb_eq in E1 as ->. eapply Hv; [done|done|by left].
      * apply String.eqb_eq in E2 as ->. eapply Hv; [done|done|by right].
Qed.

Lemma stream_targets_are_path_segments_witness :
  In "xqc" (Js.parts "/" "/xqc") /\ Js.truthy "xqc" = true
  /\ Js.mem_char "/" "xqc" = false.
Proof.
  apply (proj1 (proj2 (proj1 (stream_targets_are_path_segments
                                (Dom.a_url Sample.a_twitch))
                         (Some "xqc") None eq_refl)) "xqc" eq_refl).
Defined.

Lemma deep_status_has_status (k : string -> bool) (s : string) :
  Js.search (Js.lit "/i/web/status/" k) s = true ->
  Js.search (Js.lit "/status/" k) s = true.
Proof.
  induction s as [|c s IH]; intros H.
  - cbn in H. done.
  - rewrite search_eq in H. apply orb_true_iff in H as [H|H].
    + unfold Js.lit in H.
      destruct (String.prefix "/i/web/status/" (String c s)) eqn:Hp;
        [|done].
      apply prefix_split in Hp as [r Hr]. rewrite Hr in H |- *.
      change (Js.drop _ _) with r in H.
      exact (search_lit_app "/status/" k "/i/web" r H).
    + rewrite search_eq, (IH H). apply orb_true_r.
Qed.

(** X4. The worker's [extractTweetId] and the router's tweet test agree on
    every path: the router's [/status/<digits>] test succeeds exactly when
    the worker finds an id. The id is the digits after the first
    [/status/] that has some (the [/i/web/status/] alternative never adds
    a match), so it is never empty and holds digits only. *)
Theorem tweet_id_matches_router_test (path : string) :
  status_path path = Router.is_some (Worker.tweet_id_in path)
  /\ Worker.tweet_id_in path = Js.capture_after "/status/" Js.is_digit path
  /\ (forall id, Worker.tweet_id_in path = Some id ->
        Js.truthy id = true /\ Js.all_chars Js.is_digit id = true).
Proof.
  assert (H2 : Worker.tweet_id_in path
               = Js.capture_after "/status/" Js.is_digit path).
  { unfold Worker.tweet_id_in.
    destruct (Js.capture_after "/status/" _ _) eqn:EA; [done|].
    destruct (Js.capture_after "/i/web/status/" _ _) eqn:EB; [|done].
    pose proof (capture_after_search "/i/web/status/" Js.is_digit path) as HB.
    pose proof (capture_after_search "/status/" Js.is_digit path) as HA.
    rewrite EB in HB. rewrite EA in HA. cbn in HA, HB.
    symmetry in HB. apply deep_status_has_status in HB. congruence. }
  split; [|split; [exact H2|]].
  - rewrite H2, capture_after_search. unfold status_path.
    change Js.digits1 with (fun r => match r with
                                     | EmptyString => false
                                     | String c _ => Js.is_digit c
                                     end).
    destruct (Js.search (Js.lit "/status/" _) path) eqn:E; [done|].
    cbn [orb].
    destruct (Js.search (Js.lit "/i/web/status/" _) path) eqn:E'; [|done].
    apply deep_status_has_status in E'. congruence.
  - intros id Hid. rewrite H2 in Hid. by eapply capture_after_shape.
Qed.

Lemma tweet_id_matches_router_test_witness :
  Js.truthy "1943717870245949733" = true
  /\ Js.all_chars Js.is_digit "1943717870245949733" = true.
Proof.
  apply (proj2 (proj2 (tweet_id_matches_router_test
                         "/TheOmniLiberal/status/1943717870245949733"))).
  reflexivity.
Defined.

End Helpers.

(** ** Scrolling *)

Section Scrolling.

Import Dom Page.
Open Scope Z_scope.
Open Scope list_scope.

(** X5. After [scrollToBottom] the scroller is at the bottom for
    [isAtBottom], whatever the threshold (the code uses 32 and 2), also
    when the content is shorter than the viewport. *)
Theorem scrollToBottom_reaches_bottom (w : World) (threshold : Z) :
  0 <= clientHeight (scroller w) -> 0 <= threshold ->
  isAtBottom threshold (exec scrollToBottom w) = true.
Proof.
  intros Hc Ht. unfold isAtBottom. step_m. lia.
Qed.

Lemma scrollToBottom_reaches_bottom_witness :
  isAtBottom 2 (exec scrollToBottom (Sample.page "hello" [] Sample.no_pager))
  = true.
Proof.
  apply scrollToBottom_reaches_bottom; cbn; lia.
Defined.

(** X6. [safeAppendEmbed] and the sticky scroll. Called with
    [shouldStick] false it leaves the scroll position alone and queues
    nothing. Called with [shouldStick] true while the sticky intent is
    set, it leaves the chat at the very bottom once the wrapper is in, and
    queues one animation-frame correction, corrections after 50, 150, 300
    and 800 ms, a load listener per media element of the wrapper, and a
    resize observer that is disconnected after 2 s. In both cases the
    sticky intent itself is as before, also when [appendChild] throws. *)
Theorem append_pins_or_leaves_alone (w : World) (x : Wrap) :
  (forall stick,
      stickyWanted (st (exec (safeAppendEmbed x stick) w))
      = stickyWanted (st w))
  /\ (let w' := exec (safeAppendEmbed x false) w in
      scrollTop (scroller w') = scrollTop (scroller w)
      /\ queued w' = queued w)
  /\ (appendFault (msg w) = None -> stickyWanted (st w) = true ->
      0 <= clientHeight (scroller w) ->
      let w' := exec (safeAppendEmbed x true) w in
      isAtBottom 0 w' = true
      /\ queued w'
         = (frames w ++ [DoScroll],
            timeouts w ++ [(50, DoScroll); (150, DoScroll); (300, DoScroll);
                           (800, DoScrollIfSticky);
                           (2000, DisconnectObserver (w_id x))],
            loadListeners w
              ++ repeat (w_id x, DoScroll) (media_count (w_el x)),
            observers w ++ [(w_id x, DoScrollIfSticky)])).
Proof.
  split; [|split].
  - intros stick. step_m. destruct stick; repeat (case_if; cbn); done.
  - step_m. repeat (case_if; cbn); done.
  - intros Hf Hs Hc. unfold isAtBottom, queued. step_m.
    rewrite Hf, Hs. cbn -[Z.add Z.sub Z.max Z.min Z.leb repeat].
    rewrite <- !app_assoc. split; [lia|done].
Qed.

Lemma append_pins_or_leaves_alone_witness :
  let w := with_st (fun s => {| settings := settings s;
                                stickyWanted := true;
                                insertingEmbed := insertingEmbed s |})
             (Sample.page "hello" [] Sample.no_pager) in
  let x := {| w_id := 7; w_origin := None; w_sensitivity := None;
              w_el := IMG "https://i.imgur.com/abc.png";
              w_dataSrc := None; w_link := None; w_cover := false |} in
  isAtBottom 0 (exec (safeAppendEmbed x true) w) = true.
Proof.
  intros w x.
  apply (proj2 (proj2 (append_pins_or_leaves_alone w x))); cbn; [done..|lia].
Defined.

Lemma same_range_refl w : same_range w w.
Proof. done. Qed.









End Scrolling.

(** ** What a statement keeps *)

Section KeepsRules.

Import Dom Page Router.
Open Scope list_scope.

Context (R : World -> World -> Prop) `{!PreOrder R}.

Lemma Keeps_pure {A} (m : M World A) :
  (forall w, exec m w = w) -> Keeps R m.
Proof. intros H w. by rewrite H. Qed.

Lemma Keeps_bind {A B} (m : M World A) (k : A -> M World B) :
  Keeps R m -> (forall x, Keeps R (k x)) -> Keeps R (bind m k).
Proof.
  intros Hm Hk w. specialize (Hm w). unfold exec, bind in *.
  destruct (m w) as [[x| |e] w1]; cbn in *; try done.
  etrans; [exact Hm|]. apply Hk.
Qed.

Lemma Keeps_when (c : bool) (m : M World unit) :
  Keeps R m -> Keeps R (when c m).
Proof. intros H. destruct c; [done|]. by apply Keeps_pure. Qed.

Lemma Keeps_call (m : M World unit) : Keeps R m -> Keeps R (call m).
Proof.
  intros H w. specialize (H w). unfold exec, call in *.
  by destruct (m w) as [[x| |e] w1].
Qed.

Lemma Keeps_try_catch (m : M World unit) (h : JsError -> M World unit) :
  Keeps R m -> (forall e, Keeps R (h e)) -> Keeps R (try_catch m h).
Proof.
  intros Hm Hh w. specialize (Hm w). unfold exec, try_catch in *.
  destruct (m w) as [[x| |e] w1]; cbn in *; try done.
  etrans; [exact Hm|]. apply Hh.
Qed.

Lemma Keeps_forEach {A} (l : list A) (f : A -> M World unit) :
  (forall x, Keeps R (f x)) -> Keeps R (forEach l f).
Proof.
  intros Hf. induction l as [|x l IH]; cbn [forEach].
  - by apply Keeps_pure.
  - apply Keeps_bind; [by apply Keeps_call|done].
Qed.

End KeepsRules.

#[global] Instance same_intent_preorder : PreOrder same_intent.
Proof.
  split.
  - by intros w.
  - intros w1 w2 w3 (A1 & A2 & A3) (B1 & B2 & B3).
    repeat split; try congruence. auto.
Qed.

#[global] Instance no_scroll_preorder : PreOrder no_scroll.
Proof.
  split.
  - by intros w.
  - intros w1 w2 w3 (A1 & A2) (B1 & B2). split; [congruence|].
    intros H. destruct (A2 H) as [A3 A4].
    destruct B2 as [B3 B4]; [congruence|]. split; congruence.
Qed.

#[global] Instance distinct_srcs_preorder : PreOrder distinct_srcs.
Proof.
  split.
  - intros w H. exact H.
  - intros w1 w2 w3 A B H. auto.
Qed.

#[global] Instance scan_relation_preorder : PreOrder scan_relation.
Proof.
  split.
  - intros w. split; [|split]; reflexivity.
  - intros w1 w2 w3 (A1 & A2 & A3) (B1 & B2 & B3).
    split; [|split]; by trans w2.
Qed.

Section ScanKeeps.

Import Dom Page Router.
Open Scope list_scope.

(** A statement that touches neither the state, nor the scroller and its
    queues, nor the wrappers and the visibility of the message. *)
Lemma scan_relation_frame (w w' : World) :
  st w' = st w -> scroller w' = scroller w -> queued w' = queued w ->
  wraps (msg w') = wraps (msg w) ->
  linkInView (msg w') = linkInView (msg w) ->
  scan_relation w w'.
Proof.
  intros H1 H2 H3 H4 H5.
  unfold scan_relation, same_intent, no_scroll, distinct_srcs, data_srcs.
  rewrite H1, H2, H3, H4, H5. done.
Qed.

Lemma sr_send m cb : Keeps scan_relation (safeSendMessage m cb).
Proof. intros w. by apply scan_relation_frame. Qed.

Lemma sr_fresh : Keeps scan_relation fresh.
Proof. intros w. by apply scan_relation_frame. Qed.

Lemma sr_modify_msg (f : Message -> Message) :
  (forall m, wraps (f m) = wraps m /\ linkInView (f m) = linkInView m) ->
  Keeps scan_relation (modify (with_msg f)).
Proof.
  intros H w. destruct (H (msg w)). by apply scan_relation_frame.
Qed.

Lemma has_data_src_spec (d : string) (m : Message) :
  has_data_src d m = false -> d ∉ omap w_dataSrc (wraps m).
Proof.
  unfold has_data_src. induction (wraps m) as [|x l IH]; cbn.
  - intros _. apply not_elem_of_nil.
  - destruct (w_dataSrc x) as [s|] eqn:E; cbn.
    + intros H. apply orb_false_iff in H as [H1 H2].
      apply not_elem_of_cons. split; [|by apply IH].
      apply String.eqb_neq in H1. congruence.
    + exact IH.
Qed.

Lemma omap_dataSrc_update (id : nat) (f : Wrap -> Wrap) (l : list Wrap) :
  (forall x, w_dataSrc (f x) = w_dataSrc x) ->
  omap w_dataSrc (map (fun x => if Nat.eqb (w_id x) id then f x else x) l)
  = omap w_dataSrc l.
Proof.
  intros Hf. induction l as [|x l IH]; [done|]. cbn.
  rewrite IH. destruct (Nat.eqb (w_id x) id); by rewrite ?Hf.
Qed.

Lemma sr_safeAppendEmbed (x : Wrap) (stick : bool) (w : World) :
  (linkInView (msg w) = false -> stick = false) ->
  (forall d, w_dataSrc x = Some d -> has_data_src d (msg w) = false) ->
  scan_relation w (exec (safeAppendEmbed x stick) w).
Proof.
  intros Hstick Hsrc. split; [|split].
  - unfold same_intent. step_m. destruct stick; repeat (case_if; cbn); done.
  - unfold no_scroll, queued. step_m.
    destruct (linkInView (msg w)) eqn:Hv.
    + split; [repeat (case_if; cbn); done|done].
    + rewrite (Hstick eq_refl). repeat (case_if; cbn); done.
  - unfold distinct_srcs, data_srcs. intros Hnd.
    destruct (safeAppendEmbed_msg x stick w) as [_ ->].
    destruct (appendFault (msg w)); [done|].
    rewrite omap_app. cbn. destruct (w_dataSrc x) as [d|] eqn:E; cbn.
    + apply NoDup_app. split; [done|]. split; [|apply NoDup_singleton].
      intros y Hy Hy'. apply list_elem_of_singleton in Hy' as ->.
      by apply (has_data_src_spec d (msg w) (Hsrc d eq_refl)).
    + by rewrite app_nil_r.
Qed.

Lemma sr_applySpoiler (id : nat) (force : bool) :
  Keeps scan_relation (Router.applySpoilerIfNeeded id force).
Proof.
  intros w.
  unfold scan_relation, same_intent, no_scroll, distinct_srcs, data_srcs,
    queued, Router.applySpoilerIfNeeded, update_wrap, bind, gets, modify,
    exec.
  cbn. rewrite omap_dataSrc_update; [done|].
  intros x. repeat (case_if; cbn); done.
Qed.

Lemma exec_bind {A B} (m : M World A) (k : A -> M World B) (w : World) :
  exec (bind m k) w = match outcome m w with
                      | Normal x => exec (k x) (exec m w)
                      | _ => exec m w
                      end.
Proof. unfold exec, outcome, bind. by destruct (m w) as [[x| |e] w1]. Qed.

Lemma exec_gets_bind {A B} (f : World -> A) (k : A -> M World B)
    (w : World) :
  exec (bind (gets f) k) w = exec (k (f w)) w.
Proof. done. Qed.

Lemma sr_injectBelow id el origin sens :
  Keeps scan_relation (injectBelow id el origin sens).
Proof.
  intros w. unfold injectBelow.
  set (dataUrl := match el with
                  | IMG src => if Js.truthy src then Some src else None
                  | _ => None
                  end).
  set (wrap := {| w_id := id; w_origin := _; w_sensitivity := sens;
                  w_el := el; w_dataSrc := dataUrl; w_link := _;
                  w_cover := false |}).
  rewrite exec_gets_bind. cbv beta.
  assert (Hstick : linkInView (msg w) = false -> shouldStick_now w = false).
  { intros H. unfold shouldStick_now. by rewrite H. }
  rewrite exec_bind.
  destruct (match dataUrl with
            | Some d => has_data_src d (msg w)
            | None => false
            end) eqn:Hdup.
  - (* a wrapper with this source is there already *)
    destruct dataUrl as [d|]; [|done].
    unfold exec, outcome, bind, gets, when, return_. cbn. rewrite Hdup.
    reflexivity.
  - assert (Hsrc : forall d, w_dataSrc wrap = Some d ->
                             has_data_src d (msg w) = false).
    { intros d Hd. cbn in Hd. rewrite Hd in Hdup. exact Hdup. }
    pose proof (sr_safeAppendEmbed wrap (shouldStick_now w) w Hstick Hsrc)
      as Happ.
    assert (Hpass :
      forall m : M World unit,
        (m = match dataUrl with
             | Some d => bind (gets (fun w => has_data_src d (msg w)))
                           (fun dup => when dup return_)
             | None => skip
             end) ->
        outcome m w = Normal tt /\ exec m w = w).
    { intros m ->. destruct dataUrl as [d|]; [|done].
      unfold exec, outcome, bind, gets, when, return_, skip, ret. cbn.
      by rewrite Hdup. }
    destruct (Hpass _ eq_refl) as [-> ->]. clear Hpass.
    rewrite exec_bind.
    destruct (outcome _ w); try exact Happ.
    etrans; [exact Happ|apply sr_applySpoiler].
Qed.

Lemma sr_insertCard k a thumb : Keeps scan_relation (insertCard k a thumb).
Proof.
  unfold insertCard.
  apply (Keeps_bind scan_relation); [apply sr_fresh|intros id].
  intros w. rewrite exec_gets_bind. cbv beta. rewrite exec_bind.
  set (x := {| w_id := id; w_dataSrc := None |}).
  assert (H : scan_relation w (exec (safeAppendEmbed x (shouldStick_now w)) w)).
  { apply sr_safeAppendEmbed; [|done].
    intros Hv. unfold shouldStick_now. by rewrite Hv. }
  destruct (outcome _ w); exact H.
Qed.

Ltac keeps :=
  lazymatch goal with
  | |- Keeps _ (bind _ _) =>
      apply (Keeps_bind scan_relation); [keeps | intros ?; keeps]
  | |- Keeps _ (when _ _) => apply (Keeps_when scan_relation); keeps
  | |- Keeps _ (call _) => apply (Keeps_call scan_relation); keeps
  | |- Keeps _ (try_catch _ _) =>
      apply (Keeps_try_catch scan_relation); [keeps | intros ?; keeps]
  | |- Keeps _ (gets _) => by apply (Keeps_pure scan_relation)
  | |- Keeps _ skip => by apply (Keeps_pure scan_relation)
  | |- Keeps _ return_ => by apply (Keeps_pure scan_relation)
  | |- Keeps _ (throw _) => by apply (Keeps_pure scan_relation)
  | |- Keeps _ (ret _) => by apply (Keeps_pure scan_relation)
  | |- Keeps _ fresh => apply sr_fresh
  | |- Keeps _ (modify (with_msg _)) => by apply sr_modify_msg
  | |- Keeps _ (safeSendMessage _ _) => apply sr_send
  | |- Keeps _ (injectBelow _ _ _ _) => apply sr_injectBelow
  | |- Keeps _ (insertCard _ _ _) => apply sr_insertCard
  | |- Keeps _ (resolveAndEmbedImgur _ _) =>
      unfold resolveAndEmbedImgur; keeps
  | |- Keeps _ (resolveAndEmbedInstagram _ _) =>
      unfold resolveAndEmbedInstagram; keeps
  | |- Keeps _ (resolveAndEmbedReddit _ _) =>
      unfold resolveAndEmbedReddit; keeps
  | |- Keeps _ (match ?x with _ => _ end) => destruct x; keeps
  | _ => idtac
  end.

Lemma sr_tryEmbed (a : Anchor) : Keeps scan_relation (tryEmbed a).
Proof. unfold tryEmbed. cbv zeta. keeps. Qed.

Lemma sr_maybeEmbedInNode : Keeps scan_relation maybeEmbedInNode.
Proof.
  unfold maybeEmbedInNode. keeps.
  apply (Keeps_forEach scan_relation), sr_tryEmbed.
Qed.

End ScanKeeps.

Section ScanProperties.

Import Dom Page Router.
Open Scope list_scope.

Lemma sr_scans (n : nat) (w : World) :
  scan_relation w (Nat.iter n (exec maybeEmbedInNode) w).
Proof.
  induction n as [|n IH]; cbn [Nat.iter]; [reflexivity|].
  etrans; [exact IH|apply sr_maybeEmbedInNode].
Qed.

(** X8. Scanning a message, any number of times, changes neither the
    settings nor the sticky intent, and leaves the insertion guard lowered
    if it was lowered before, whatever is inserted on the way and also
    when an insertion throws. *)
Theorem scan_keeps_sticky_intent (n : nat) (w : World) :
  let w' := Nat.iter n (exec maybeEmbedInNode) w in
  settings (st w') = settings (st w)
  /\ stickyWanted (st w') = stickyWanted (st w)
  /\ (insertingEmbed (st w) = false -> insertingEmbed (st w') = false).
Proof. exact (proj1 (sr_scans n w)). Qed.

Lemma scan_keeps_sticky_intent_witness :
  insertingEmbed
    (st (Nat.iter 2 (exec maybeEmbedInNode)
           (Sample.page "look" [Sample.a_twitch] Sample.no_pager))) = false.
Proof.
  apply (proj2 (proj2 (scan_keeps_sticky_intent 2
                         (Sample.page "look" [Sample.a_twitch]
                            Sample.no_pager)))).
  reflexivity.
Defined.









End ScanProperties.

(** ** The hosts that get cards *)

Section CardHosts.

Import Dom Page Router.
Open Scope list_scope.

Lemma lower_char_idem (c : ascii) :
  Js.lower_char (Js.lower_char c) = Js.lower_char c.
Proof. destruct c as [[] [] [] [] [] [] [] []]; reflexivity. Qed.

Lemma toLowerCase_idem (s : string) :
  Js.toLowerCase (Js.toLowerCase s) = Js.toLowerCase s.
Proof.
  induction s as [|c s IH]; [done|]. cbn. by rewrite lower_char_idem, IH.
Qed.


Lemma prefix_lower (p : string) : forall s,
  String.prefix p s = true ->
  String.prefix (Js.toLowerCase p) (Js.toLowerCase s) = true.
Proof.
  induction p as [|c p IH]; intros [|d s] H; cbn in *; try done.
  destruct (Ascii.ascii_dec c d) as [->|]; [|done].
  destruct (Ascii.ascii_dec _ _); [by apply IH|done].
Qed.

Lemma includes_lower (h p : string) :
  Js.includes h p = true ->
  Js.includes (Js.toLowerCase h) (Js.toLowerCase p) = true.
Proof.
  unfold Js.includes.
  induction h as [|c h IH]; rewrite search_eq; intros H;
    apply orb_true_iff in H as [H|H]; try done.
  - rewrite search_eq. apply orb_true_iff. left. unfold Js.lit in *.
    destruct (String.prefix p "") eqn:E; [|done].
    by rewrite (prefix_lower p "" E).
  - rewrite search_eq. apply orb_true_iff. left. unfold Js.lit in *.
    destruct (String.prefix p (String c h)) eqn:E; [|done].
    by rewrite (prefix_lower p (String c h) E).
  - rewrite search_eq. apply orb_true_iff. right.
    change (Js.toLowerCase (String c h))
      with (String (Js.lower_char c) (Js.toLowerCase h)).
    cbv beta iota. by apply IH.
Qed.

Lemma whitelist_cases (P : string -> Prop) (l : list string) :
  MEDIA_WHITELIST = list_to_set l ->
  Forall P l -> forall h, whitelist_has h = true -> P h.
Proof.
  intros Hl Hall h Hh. unfold whitelist_has in Hh.
  apply bool_decide_eq_true in Hh. rewrite Hl in Hh.
  apply elem_of_list_to_set in Hh.
  rewrite Forall_forall in Hall. by apply Hall.
Qed.

Lemma strip_www_cases (l c : string) :
  Js.strip_www l = c -> l = c \/ l = "www." +:+ c.
Proof.
  unfold Js.strip_www. destruct (String.prefix "www." l) eqn:E.
  - apply prefix_split in E as [r ->].
    change (Js.drop 4 ("www." +:+ r)) with r. intros ->. by right.
  - by left.
Qed.

(** The hosts of the URLs the router accepts by shape. *)
Lemma twimg_hosts (u : URL) :
  (isTwitterImageUrl u || isTwitterVideoUrl u) = true ->
  In (Js.toLowerCase (hostname u))
    ["pbs.twimg.com"; "www.pbs.twimg.com";
     "video.twimg.com"; "www.video.twimg.com"].
Proof.
  unfold isTwitterImageUrl, isTwitterVideoUrl. cbv zeta.
  destruct (String.eqb (Js.strip_www _) "pbs.twimg.com") eqn:E1.
  - apply String.eqb_eq, strip_www_cases in E1 as [->| ->]; cbn; tauto.
  - destruct (String.eqb (Js.strip_www _) "video.twimg.com") eqn:E2;
      [|done].
    apply String.eqb_eq, strip_www_cases in E2 as [->| ->]; cbn; tauto.
Qed.


Ltac by_host_cases :=
  repeat (apply Forall_cons; split; [by vm_compute|]); by apply Forall_nil.

Ltac twimg_case H :=
  let Hin := fresh in
  pose proof (twimg_hosts _ H) as Hin; cbn [In] in Hin.

Section Gates.

Variable a : Anchor.
Let u := a_url a.
Let h := hostname (a_url a).

Hypothesis allowed :
  (whitelist_has h || isTwitterImageUrl u || isTwitterVideoUrl u) = true.

Lemma allowed_cases :
  whitelist_has h = true
  \/ In (Js.toLowerCase h)
       ["pbs.twimg.com"; "www.pbs.twimg.com";
        "video.twimg.com"; "www.video.twimg.com"].
Proof.
  destruct (whitelist_has h) eqn:E; [by left|]. right.
  apply twimg_hosts. exact allowed.
Qed.


Lemma youtube_gate (on : bool) l t th :
  (on && (Js.includes h "youtube.com" || Js.includes h "youtu.be")) = true ->
  card_host a (CARD YouTubeCard l t th) = true.
Proof.
  intros H. apply andb_true_iff in H as [_ H]. unfold card_host. fold h.
  destruct allowed_cases as [Hw|Ht].
  - refine (whitelist_cases
              (fun x => (Js.includes x "youtube.com"
                         || Js.includes x "youtu.be") = true ->
                        one_of _ x = true) _ eq_refl _ h Hw H).
    by_host_cases.
  - apply orb_true_iff in H as [H|H]; apply includes_lower in H;
      cbn [In] in Ht;
      destruct Ht as [Ht|[Ht|[Ht|[Ht|[]]]]]; rewrite <- Ht in H;
      discriminate H.
Qed.


Lemma kick_gate (on : bool) l t th :
  (on && Js.domain_of "kick.com" h) = true ->
  card_host a (CARD KickCard l t th) = true.
Proof.
  intros H. apply andb_true_iff in H as [_ H]. unfold card_host. fold h.
  destruct allowed_cases as [Hw|Ht].
  - refine (whitelist_cases
              (fun x => Js.domain_of "kick.com" x = true ->
                        String.eqb x "kick.com" = true) _ eq_refl _ h Hw H).
    by_host_cases.
  - unfold Js.domain_of in H. cbv zeta in H. cbn [In] in Ht.
    destruct Ht as [Ht|[Ht|[Ht|[Ht|[]]]]]; rewrite <- Ht in H;
      discriminate H.
Qed.

End Gates.





End CardHosts.

(** ** Links the router passes over *)

Section EarlyExits.

Import Dom Page Router.
Open Scope list_scope.

Lemma exec_when_return {B} (c : bool) (k : unit -> M World B) (w : World) :
  exec (bind (when c return_) k) w = if c then w else exec (k tt) w.
Proof. by destruct c. Qed.

(** X12. The links [tryEmbed] passes over before it classifies anything:
    a link whose text is [(source)], any link of a message labelled NSFL
    while the chat hides NSFL, any link of a message labelled NSFW while
    the chat hides NSFW and does not show removed messages, and every link
    while the page reads as logged out. For these the page is left exactly
    as it was: nothing inserted, nothing requested, no anchor marked. *)
Theorem router_passes_over (a : Anchor) (w : World) :
  let label := sensitivity_of (innerText (msg w)) in
  let pageText := Js.toLowerCase (bodyInnerText (host w)) in
  Js.trim (textContent a) = "(source)"
  \/ (label = Some NSFL /\ hidensfl (host w) = true)
  \/ (label = Some NSFW /\ hidensfw (host w) = true
      /\ showremoved (host w) = "0")
  \/ (Js.includes pageText "log in" = true
      /\ Js.includes pageText "logout" = false) ->
  exec (tryEmbed a) w = w.
Proof.
  intros label pageText H. unfold tryEmbed. cbv zeta.
  rewrite exec_gets_bind. cbv beta. fold label.
  rewrite exec_when_return.
  destruct (String.eqb (Js.trim (textContent a)) "(source)") eqn:E1;
    [done|].
  rewrite exec_gets_bind. cbv beta. rewrite exec_when_return.
  destruct (is_label NSFL label && hidensfl (host w)) eqn:E2; [done|].
  rewrite exec_when_return.
  destruct (is_label NSFW label && hidensfw (host w)
            && String.eqb (showremoved (host w)) "0") eqn:E3; [done|].
  rewrite exec_when_return. fold pageText.
  destruct (Js.includes pageText "log in"
            && negb (Js.includes pageText "logout")) eqn:E4; [done|].
  exfalso.
  destruct H as [H|[[H1 H2]|[(H1 & H2 & H3)|[H1 H2]]]].
  - rewrite H in E1. discriminate E1.
  - rewrite H1, H2 in E2. discriminate E2.
  - rewrite H1, H2, H3 in E3. discriminate E3.
  - rewrite H1, H2 in E4. discriminate E4.
Qed.

Lemma router_passes_over_witness :
  let w := Sample.page "see this" [Sample.a_image] Sample.no_pager in
  let a := Sample.link 2 " (source) " (Dom.a_url Sample.a_image) in
  exec (tryEmbed a) w = w.
Proof.
  intros w a. apply (router_passes_over a w). left. reflexivity.
Defined.

End EarlyExits.

(** ** The worker's tweet answers *)

Section TweetAnswers.

Import Tweet Background.
Open Scope list_scope.

Lemma dedup_from_spec (l : list string) : forall seen,
  NoDup (dedup_from seen l)
  /\ (forall x, x ∈ dedup_from seen l <-> x ∈ l /\ x ∉ seen).
Proof.
  induction l as [|y l IH]; intros seen; cbn [dedup_from].
  - split; [apply NoDup_nil_2|]. intros x. rewrite elem_of_nil. tauto.
  - destruct (existsb (String.eqb y) seen) eqn:E.
    + destruct (IH seen) as [Hnd Hin]. split; [done|].
      intros x. rewrite Hin, elem_of_cons.
      apply existsb_exists in E as (z & Hz & Hyz).
      apply String.eqb_eq in Hyz as <-. apply list_elem_of_In in Hz.
      split; [tauto|]. intros [[->|H] Hn]; [done|tauto].
    + destruct (IH (y :: seen)) as [Hnd Hin].
      assert (Hy : y ∉ seen).
      { intros Hy. apply list_elem_of_In in Hy.
        assert (existsb (String.eqb y) seen = true); [|congruence].
        apply existsb_exists. exists y. split; [done|].
        apply String.eqb_refl. }
      split.
      * apply NoDup_cons. split; [|done]. rewrite Hin.
        rewrite not_elem_of_cons. tauto.
      * intros x. rewrite !elem_of_cons, Hin, not_elem_of_cons.
        split.
        -- intros [->|(H1 & H2 & H3)]; tauto.
        -- intros [[->|H1] H2]; [by left|].
           destruct (decide (x = y)) as [->|Hne]; [by left|]. tauto.
Qed.

Lemma dedup_spec (l : list string) :
  NoDup (dedup l) /\ (forall x, x ∈ dedup l <-> x ∈ l).
Proof.
  destruct (dedup_from_spec l []) as [H1 H2]. split; [done|].
  intros x. unfold dedup. rewrite H2. rewrite elem_of_nil. tauto.
Qed.

Lemma map_mp4_urls (l : list string) : map v_url (map mp4 l) = l.
Proof. induction l as [|x l IH]; [done|]. cbn. by rewrite IH. Qed.

(** X13. What the mirror enrichment returns. Its photo URLs are pairwise
    distinct and each is a [pbs.twimg.com/media/] URL with an image
    extension; its videos have pairwise distinct URLs, each a
    [video.twimg.com] URL of an MP4 file, and all carry the type
    [video/mp4]. This holds for every behaviour of the three mirrors. *)
Theorem enrichment_media_are_distinct_twimg_urls
    (net : Mirror -> Fetched) (tid : option string) :
  let extra := (enrichFromFxVx net tid).1 in
  NoDup (x_photos extra)
  /\ Forall (fun p => is_photo_url p = true) (x_photos extra)
  /\ NoDup (map v_url (x_videos extra))
  /\ Forall (fun v => is_video_url (v_url v) = true
                      /\ v_type v = "video/mp4") (x_videos extra).
Proof.
  intros extra. subst extra. unfold enrichFromFxVx.
  destruct tid as [tid|].
  2:{ cbn. repeat split; try apply NoDup_nil_2; by apply Forall_nil. }
  pose proof (enrich_loop_spec net tryUrls no_extra []) as H.
  cbv zeta in H.
  destruct (find (yields net) tryUrls) as [m|].
  - destruct H as (before & after & _ & _ & _ & Hp & Hv).
    rewrite Hp, Hv. cbn [x_photos x_videos no_extra app].
    unfold mirror_scan. destruct (net m) as [| | |j].
    1-3: cbn; repeat split; try apply NoDup_nil_2; by apply Forall_nil.
    unfold scan. cbn [fst snd].
    destruct (dedup_spec (List.filter is_photo_url (walk j))) as [P1 P2].
    destruct (dedup_spec (List.filter is_video_url (walk j))) as [V1 V2].
    repeat split.
    + exact P1.
    + apply Forall_forall. intros p Hp'. apply P2 in Hp'.
      apply list_elem_of_In, filter_In in Hp'. tauto.
    + by rewrite map_mp4_urls.
    + apply Forall_forall. intros v Hv'.
      apply list_elem_of_In, in_map_iff in Hv' as (u & <- & Hu).
      apply list_elem_of_In, V2, list_elem_of_In, filter_In in Hu.
      cbn. tauto.
  - destruct H as (_ & Hp & Hv). rewrite Hp, Hv. cbn.
    repeat split; try apply NoDup_nil_2; by apply Forall_nil.
Qed.



(** X15. The sources of a tweet answer. When the widget-CDN fetch rejects
    or its body cannot be read, the handler answers [ok: false] whatever
    the mirrors and the oEmbed endpoint would have returned. An answer of
    source [cdn] is given exactly when the widget CDN answered ok, and its
    [photos] is then always an array. An answer of source [vx] always
    carries at least one photo or video. *)
Theorem tweet_answer_sources (net : Net) (id : option string) :
  (cdn_result net id = CdnRejects \/ cdn_result net id = CdnUnreadable ->
   fetchTweet net id = Failed)
  /\ ((exists d, fetchTweet net id = FromCdn d)
      <-> (exists data, cdn_result net id = CdnOk data))
  /\ (forall d, fetchTweet net id = FromCdn d -> Router.is_some (photos d)
                                                 = true)
  /\ (forall d, fetchTweet net id = FromVx d ->
        exists ps vs, photos d = Some ps /\ videos d = Some vs
                      /\ (ps <> [] \/ vs <> [])).
Proof.
  unfold fetchTweet. split; [|split; [|split]].
  - by intros [-> | ->].
  - destruct (cdn_result net id) as [| | |data]; cbn zeta.
    + split; intros [? ?]; done.
    + split; [|intros [? ?]; done].
      destruct (has_media _); [intros [? ?]; done|].
      destruct (oembed net) as [| | |[]]; intros [? ?]; done.
    + split; intros [? ?]; done.
    + split; intros _; by eexists.
  - intros d. destruct (cdn_result net id) as [| | |data]; cbn zeta;
      try done.
    + destruct (has_media _); [done|].
      by destruct (oembed net) as [| | |[]].
    + intros [= <-].
      assert (Hn : Router.is_some (photos (merge_extra (normalize data)
                     (enrichFromFxVx (mirror net) id).1)) = true).
      { unfold merge_extra. by destruct (has_media _). }
      unfold attach_oembed. destruct (blank _); [|done].
      destruct (oembed net) as [| | |od]; try done.
      by destruct (truthy od && _).
  - intros d. destruct (cdn_result net id) as [| | |data]; cbn zeta;
      try done.
    destruct (has_media _) eqn:Hm.
    + intros [= <-]. cbn [photos videos]. eexists _, _.
      split; [done|]. split; [done|].
      unfold has_media in Hm. apply orb_true_iff in Hm as [Hm|Hm];
        apply negb_true_iff, Nat.eqb_neq in Hm; [left|right];
        intros E.
      * apply map_eq_nil in E. by rewrite E in Hm.
      * by rewrite E in Hm.
    + by destruct (oembed net) as [| | |[]].
Qed.

Lemma tweet_answer_sources_witness :
  exists ps vs,
    photos {| user := None; author_name := ""; text := "hi";
              full_text := ""; description := ""; created_at := "";
              date := ""; entities := None;
              photos := Some [url_photo "https://pbs.twimg.com/media/G.jpg"];
              videos := Some []; video_urls := None; video_url := "";
              oembed_html := ""; html := "" |} = Some ps
    /\ Some (@nil Video) = Some vs /\ (ps <> [] \/ vs <> []).
Proof.
  set (j := JObj [("text", JStr "hi");
                  ("u", JStr "https://pbs.twimg.com/media/G.jpg")]).
  apply (proj2 (proj2 (proj2 (tweet_answer_sources
           {| cdn_by_id := CdnNotOk 404; cdn_by_url := CdnNotOk 404;
              mirror := fun _ => Parsed j; oembed := NetworkError |}
           (Some "1"))))).
  reflexivity.
Defined.

End TweetAnswers.

(** ** The worker's allow-list, the oEmbed provider test and the settings *)

Section WorkerFacts.

Import Dom Page Router Resolver.
Open Scope list_scope.

Lemma worker_cases (P : string -> Prop) (l : list string) :
  Worker.MEDIA_WHITELIST = list_to_set l ->
  Forall P l -> forall h, h ∈ Worker.MEDIA_WHITELIST -> P h.
Proof.
  intros Hl Hall h Hh. rewrite Hl in Hh.
  apply elem_of_list_to_set in Hh.
  rewrite Forall_forall in Hall. by apply Hall.
Qed.

Lemma reddit_hosts_are_not_allowed (h : string) :
  Js.domain_of "reddit.com" h = true -> h ∉ Worker.MEDIA_WHITELIST.
Proof.
  intros Hd Hin. revert Hd.
  refine (worker_cases (fun x => Js.domain_of "reddit.com" x = true -> False)
            _ eq_refl _ h Hin).
  repeat (apply Forall_cons; split; [by vm_compute|]); by apply Forall_nil.
Qed.

(** X16. Reddit posts are never resolved. The worker parses the URL of
    every page fetch and refuses hosts outside its own allow-list, which
    names no Reddit host. So for every Reddit post link (any host on
    [reddit.com]) the request of [resolveAndEmbedReddit] is answered
    without a body, whatever the network would return, and the callback
    leaves the message as it was: no Reddit card is inserted. *)
Theorem reddit_posts_are_never_resolved
    (parse : string -> option URL) (fetch : string -> Worker.Fetched)
    (JSON_parse : string -> option Background.Json)
    (serializeQuery : list (string * string) -> string)
    (origin : URL) (sens : option Label) (w : World) :
  Js.domain_of "reddit.com" (hostname origin) = true ->
  (forall u, parse (redditApiUrl origin) = Some u ->
             hostname u = hostname origin) ->
  let reply := Worker.bgFetch parse fetch (redditApiUrl origin) in
  (reply = Worker.Blocked \/ reply = Worker.Errored)
  /\ exec (deliver (onRedditJson JSON_parse serializeQuery origin sens
                      (Some (Worker.as_res reply)))) w = w.
Proof.
  intros Hd Hparse reply.
  assert (Hr : reply = Worker.Blocked \/ reply = Worker.Errored).
  { subst reply. unfold Worker.bgFetch.
    destruct (parse (redditApiUrl origin)) as [u|] eqn:E; [|by right].
    rewrite (Hparse u eq_refl).
    rewrite bool_decide_eq_false_2
      by by apply reddit_hosts_are_not_allowed.
    by left. }
  split; [exact Hr|].
  by destruct Hr as [-> | ->].
Qed.

Lemma reddit_posts_are_never_resolved_witness :
  let origin := Sample.https "www.reddit.com" "/r/Destiny/comments/abc/x" in
  let reply :=
    Worker.bgFetch (fun _ => Some origin)
      (fun _ => Worker.Answer true 200 "application/json" "[]" "")
      (redditApiUrl origin) in
  reply = Worker.Blocked \/ reply = Worker.Errored.
Proof.
  intros origin.
  refine (proj1 (reddit_posts_are_never_resolved (fun _ => Some origin)
                   (fun _ => Worker.Answer true 200 "application/json"
                               "[]" "")
                   (fun _ => None) (fun _ => "") origin None
                   (Sample.page "look" [] Sample.no_pager) _ _)).
  - reflexivity.
  - intros u [= <-]. reflexivity.
Defined.

Lemma one_of_cases (l : list string) (s : string) :
  one_of l s = true -> In s l.
Proof.
  unfold one_of. intros H. apply existsb_exists in H as (x & Hx & E).
  apply String.eqb_eq in E as ->. exact Hx.
Qed.

(** X17. The two allow-lists agree on the links that get YouTube and Kick
    cards. For every link the router gives a YouTube card, the worker's
    allow-list accepts the watch-page probe and its provider test accepts
    the oEmbed request; for every link the router gives a Kick card, the
    worker's allow-list accepts the metadata fetch. *)
Theorem worker_accepts_card_probes
    (parse : string -> option URL) (fetch : string -> Worker.Fetched)
    (endpoint : string -> Background.Fetched) (a : Anchor) :
  let u := a_url a in
  let h := hostname u in
  (whitelist_has h || isTwitterImageUrl u || isTwitterVideoUrl u) = true ->
  parse (a_href a) = Some u ->
  ((Js.includes h "youtube.com" || Js.includes h "youtu.be") = true ->
   Worker.bgFetch parse fetch (a_href a) <> Worker.Blocked
   /\ Worker.oembedYouTube parse endpoint (a_href a)
      <> Worker.InvalidProvider)
  /\ (Js.domain_of "kick.com" h = true ->
      Worker.bgFetch parse fetch (a_href a) <> Worker.Blocked).
Proof.
  intros u h Hallowed Hparse. subst u h. split.
  - intros Hyt.
    pose proof (youtube_gate a Hallowed true (a_url a) "" None) as Hc.
    cbn [andb] in Hc. specialize (Hc Hyt). unfold card_host in Hc.
    apply one_of_cases in Hc. cbn [In] in Hc.
    unfold Worker.bgFetch, Worker.oembedYouTube, Worker.youtube_provider.
    rewrite Hparse.
    destruct Hc as [<-|[<-|[]]]; cbn -[Worker.MEDIA_WHITELIST].
    all: rewrite bool_decide_eq_true_2
           by (apply (bool_decide_unpack _); by vm_compute).
    all: split; [by destruct (fetch _)|by destruct (endpoint _)].
  - intros Hk.
    pose proof (kick_gate a Hallowed true (a_url a) "" None) as Hc.
    cbn [andb] in Hc. specialize (Hc Hk). unfold card_host in Hc.
    apply String.eqb_eq in Hc.
    unfold Worker.bgFetch. rewrite Hparse. rewrite Hc.
    rewrite bool_decide_eq_true_2
      by (apply (bool_decide_unpack _); by vm_compute).
    by destruct (fetch _).
Qed.

Lemma worker_accepts_card_probes_witness :
  Worker.bgFetch (fun _ => Some (Dom.a_url Sample.a_kick))
    (fun _ => Worker.Rejects) (a_href Sample.a_kick) <> Worker.Blocked.
Proof.
  apply (proj2 (worker_accepts_card_probes
                  (fun _ => Some (Dom.a_url Sample.a_kick))
                  (fun _ => Worker.Rejects)
                  (fun _ => Background.NetworkError) Sample.a_kick
                  eq_refl eq_refl)).
  reflexivity.
Defined.

Lemma getSettings_after_toggle (storage : Worker.Store) (k : string)
    (b : bool) :
  Worker.getSettings (Worker.onToggle k b storage) !! k = Some b
  /\ (forall k', k' <> k ->
        Worker.getSettings (Worker.onToggle k b storage) !! k'
        = Worker.getSettings storage !! k').
Proof.
  unfold Worker.getSettings, Worker.onToggle, Worker.setSettings,
    Worker.storage_set, Worker.spread, Worker.Store in *.
  cbn [default from_option id]. split.
  - apply lookup_union_Some_l, lookup_union_Some_l, lookup_singleton_eq.
  - intros k' Hne.
    rewrite !lookup_union, lookup_singleton_ne by done.
    by rewrite (left_id None _).
Qed.

(** X18. Toggles make the round trip through the three scripts. After the
    popup stores the state of the checkbox of one of its keys, the popup
    shows that state for the key when it is opened again, and a content
    script that re-reads the settings has that state for the key; every
    other key reads as before, in the popup and in the content script.
    With an empty store both read the defaults. The listener that runs on
    install and on every update keeps each saved value and changes nothing
    of what the scripts read. *)
Theorem toggles_round_trip (storage : Worker.Store) (k : string) (b : bool)
    (s : Settings) :
  In k Worker.keys ->
  let storage' := Worker.onToggle k b storage in
  let read st := Worker.applySettings (Some (Worker.getSettings st)) s in
  Worker.load storage' k = b
  /\ Worker.setting k (read storage') = Some b
  /\ (forall k', k' <> k ->
        Worker.load storage' k' = Worker.load storage k'
        /\ Worker.setting k' (read storage')
           = Worker.setting k' (read storage))
  /\ read ∅ = Sample.defaults
  /\ (forall k', In k' Worker.keys ->
        Worker.load ∅ k' = default false (Worker.DEFAULTS !! k'))
  /\ (forall k' v, storage !! k' = Some v ->
        Worker.onInstalled storage !! k' = Some v)
  /\ Worker.getSettings (Worker.onInstalled storage)
     = Worker.getSettings storage.
Proof.
  intros Hk storage' read.
  assert (Hinst : (forall k' v, storage !! k' = Some v ->
                     Worker.onInstalled storage !! k' = Some v)
                  /\ Worker.getSettings (Worker.onInstalled storage)
                     = Worker.getSettings storage).
  { unfold Worker.getSettings, Worker.onInstalled, Worker.storage_set,
      Worker.spread, Worker.Store in *. split.
    - intros k' v Hv.
      by apply lookup_union_Some_l, lookup_union_Some_l.
    - rewrite <- (assoc_L (∪)). apply (idemp_L (∪)). }
  destruct (getSettings_after_toggle storage k b) as [Hget Hother].
  fold storage' in Hget, Hother. clearbody storage'.
  split; [|split; [|split; [|split; [|split; [|exact Hinst]]]]].
  - unfold Worker.load. by rewrite Hget.
  - unfold read, Worker.applySettings. cbn [In Worker.keys] in Hk.
    destruct Hk as [<-|[<-|[<-|[<-|[<-|[<-|[<-|[]]]]]]]];
      cbn -[Worker.getSettings lookup]; by rewrite Hget.
  - intros k' Hne. split.
    + unfold Worker.load. by rewrite Hother.
    + unfold Worker.setting, read, Worker.applySettings.
      repeat match goal with
             | |- context [String.eqb k' ?x] =>
                 destruct (String.eqb_spec k' x) as [->|_];
                 [cbn -[Worker.getSettings lookup]; by rewrite Hother|]
             end.
      done.
  - reflexivity.
  - intros k' Hk'. unfold Worker.load, Worker.getSettings, Worker.spread.
    by rewrite (left_id ∅ _).
Qed.

Lemma toggles_round_trip_witness :
  Worker.load (Worker.onToggle "blurMedia" true ∅) "blurMedia" = true.
Proof.
  apply (proj1 (toggles_round_trip ∅ "blurMedia" true Sample.defaults
                  ltac:(cbn; tauto))).
Defined.

End WorkerFacts.

(** ** Videos and the page's content security policy *)

Section CspFacts.

Import Dom Page Router.
Open Scope list_scope.

Lemma web_href (u : URL) :
  In (protocol u) ["http:"; "https:"] ->
  Js.truthy (href u) = true /\ Js.startsWith (href u) "blob:" = false.
Proof.
  unfold href. cbn [In]. by intros [<-|[<-|[]]].
Qed.

Lemma blocked_hosts_are_fetched_at_once (a : Anchor) :
  let u := a_url a in
  let h := hostname u in
  (whitelist_has h || isTwitterImageUrl u || isTwitterVideoUrl u) = true ->
  Js.toLowerCase h = h ->
  isCspBlockedHost h = true ->
  Csp.blob_at_once_host (Js.toLowerCase (Js.strip_www h)) = true.
Proof.
  intros u h Hallowed Hlow. subst u h.
  destruct (allowed_cases a Hallowed) as [Hw|Hin].
  - revert Hw.
    generalize (hostname (a_url a)). intros h Hw. revert h Hw.
    refine (whitelist_cases
              (fun x => isCspBlockedHost x = true ->
                        Csp.blob_at_once_host
                          (Js.toLowerCase (Js.strip_www x)) = true)
              _ eq_refl _).
    repeat (apply Forall_cons; split; [by vm_compute|]); by apply Forall_nil.
  - rewrite Hlow in Hin. cbn [In] in Hin.
    destruct Hin as [<-|[<-|[<-|[<-|[]]]]]; by vm_compute.
Qed.

(** X19. A direct video that gets no [<source>] is still loaded. The
    router leaves the [<source>] child out when [isCspBlockedHost] holds
    of the link's host and relies on [prepareVideoForCsp] to fetch the
    file. For every link that passes the allow-list test, with a
    lower-case host and a web address, the two host tests agree: the
    preparation plans the fetch of the link's address at once, without
    waiting for an [error] event. The pass of [ensureCspSafeVideos] that
    [injectBelow] makes afterwards plans nothing more. *)
Theorem blocked_direct_videos_are_fetched_at_once
    (parse : string -> option URL) (a : Anchor) (v : Csp.Video) :
  let u := a_url a in
  let h := hostname u in
  (whitelist_has h || isTwitterImageUrl u || isTwitterVideoUrl u) = true ->
  Js.toLowerCase h = h ->
  In (protocol u) ["http:"; "https:"] ->
  parse (a_href a) = Some u ->
  isCspBlockedHost h = true ->
  Csp.ready v = false ->
  let prepared := Csp.prepareVideoForCsp parse (Some (a_href a)) v in
  prepared.2 = Some {| Csp.target := a_href a; Csp.at_once := true |}
  /\ Csp.ensureCspSafe parse prepared.1 = (prepared.1, None).
Proof.
  intros u h Hallowed Hlow Hweb Hparse Hblocked Hready prepared.
  pose proof (blocked_hosts_are_fetched_at_once a Hallowed Hlow Hblocked)
    as Hhost.
  subst prepared u h. unfold a_href in *.
  destruct (web_href (a_url a) Hweb) as [Ht Hb].
  unfold Csp.ensureCspSafe, Csp.prepareVideoForCsp.
  rewrite Hready. cbv beta iota zeta. rewrite !Ht. cbv beta iota.
  rewrite ?Ht, ?Hb. unfold Csp.blob_at_once. rewrite Hparse, Hhost.
  by split.
Qed.

Lemma blocked_direct_videos_are_fetched_at_once_witness :
  let v := {| Csp.ready := false; Csp.v_src := EmptyString;
              Csp.sources := [] |} in
  (Csp.prepareVideoForCsp (fun _ => Some (a_url Sample.a_catbox))
     (Some (a_href Sample.a_catbox)) v).2
  = Some {| Csp.target := a_href Sample.a_catbox; Csp.at_once := true |}.
Proof.
  intros v.
  refine (proj1 (blocked_direct_videos_are_fetched_at_once
                   (fun _ => Some (a_url Sample.a_catbox))
                   Sample.a_catbox v _ _ _ _ _ _)).
  - reflexivity.
  - reflexivity.
  - cbn. tauto.
  - reflexivity.
  - reflexivity.
  - reflexivity.
Defined.

End CspFacts.

(** ** The controls of the pager *)

Section PagerControls.

Import Pager.
Open Scope Z_scope.

Lemma show_loop_pauses its : forall k i d pl,
  (show_loop its k i d pl).2 ⊆ pl
  /\ forall j it, its !! j = Some it -> isVideo it = true ->
       k + Z.of_nat j <> i -> el it ∉ (show_loop its k i d pl).2.
Proof.
  induction its as [|it0 rest IH]; intros k i d pl.
  { split; [done|]. by intros j it Hj. }
  cbn [show_loop].
  set (pl' := if negb (k =? i) && isVideo it0 then pl ∖ {[el it0]} else pl).
  destruct (IH (k + 1) i
              (<[node it0 := if k =? i then Block else Hidden]> d) pl')
    as [Hsub Hrest].
  assert (Hpl : pl' ⊆ pl).
  { subst pl'. destruct (negb (k =? i) && isVideo it0); [|done].
    by apply subseteq_difference_l. }
  split; [by etrans|].
  intros [|j] it Hj Hv Hne; cbn in Hj.
  - injection Hj as <-. intros Hin. apply Hsub in Hin. subst pl'.
    rewrite Hv in Hin. replace (k =? i) with false in Hin by lia.
    cbn in Hin. apply elem_of_difference in Hin as [_ Hn].
    apply Hn. by apply elem_of_singleton.
  - apply (Hrest j it Hj Hv). lia.
Qed.

Lemma show_controls (i : Z) (p : Pager) :
  items p <> [] ->
  pager_controls (items p) (show i p) /\ playing (show i p) ⊆ playing p.
Proof.
  intros Hne. unfold show.
  destruct (items p) as [|it0 rest] eqn:Hits; [done|].
  set (n := Z.of_nat (length (it0 :: rest))).
  assert (0 < n) by (subst n; cbn [length]; lia).
  set (i' := Z.max 0 (Z.min i (n - 1))).
  destruct (show_loop_pauses (it0 :: rest) 0 i' (display p) (playing p))
    as [Hsub Hpause].
  destruct (show_loop (it0 :: rest) 0 i' (display p) (playing p))
    as [d pl] eqn:Hloop.
  cbn [snd] in Hsub, Hpause.
  split; [|exact Hsub].
  unfold pager_controls. cbn [items idx prevDisplay nextDisplay counter
                                counterDisplay playing].
  fold n. split_and!; try exact Hpause; try done; subst i'; lia.
Qed.

Lemma step_controls its op p :
  its <> [] -> pager_controls its p ->
  pager_controls its (step op p) /\ playing (step op p) ⊆ playing p.
Proof.
  intros Hne Hc. unfold step.
  destruct (requested op p) as [i|]; [|done].
  destruct Hc as (Hits & _). rewrite <- Hits. apply show_controls.
  by rewrite Hits.
Qed.

Lemma run_controls its ops : forall p,
  its <> [] -> pager_controls its p ->
  pager_controls its (run ops p) /\ playing (run ops p) ⊆ playing p.
Proof.
  induction ops as [|op ops IH]; intros p Hne Hc; [done|].
  cbn [run fold_left].
  destruct (step_controls its op p Hne Hc) as [Hc1 Hs1].
  destruct (IH (step op p) Hne Hc1) as [Hc2 Hs2].
  split; [exact Hc2|]. by etrans.
Qed.

(** X20. The controls of a pager follow its position. On a group of at
    least two items, after the initial layout and after any clicks on the
    buttons or the media, "previous" is hidden exactly on the first item,
    "next" exactly on the last, the counter reads position + 1 of n and is
    shown, and no video other than the one on screen is playing; paging
    never starts a video. *)
Theorem pager_controls_follow_position (its : list Item) (pl : gset nat) :
  (2 <= length its)%nat ->
  exists p0, init its pl = Some p0 /\
    forall ops,
      pager_controls its (run ops p0) /\ playing (run ops p0) ⊆ pl.
Proof.
  intros Hlen.
  assert (Hne : its <> []) by (destruct its; [simpl in Hlen; lia | done]).
  unfold init.
  destruct (length its <=? 1)%nat eqn:E; [apply Nat.leb_le in E; lia|].
  eexists. split; [reflexivity|]. intros ops.
  set (q := {| items := its; idx := 0; display := ∅; playing := pl;
               counter := None; prevDisplay := None; nextDisplay := None;
               counterDisplay := None |}).
  destruct (show_controls 0 q Hne) as [Hc0 Hs0].
  destruct (run_controls its ops (show 0 q) Hne Hc0) as [Hc Hs].
  split; [exact Hc|]. etrans; [exact Hs|exact Hs0].
Qed.

Lemma pager_controls_follow_position_witness :
  exists p0, init Sample.three_items ∅ = Some p0 /\
    forall ops, pager_controls Sample.three_items (run ops p0)
                /\ playing (run ops p0) ⊆ ∅.
Proof.
  apply (pager_controls_follow_position Sample.three_items ∅).
  cbn. lia.
Defined.

End PagerControls.

(** ** Restarting a thumbnail refresher *)

Section ThumbRestarts.

Import Thumb.

Lemma cleared_is_quiet (s : State) :
  one_timer s ->
  forall i, intervals (clearInterval (timerProp s) s) !! i = None.
Proof.
  intros H1 i. unfold clearInterval.
  destruct (timerProp s) as [t|] eqn:Ht; cbn [intervals].
  - destruct (decide (i = t)) as [->|Hne];
      [by rewrite lookup_delete_eq|].
    rewrite lookup_delete_ne by done.
    destruct (intervals s !! i) as [p|] eqn:E; [|done].
    destruct (H1 i p E) as [Hp _]. congruence.
  - destruct (intervals s !! i) as [p|] eqn:E; [|done].
    destruct (H1 i p E) as [Hp _]. congruence.
Qed.

Lemma update_frame (target : Target) (o : Obs) (s : State) :
  nextTimer (update target o s) = nextTimer s
  /\ (isConnected o = true ->
      intervals (update target o s) = intervals s
      /\ timerProp (update target o s) = timerProp s)
  /\ (isConnected o = false ->
      update target o s
      = set_timerProp None (clearInterval (timerProp s) s)).
Proof.
  unfold update. destruct (isConnected o); cbn [negb].
  - split; [|split; [|done]].
    + destruct (inView o); cbn [negb]; [|done].
      destruct target; [done|]. by destruct (Js.is_empty _).
    + intros _. destruct (inView o); cbn [negb]; [|done].
      destruct target; [done|]. by destruct (Js.is_empty _).
  - split; [|split; [done|done]].
    unfold clearInterval. by destruct (timerProp s).
Qed.

Lemma update_one_timer (target : Target) (o : Obs) (s : State) :
  one_timer s -> one_timer (update target o s).
Proof.
  intros H1. destruct (update_frame target o s) as (Hn & Hc & Hd).
  destruct (isConnected o) eqn:E.
  - destruct (Hc eq_refl) as [Hi Hp]. intros i p.
    rewrite Hi, Hp, Hn. apply H1.
  - rewrite (Hd eq_refl). intros i p. cbn [set_timerProp intervals].
    by rewrite cleared_is_quiet.
Qed.

Lemma update_quiet (target : Target) (o : Obs) (s : State) :
  (forall i, intervals s !! i = None) ->
  forall i, intervals (update target o s) !! i = None.
Proof.
  intros Hq i. destruct (update_frame target o s) as (_ & Hc & Hd).
  destruct (isConnected o) eqn:E.
  - destruct (Hc eq_refl) as [-> _]. apply Hq.
  - rewrite (Hd eq_refl). cbn [set_timerProp intervals].
    unfold clearInterval. destruct (timerProp s) as [t|]; cbn [intervals];
      [|apply Hq].
    destruct (decide (i = t)) as [->|Hne]; [by rewrite lookup_delete_eq|].
    rewrite lookup_delete_ne by done. apply Hq.
Qed.

Lemma start_one_timer (target : Target) (periodMs : Z) (o : Obs)
    (s : State) :
  one_timer s -> one_timer (start target periodMs o s).
Proof.
  intros H1. unfold start.
  destruct (negb _); [exact H1|].
  set (s1 := clearInterval (timerProp s) s).
  pose proof (update_quiet target o s1 (cleared_is_quiet s H1)) as Hq.
  unfold setInterval, set_timerProp. intros i p.
  cbn [intervals timerProp nextTimer].
  destruct (decide (i = nextTimer (update target o s1))) as [->|Hne].
  - intros _. split; [done|lia].
  - rewrite lookup_insert_ne by done. by rewrite Hq.
Qed.

Lemma one_timer_size (s : State) :
  one_timer s -> (size (intervals s) <= 1)%nat.
Proof.
  intros H1.
  destruct (timerProp s) as [t|] eqn:Ht.
  - destruct (intervals s !! t) as [p|] eqn:Hp.
    + assert (intervals s = {[t := p]}) as ->; [|by rewrite map_size_singleton].
      apply map_eq. intros i.
      destruct (decide (i = t)) as [->|Hne].
      * by rewrite lookup_singleton_eq.
      * rewrite lookup_singleton_ne by done.
        destruct (intervals s !! i) as [q|] eqn:E; [|done].
        destruct (H1 i q E) as [Hi _]. congruence.
    + assert (intervals s = ∅) as ->; [|by rewrite map_size_empty; lia].
      apply map_eq. intros i. rewrite lookup_empty.
      destruct (intervals s !! i) as [q|] eqn:E; [|done].
      destruct (H1 i q E) as [Hi _]. congruence.
  - assert (intervals s = ∅) as ->; [|by rewrite map_size_empty; lia].
    apply map_eq. intros i. rewrite lookup_empty.
    destruct (intervals s !! i) as [q|] eqn:E; [|done].
    destruct (H1 i q E) as [Hi _]. congruence.
Qed.

(** X21. Refreshers never pile up on a thumbnail. Starting a refresher
    clears the interval the element's timer property holds before it
    creates the new one. So, from a state in which every live interval is
    the one the property holds, any sequence of restarts of one kind of
    refresher (with any arguments and periods) and of interval callbacks
    (attached or detached, on or off screen) keeps that: at most one
    interval is live on the element, and it is the one the property
    holds. *)
Theorem refreshers_never_pile_up (twitch : bool) (es : list ThumbEvent)
    (s : State) :
  one_timer s ->
  let s' := thumb_events twitch es s in
  one_timer s' /\ (size (intervals s') <= 1)%nat.
Proof.
  intros H1 s'.
  assert (H' : one_timer s').
  { subst s'. revert s H1.
    induction es as [|e es IH]; intros s H1; [exact H1|].
    cbn [thumb_events fold_left]. apply IH.
    destruct e as [arg periodMs o|arg id o]; cbn [thumb_event].
    - by apply start_one_timer.
    - unfold fire. destruct (intervals s !! id); [|exact H1].
      by apply update_one_timer. }
  split; [exact H'|]. by apply one_timer_size.
Qed.

Lemma refreshers_never_pile_up_witness :
  (size (intervals
           (thumb_events false
              [Restart "https://i.ytimg.com/vi/abc/hqdefault.jpg" 60000
                 (Sample.on_screen 0);
               Tick "https://i.ytimg.com/vi/abc/hqdefault.jpg" 1
                 (Sample.off_screen 60000);
               Restart "https://i.ytimg.com/vi/abc/hqdefault_live.jpg"
                 60000 (Sample.on_screen 61000)]
              Sample.fresh_thumb)) <= 1)%nat.
Proof.
  apply (proj2 (refreshers_never_pile_up false _ Sample.fresh_thumb
                  ltac:(intros i p H; cbn in H; by rewrite lookup_empty in H))).
Defined.

End ThumbRestarts.

(** ** The metadata callbacks of the link cards *)

Section CardCallbacks.

Import Dom Page Router Resolver Cards.
Open Scope list_scope.

Variable parseFromString : string -> HtmlDoc.
Variable encodeURIComponent : string -> option string.
Variable extractTwitchLiveTitle : string -> option string.
Variable isYouTubeLive : string -> bool.

Lemma find_update (card : nat) (f : Wrap -> Wrap) (l : list Wrap) :
  (forall x, w_id (f x) = w_id x) ->
  List.find (fun x => Nat.eqb (w_id x) card)
    (map (fun x => if Nat.eqb (w_id x) card then f x else x) l)
  = f <$> List.find (fun x => Nat.eqb (w_id x) card) l.
Proof.
  intros Hf. induction l as [|x l IH]; [done|].
  cbn [map List.find]. destruct (Nat.eqb (w_id x) card) eqn:E.
  - by rewrite Hf, E.
  - by rewrite E.
Qed.

Lemma card_of_update (card : nat) (f : Wrap -> Wrap) (w : World) :
  (forall x, w_id (f x) = w_id x) ->
  card_of card (exec (update_wrap card f) w)
  = match List.find (fun x => Nat.eqb (w_id x) card) (wraps (msg w)) with
    | Some x => match w_el (f x) with
                | CARD _ _ t th => Some (t, th)
                | _ => None
                end
    | None => None
    end.
Proof.
  intros Hf. unfold card_of, update_wrap, exec, modify.
  cbn [snd msg with_msg wraps]. rewrite find_update by done.
  by destruct (List.find _ _).
Qed.

Lemma card_set_title (card : nat) (t' : string) (w : World) t th :
  card_of card w = Some (t, th) ->
  card_of card (exec (set_title card t') w) = Some (t', th).
Proof.
  intros H. unfold set_title. rewrite card_of_update.
  - unfold card_of in H. destruct (List.find _ _) as [x|]; [|done].
    destruct (w_el x); try done. by injection H as <- <-.
  - intros x. by destruct (w_el x).
Qed.

Lemma card_set_thumb (card : nat) (src : string) (w : World) t th :
  card_of card w = Some (t, th) ->
  card_of card (exec (set_thumb card src) w)
  = Some (t, (fun _ => src) <$> th).
Proof.
  intros H. unfold set_thumb. rewrite card_of_update.
  - unfold card_of in H. destruct (List.find _ _) as [x|]; [|done].
    destruct (w_el x) as [| | | |k l t1 [s|]] eqn:E; try done;
      injection H as <- <-; cbn; by rewrite ?E.
  - intros x. by destruct (w_el x) as [| | | |k l t1 [s|]].
Qed.

Lemma card_remove_thumb (card : nat) (w : World) t th :
  card_of card w = Some (t, th) ->
  card_of card (exec (remove_thumb card) w) = Some (t, None).
Proof.
  intros H. unfold remove_thumb. rewrite card_of_update.
  - unfold card_of in H. destruct (List.find _ _) as [x|]; [|done].
    destruct (w_el x); try done. by injection H as <- <-.
  - intros x. by destruct (w_el x).
Qed.


Lemma or_else_truthy (a b : string) :
  Js.truthy b = true -> Js.truthy (Js.or_else a b) = true.
Proof. intros Hb. unfold Js.or_else. by destruct (Js.truthy a) eqn:E. Qed.

Lemma twitch_meta_title (title0 chan : string) (probe : bool)
    (res : option PageRes) :
  Js.truthy title0 = true ->
  Js.truthy
    (twitch_meta parseFromString encodeURIComponent extractTwitchLiveTitle
       title0 chan probe res).1.1 = true.
Proof.
  intros H0. unfold twitch_meta. destruct res as [r|]; [|done].
  destruct (ok r && Js.truthy (body r)); [|done]. cbv zeta.
  destruct (Js.truthy (if probe then _ else _)) eqn:E; [done|].
  cbn [fst].
  destruct (Js.truthy _ && _) eqn:E2.
  - by apply andb_true_iff in E2 as [E2 _].
  - by apply or_else_truthy, or_else_truthy.
Qed.

Lemma twitch_meta_live (title0 chan : string) (probe : bool)
    (res : option PageRes) :
  (twitch_meta parseFromString encodeURIComponent extractTwitchLiveTitle
     title0 chan probe res).2 = true ->
  probe = true
  /\ exists r, res = Some r /\ usable res = true
       /\ Js.truthy (default EmptyString (extractTwitchLiveTitle (body r)))
          = true.
Proof.
  unfold twitch_meta. destruct res as [r|]; [|done]. cbn [usable].
  destruct (ok r && Js.truthy (body r)); [|done]. cbv zeta.
  destruct probe; [|done].
  destruct (Js.truthy _) eqn:E; [|done].
  intros _. split; [done|]. by exists r.
Qed.

Lemma finish_twitch_run (card : nat) (chan : string)
    (meta : string * string * bool) (go : bool) (w : World) t0 th0 :
  card_of card w = Some (t0, th0) ->
  outcome (finish_twitch card chan meta go) w
  = Normal (if go && meta.2
            then Some (card, Thumb.TwitchChannel chan, 60000%Z) else None)
  /\ card_of card (exec (finish_twitch card chan meta go) w)
     = Some (meta.1.1,
             if Js.truthy meta.1.2 then (fun _ => meta.1.2) <$> th0
             else None).
Proof.
  intros H. destruct meta as [[title image] live]. cbn [fst snd].
  unfold finish_twitch. destruct (Js.truthy image) eqn:E.
  - split; [done|].
    change (exec _ w)
      with (exec (set_title card title) (exec (set_thumb card image) w)).
    apply card_set_title with (t := t0). by apply card_set_thumb.
  - split; [done|].
    change (exec _ w)
      with (exec (set_title card title) (exec (remove_thumb card) w)).
    apply card_set_title with (t := t0).
    by apply card_remove_thumb with (th := th0).
Qed.

Lemma catching_normal {A} (body : M World (option A))
    (handler : M World unit) (w : World) (x : option A) :
  outcome body w = Normal x ->
  outcome (catching body handler) w = Normal x
  /\ exec (catching body handler) w = exec body w.
Proof.
  unfold outcome, exec, catching.
  destruct (body w) as [[y| |e] w1]; cbn; by intros [= ->].
Qed.

Lemma completed_after_finish (title image : string)
    (th0 : option string) :
  Js.truthy title = true ->
  completed (title, if Js.truthy image then (fun _ => image) <$> th0
                    else None) = true.
Proof.
  intros Ht. unfold completed. cbn [fst snd]. rewrite Ht.
  destruct (Js.truthy image) eqn:E; [|done].
  by destruct th0.
Qed.

(** X22. The Twitch cards never stay in their loading state. Whatever the
    worker answers to the metadata request (nothing, a failure, a page
    with or without metadata), the callback of the Twitch branch and the
    callback of the bigscreen branch leave the card with a non-empty
    title, and with a thumbnail that either has a non-empty source or has
    been removed. A refresher is started only when the page carried a live
    title; it is the card's own, bound to the channel, with a period of
    60 s, and in the Twitch branch only for a channel link. *)
Theorem twitch_cards_are_completed (channel video : option string)
    (chan : string) (card : nat) (res : option PageRes) (w : World)
    (t0 : string) (th0 : option string) :
  card_of card w = Some (t0, th0) ->
  let live r0 :=
    res = Some r0 /\ usable res = true
    /\ Js.truthy (default EmptyString (extractTwitchLiveTitle (body r0)))
       = true in
  let twitch :=
    onTwitchPage parseFromString encodeURIComponent extractTwitchLiveTitle
      channel video card res in
  let bigscreen :=
    onBigscreenPage parseFromString encodeURIComponent
      extractTwitchLiveTitle chan card res in
  ((exists c, card_of card (exec twitch w) = Some c /\ completed c = true)
   /\ forall r, outcome twitch w = Normal (Some r) ->
        r = (card, Thumb.TwitchChannel (default EmptyString channel),
             60000%Z)
        /\ Js.truthy (default EmptyString channel) = true
        /\ exists r0, live r0)
  /\ ((exists c, card_of card (exec bigscreen w) = Some c
                 /\ completed c = true)
      /\ forall r, outcome bigscreen w = Normal (Some r) ->
           r = (card, Thumb.TwitchChannel chan, 60000%Z)
           /\ exists r0, live r0).
Proof.
  intros Hcard live twitch bigscreen. split.
  - subst twitch. unfold onTwitchPage. cbv zeta.
    set (c := default EmptyString channel).
    set (title0 := if Js.truthy c then _ else _).
    set (meta := twitch_meta _ _ _ title0 c (Js.truthy c) res).
    assert (Ht0 : Js.truthy title0 = true).
    { subst title0. by destruct (Js.truthy c). }
    destruct (finish_twitch_run card c meta (Js.truthy c) w t0 th0 Hcard)
      as [Hout Hc].
    destruct (catching_normal _ (remove_thumb card) w _ Hout)
      as [Hout' Hexec].
    rewrite Hexec, Hout'. split.
    + eexists. split; [exact Hc|].
      apply completed_after_finish.
      by apply twitch_meta_title.
    + intros r Hr. destruct (Js.truthy c && meta.2) eqn:E; [|done].
      apply andb_true_iff in E as [Ec Elive].
      injection Hr as <-. split; [done|]. split; [done|].
      by destruct (twitch_meta_live _ _ _ _ Elive) as (_ & r0 & Hr0);
        exists r0.
  - subst bigscreen. unfold onBigscreenPage.
    set (title0 := "Twitch • " +:+ chan).
    set (meta := twitch_meta _ _ _ title0 chan true res).
    destruct (finish_twitch_run card chan meta true w t0 th0 Hcard)
      as [Hout Hc].
    destruct (catching_normal _ (set_title card title0 ;; remove_thumb card)%js
                w _ Hout) as [Hout' Hexec].
    rewrite Hexec, Hout'. split.
    + eexists. split; [exact Hc|].
      apply completed_after_finish. by apply twitch_meta_title.
    + intros r Hr. cbn [andb] in Hr. destruct (meta.2) eqn:Elive; [|done].
      injection Hr as <-. split; [done|].
      by destruct (twitch_meta_live _ _ _ _ Elive) as (_ & r0 & Hr0);
        exists r0.
Qed.


End CardCallbacks.

Lemma twitch_cards_are_completed_witness :
  let w := exec (Router.insertCard Page.TwitchCard Sample.a_twitch
                   EmptyString)
             (Sample.page "look" [] Sample.no_pager) in
  exists c,
    card_of 100 (exec (Cards.onTwitchPage (fun _ _ _ => None)
                       (fun s => Some s) (fun _ => None)
                       (Some "xqc") None 100 None) w) = Some c
    /\ completed c = true.
Proof.
  intros w.
  apply (proj1 (proj1 (twitch_cards_are_completed (fun _ _ _ => None)
                         (fun s => Some s) (fun _ => None)
                         (Some "xqc") None "xqc" 100 None w
                         "Loading…" (Some EmptyString) eq_refl))).
Defined.


(** ** Canonical addresses of Reddit and Instagram links *)

Section CanonicalUrls.

Import Dom Page Router Resolver.
Open Scope list_scope.

Variable serializeQuery : list (string * string) -> string.

Lemma params_get_filter (keep : string -> bool) (k : string)
    (ps : list (string * string)) :
  params_get k (List.filter (fun kv => keep kv.1) ps)
  = if keep k then params_get k ps else None.
Proof.
  induction ps as [|[k' v] ps IH]; [by destruct (keep k)|].
  cbn [List.filter params_get fst].
  destruct (String.eqb_spec k k') as [<-|Hne].
  - destruct (keep k) eqn:E; [|exact IH].
    cbn [params_get]. by rewrite String.eqb_refl.
  - destruct (keep k') eqn:E; [|exact IH].
    cbn [params_get]. destruct (String.eqb_spec k k'); [done|exact IH].
Qed.

Lemma filter_again {A} (P : A -> bool) (l : list A) :
  List.filter P (List.filter P l) = List.filter P l.
Proof.
  induction l as [|x l IH]; [done|]. cbn [List.filter].
  destruct (P x) eqn:E; [|exact IH].
  cbn [List.filter]. by rewrite E, IH.
Qed.

(** X24. [sanitizeRedditUrl] removes the tracking parameters and nothing
    else. In the address it returns, each of [utm_source], [utm_medium],
    [utm_campaign], [utm_name], [utm_term] and [utm_content] is absent,
    every other parameter reads as in the link, host, path and fragment
    are the link's, and sanitizing the result again changes nothing. *)
Theorem sanitizeRedditUrl_strips_tracking (u : URL) (k : string) :
  let clean := sanitizeRedditUrl serializeQuery u in
  searchParams_get k clean
  = (if one_of ["utm_source"; "utm_medium"; "utm_campaign"; "utm_name";
                "utm_term"; "utm_content"] k
     then None else searchParams_get k u)
  /\ (protocol clean, hostname clean, pathname clean, hash clean)
     = (protocol u, hostname u, pathname u, hash u)
  /\ sanitizeRedditUrl serializeQuery clean = clean.
Proof.
  intros clean. subst clean. unfold sanitizeRedditUrl, searchParams_get.
  cbn [searchParams protocol hostname pathname hash].
  split; [|split; [done|]].
  - rewrite (params_get_filter
               (fun x => negb (one_of ["utm_source"; "utm_medium";
                                       "utm_campaign"; "utm_name";
                                       "utm_term"; "utm_content"] x))).
    by destruct (one_of _ k).
  - by rewrite filter_again.
Qed.

Lemma reel_to_post_shape (p : string) :
  let q := reel_to_post p in
  String.prefix "/reel/" (Js.toLowerCase q) = false
  /\ String.prefix "/reels/" (Js.toLowerCase q) = false
  /\ (String.prefix "/reel/" (Js.toLowerCase p) = false ->
      String.prefix "/reels/" (Js.toLowerCase p) = false -> q = p).
Proof.
  unfold reel_to_post.
  destruct (String.prefix "/reels/" (Js.toLowerCase p)) eqn:E1.
  - change (Js.toLowerCase ("/p/" +:+ Js.drop 7 p))
      with ("/p/" +:+ Js.toLowerCase (Js.drop 7 p)).
    change (String.prefix "/reel/" ("/p/" +:+ ?x)) with false.
    cbv iota.
    change (Js.toLowerCase ("/p/" +:+ Js.drop 7 p))
      with ("/p/" +:+ Js.toLowerCase (Js.drop 7 p)).
    by split; [|split].
  - destruct (String.prefix "/reel/" (Js.toLowerCase p)) eqn:E2.
    + change (Js.toLowerCase ("/p/" +:+ Js.drop 6 p))
        with ("/p/" +:+ Js.toLowerCase (Js.drop 6 p)).
      by split; [|split].
    + by rewrite E1, E2.
Qed.

(** X25. [canonicalizeInstagramUrl] never leaves a reel path. A link whose
    host, after a leading [www.] is dropped, is not on [instagram.com] is
    returned as it is. For an Instagram link the host loses its leading
    [www.], the path of the result begins with neither [/reel/] nor
    [/reels/] in any letter case, a path that began with neither is kept,
    and query and fragment are the link's. *)
Theorem canonical_instagram_is_never_a_reel (u : URL) :
  let c := canonicalizeInstagramUrl u in
  if Js.domain_of "instagram.com" (Js.strip_www (hostname u))
  then
    hostname c = Js.strip_www (hostname u)
    /\ String.prefix "/reel/" (Js.toLowerCase (pathname c)) = false
    /\ String.prefix "/reels/" (Js.toLowerCase (pathname c)) = false
    /\ (String.prefix "/reel/" (Js.toLowerCase (pathname u)) = false ->
        String.prefix "/reels/" (Js.toLowerCase (pathname u)) = false ->
        pathname c = pathname u)
    /\ (protocol c, search c, hash c, searchParams c)
       = (protocol u, search u, hash u, searchParams u)
  else c = u.
Proof.
  intros c. subst c. unfold canonicalizeInstagramUrl.
  destruct (Js.domain_of "instagram.com" (Js.strip_www (hostname u)));
    [|done].
  cbn [negb hostname pathname protocol search hash searchParams].
  destruct (reel_to_post_shape (pathname u)) as (H1 & H2 & H3).
  by split_and!.
Qed.

End CanonicalUrls.

(** ** What the Imgur callback inserts *)


Section ImgurPages.

Import Dom Page Router Resolver.
Open Scope list_scope.

Variable parseFromString : string -> HtmlDoc.




End ImgurPages.

(** ** The toggles of the popup *)

Section Toggles.

Import Dom Page Router.
Open Scope list_scope.

Variable s : Settings.

Lemma GrowsWith_of_Grows {A} (m : M World A) :
  Grows (toggle_of_el s) (toggle_of_req s) m ->
  Keeps scan_relation m ->
  GrowsWith s m.
Proof.
  intros HG HK w Hs. split; [|apply HG].
  destruct (HK w) as [(H1 & _) _]. by rewrite H1.
Qed.

Lemma GrowsWith_pure {A} (m : M World A) :
  (forall w, exec m w = w) -> GrowsWith s m.
Proof.
  intros H w Hs. rewrite H. split; [done|].
  exists [], []. by rewrite !app_nil_r.
Qed.

Lemma GrowsWith_bind {A B} (m : M World A) (k : A -> M World B) :
  GrowsWith s m -> (forall x, GrowsWith s (k x)) -> GrowsWith s (bind m k).
Proof.
  intros Hm Hk w Hs.
  destruct (Hm w Hs) as (Hs1 & e1 & r1 & H1 & H2 & H3 & H4).
  unfold exec, bind in *. destruct (m w) as [[x| |e] w1]; cbn in *.
  - destruct (Hk x w1 Hs1) as (Hs2 & e2 & r2 & K1 & K2 & K3 & K4).
    unfold exec in Hs2, K1, K3. split; [exact Hs2|].
    exists (e1 ++ e2), (r1 ++ r2).
    rewrite K1, K3, H1, H3, !app_assoc, !forallb_app, H2, H4, K2, K4.
    done.
  - split; [done|]. by exists e1, r1.
  - split; [done|]. by exists e1, r1.
Qed.

Lemma GrowsWith_settings {B} (k : Settings -> M World B) :
  GrowsWith s (k s) ->
  GrowsWith s (bind (gets (fun w => settings (st w))) k).
Proof.
  intros H w Hs. rewrite exec_gets_bind. cbv beta. rewrite Hs.
  by apply H.
Qed.

Lemma GrowsWith_when (c : bool) (m : M World unit) :
  (c = true -> GrowsWith s m) -> GrowsWith s (when c m).
Proof.
  intros H. destruct c; [by apply H|]. by apply GrowsWith_pure.
Qed.

Lemma GrowsWith_call (m : M World unit) :
  GrowsWith s m -> GrowsWith s (call m).
Proof.
  intros H w Hs. destruct (H w Hs) as (Hs1 & e1 & r1 & H1).
  unfold exec, call in *. destruct (m w) as [[x| |e] w1];
    (split; [done|]; by exists e1, r1).
Qed.

Lemma GrowsWith_try_catch (m : M World unit) (h : JsError -> M World unit) :
  GrowsWith s m -> (forall e, GrowsWith s (h e)) ->
  GrowsWith s (try_catch m h).
Proof.
  intros Hm Hh w Hs.
  destruct (Hm w Hs) as (Hs1 & e1 & r1 & H1 & H2 & H3 & H4).
  unfold exec, try_catch in *. destruct (m w) as [[x| |e] w1]; cbn in *;
    try (split; [done|]; by exists e1, r1).
  destruct (Hh e w1 Hs1) as (Hs2 & e2 & r2 & K1 & K2 & K3 & K4).
  unfold exec in Hs2, K1, K3. split; [exact Hs2|].
  exists (e1 ++ e2), (r1 ++ r2).
  rewrite K1, K3, H1, H3, !app_assoc, !forallb_app, H2, H4, K2, K4.
  done.
Qed.

Ltac toggle_leaf :=
  cbn [toggle_of_el toggle_of_req rq_cb];
  repeat match goal with
         | H : (_ && _)%bool = true |- _ =>
             apply andb_true_iff in H as [? ?]
         end;
  first [assumption | reflexivity].

Ltac toggles_walk :=
  lazymatch goal with
  | |- GrowsWith _ (bind (gets (fun w => settings (st w))) _) =>
      apply GrowsWith_settings; toggles_walk
  | |- GrowsWith _ (bind _ _) =>
      apply GrowsWith_bind; [toggles_walk | intros ?; toggles_walk]
  | |- GrowsWith _ (when _ _) =>
      apply GrowsWith_when; intros ?; toggles_walk
  | |- GrowsWith _ (call _) => apply GrowsWith_call; toggles_walk
  | |- GrowsWith _ (try_catch _ _) =>
      apply GrowsWith_try_catch; [toggles_walk | intros ?; toggles_walk]
  | |- GrowsWith _ (gets _) => by apply GrowsWith_pure
  | |- GrowsWith _ skip => by apply GrowsWith_pure
  | |- GrowsWith _ return_ => by apply GrowsWith_pure
  | |- GrowsWith _ (throw _) => by apply GrowsWith_pure
  | |- GrowsWith _ (ret _) => by apply GrowsWith_pure
  | |- GrowsWith _ fresh =>
      apply GrowsWith_of_Grows; [apply Grows_fresh | apply sr_fresh]
  | |- GrowsWith _ (modify (with_msg _)) =>
      apply GrowsWith_of_Grows;
        [by apply Grows_same | by apply sr_modify_msg]
  | |- GrowsWith _ (safeSendMessage _ _) =>
      apply GrowsWith_of_Grows;
        [apply Grows_send; toggle_leaf | apply sr_send]
  | |- GrowsWith _ (injectBelow _ _ _ _) =>
      apply GrowsWith_of_Grows;
        [apply Grows_injectBelow; toggle_leaf | apply sr_injectBelow]
  | |- GrowsWith _ (insertCard _ _ _) =>
      apply GrowsWith_of_Grows;
        [apply Grows_insertCard; toggle_leaf | apply sr_insertCard]
  | |- GrowsWith _ (resolveAndEmbedImgur _ _) =>
      unfold resolveAndEmbedImgur; toggles_walk
  | |- GrowsWith _ (resolveAndEmbedInstagram _ _) =>
      unfold resolveAndEmbedInstagram; cbv zeta; toggles_walk
  | |- GrowsWith _ (resolveAndEmbedReddit _ _) =>
      unfold resolveAndEmbedReddit; toggles_walk
  | |- GrowsWith _ (match ?x with _ => _ end) =>
      destruct x eqn:?; toggles_walk
  | _ => idtac
  end.

Lemma tryEmbed_toggles (a : Anchor) : GrowsWith s (tryEmbed a).
Proof. unfold tryEmbed. cbv zeta. toggles_walk. Qed.

End Toggles.

(** X27. The toggles of the popup are respected. Whatever link [tryEmbed]
    is given and whatever the page holds, with the settings in force when
    it runs: a tweet card is inserted and a tweet requested only with
    [enableTweets] on; an image or a video is inserted, and an Imgur page
    or a Reddit post requested, only with [enableMedia] on; a YouTube,
    Twitch or bigscreen, or Kick card is inserted and its metadata
    requested only with [enableYouTube], [enableTwitch] or [enableKick]
    on; an Instagram page is requested only with [enableInstagram] on.
    Only the resolution of a [t.co] link stands under no toggle. The
    settings themselves are left as they are. *)
Theorem toggles_are_respected (a : Dom.Anchor) (w : Page.World) :
  let s := Page.settings (Page.st w) in
  let w' := exec (Router.tryEmbed a) w in
  Page.settings (Page.st w') = s
  /\ exists els reqs,
       map Page.w_el (Page.wraps (Page.msg w'))
       = (map Page.w_el (Page.wraps (Page.msg w)) ++ els)%list
       /\ forallb (toggle_of_el s) els = true
       /\ Page.outbox w' = (Page.outbox w ++ reqs)%list
       /\ forallb (toggle_of_req s) reqs = true.
Proof.
  intros s w'. exact (tryEmbed_toggles s a w eq_refl).
Qed.

(** ** The attributes [retargetLinks] writes *)

Section LinkAttributes.

Import Links.
Open Scope list_scope.

Lemma string_app_nil_r (s : string) : s +:+ "" = s.
Proof.
  induction s as [|c s IH]; [done|].
  change (String c s +:+ "") with (String c (s +:+ "")). by f_equal.
Qed.

Lemma string_app_assoc (a b c : string) :
  (a +:+ b) +:+ c = a +:+ (b +:+ c).
Proof.
  induction a as [|x a IH]; [done|].
  change (String x ((a +:+ b) +:+ c) = String x (a +:+ (b +:+ c))).
  by f_equal.
Qed.

Lemma toLowerCase_app (a b : string) :
  Js.toLowerCase (a +:+ b) = Js.toLowerCase a +:+ Js.toLowerCase b.
Proof.
  induction a as [|x a IH]; [done|].
  change (String (Js.lower_char x) (Js.toLowerCase (a +:+ b))
          = String (Js.lower_char x)
              (Js.toLowerCase a +:+ Js.toLowerCase b)).
  by f_equal.
Qed.

Lemma lower_fixed (t : string) :
  Js.all_chars (fun c => Ascii.eqb (Js.lower_char c) c) t = true ->
  Js.toLowerCase t = t.
Proof.
  induction t as [|c t IH]; [done|]. simpl. intros H.
  apply andb_true_iff in H as [Hc Ht]. apply Ascii.eqb_eq in Hc.
  by rewrite Hc, IH.
Qed.

Lemma lowered_is_fixed (s : string) :
  Js.all_chars (fun c => Ascii.eqb (Js.lower_char c) c) (Js.toLowerCase s)
  = true.
Proof.
  induction s as [|c s IH]; [done|]. simpl.
  rewrite lower_char_idem, IH. by rewrite Ascii.eqb_refl.
Qed.

Lemma tokens_from_run (t : string) : forall cur s,
  Js.all_chars (fun c => negb (Js.is_space c)) t = true ->
  tokens_from cur (t +:+ s) = tokens_from (cur +:+ t) s.
Proof.
  induction t as [|c t IH]; intros cur s H.
  - by rewrite string_app_nil_r.
  - simpl in H. apply andb_true_iff in H as [Hc Ht].
    apply negb_true_iff in Hc. simpl. rewrite Hc.
    rewrite (IH _ _ Ht). by rewrite string_app_assoc.
Qed.

Lemma tokens_from_tokens (s : string) : forall cur,
  Js.all_chars (fun c => negb (Js.is_space c)) cur = true ->
  Js.all_chars (fun c => Ascii.eqb (Js.lower_char c) c) cur = true ->
  Js.all_chars (fun c => Ascii.eqb (Js.lower_char c) c) s = true ->
  forallb rel_token (tokens_from cur s) = true.
Proof.
  induction s as [|c s IH]; intros cur Hsp Hlow Hs; simpl.
  - destruct cur as [|x cur]; [done|]. cbn [Js.is_empty forallb].
    unfold rel_token. by rewrite Hsp, Hlow.
  - simpl in Hs. apply andb_true_iff in Hs as [Hc Hs].
    destruct (Js.is_space c) eqn:E.
    + destruct cur as [|x cur]; cbn [Js.is_empty forallb].
      * by apply IH.
      * unfold rel_token at 1. rewrite Hsp, Hlow. by apply IH.
    + apply IH; [| |done]; rewrite all_chars_app; simpl.
      * by rewrite Hsp, E.
      * by rewrite Hlow, Hc.
Qed.

Lemma tokens_join (l : list string) :
  forallb rel_token l = true -> tokens (join l) = l.
Proof.
  induction l as [|x l IH]; [done|]. intros H.
  cbn [forallb] in H. apply andb_true_iff in H as [Hx Hl].
  unfold rel_token in Hx.
  apply andb_true_iff in Hx as [Hx _].
  apply andb_true_iff in Hx as [Hne Hsp].
  destruct l as [|y r].
  - cbn [join]. unfold tokens.
    rewrite <- (string_app_nil_r x) at 1.
    rewrite tokens_from_run by done. simpl.
    by destruct x.
  - change (join (x :: y :: r)) with (x +:+ " " +:+ join (y :: r)).
    unfold tokens. rewrite tokens_from_run by done.
    change ("" +:+ x) with x.
    change (" " +:+ join (y :: r)) with (String " " (join (y :: r))).
    cbn [tokens_from]. change (Js.is_space " ") with true. cbv iota.
    destruct x as [|c x]; [done|]. cbn [Js.is_empty].
    f_equal. by apply IH.
Qed.

Lemma join_lower (l : list string) :
  forallb rel_token l = true -> Js.toLowerCase (join l) = join l.
Proof.
  induction l as [|x l IH]; [done|]. intros H.
  cbn [forallb] in H. apply andb_true_iff in H as [Hx Hl].
  unfold rel_token in Hx. apply andb_true_iff in Hx as [_ Hlow].
  destruct l as [|y r]; [by apply lower_fixed|].
  change (join (x :: y :: r)) with (x +:+ " " +:+ join (y :: r)).
  rewrite !toLowerCase_app, (lower_fixed x Hlow), (IH Hl). done.
Qed.

Lemma dedup_from_fixed (l : list string) : forall seen,
  NoDup l -> (forall x, In x l -> ~ In x seen) ->
  Background.dedup_from seen l = l.
Proof.
  induction l as [|y l IH]; intros seen Hnd Hdis; [done|].
  apply NoDup_cons in Hnd as [Hy Hnd]. cbn [Background.dedup_from].
  destruct (existsb (String.eqb y) seen) eqn:E.
  - apply existsb_exists in E as (z & Hz & Hyz).
    apply String.eqb_eq in Hyz as <-.
    destruct (Hdis y); [by left|done].
  - f_equal. apply IH; [done|]. intros x Hx [<-|Hs].
    + apply Hy. by apply list_elem_of_In.
    + apply (Hdis x); [by right|done].
Qed.

Lemma set_add_spec (x : string) (l : list string) :
  (In x l -> set_add x l = l)
  /\ (forall y, In y (set_add x l) <-> y = x \/ In y l)
  /\ (NoDup l -> NoDup (set_add x l))
  /\ (rel_token x = true -> forallb rel_token l = true ->
      forallb rel_token (set_add x l) = true).
Proof.
  unfold set_add. destruct (existsb (String.eqb x) l) eqn:E.
  - apply existsb_exists in E as (z & Hz & Hxz).
    apply String.eqb_eq in Hxz as <-.
    split; [done|]. split; [|done].
    intros y. split; [tauto|]. by intros [->|H].
  - assert (Hx : ~ In x l).
    { intros Hx. assert (existsb (String.eqb x) l = true); [|congruence].
      apply existsb_exists. exists x. split; [done|].
      apply String.eqb_refl. }
    split; [done|]. split; [|split].
    + intros y. rewrite in_app_iff. cbn [In]. split.
      * intros [H|[<-|[]]]; tauto.
      * intros [->|H]; tauto.
    + intros Hnd. apply NoDup_app. split; [done|].
      split; [|apply NoDup_singleton].
      intros y Hy Hyx. apply list_elem_of_singleton in Hyx as ->.
      apply Hx. by apply list_elem_of_In.
    + intros Hx' Hl. rewrite forallb_app, Hl. cbn. by rewrite Hx'.
Qed.

Lemma rel_parts_spec (a : Link) :
  NoDup (rel_parts a)
  /\ forallb rel_token (rel_parts a) = true
  /\ In "noopener" (rel_parts a)
  /\ In "noreferrer" (rel_parts a)
  /\ (forall t, In t (rel_parts a) <->
        t = "noreferrer" \/ t = "noopener"
        \/ In t (tokens (Js.toLowerCase (default "" (rel a))))).
Proof.
  unfold rel_parts.
  set (toks := tokens (Js.toLowerCase (default "" (rel a)))).
  destruct (dedup_spec toks) as [Hnd Hin].
  assert (Htok : forallb rel_token (Background.dedup toks) = true).
  { apply forallb_forall. intros t Ht.
    apply list_elem_of_In, Hin, list_elem_of_In in Ht.
    assert (H : forallb rel_token toks = true).
    { apply tokens_from_tokens; [done|done|apply lowered_is_fixed]. }
    rewrite forallb_forall in H. by apply H. }
  destruct (set_add_spec "noopener" (Background.dedup toks))
    as (_ & Hin1 & Hnd1 & Htok1).
  destruct (set_add_spec "noreferrer"
              (set_add "noopener" (Background.dedup toks)))
    as (_ & Hin2 & Hnd2 & Htok2).
  split; [by apply Hnd2, Hnd1|].
  split; [by apply Htok2; [|apply Htok1]|].
  split; [apply Hin2; right; apply Hin1; by left|].
  split; [apply Hin2; by left|].
  intros t. rewrite Hin2, Hin1.
  by rewrite <- (list_elem_of_In (Background.dedup toks) t), Hin,
    list_elem_of_In.
Qed.

(** X28. The attributes [retargetLinks] writes. Every link it visits
    gets [target="_blank"] and a [rel] that reads back as a list of
    pairwise distinct tokens: [noopener], [noreferrer] and exactly the
    tokens the link had, in lower case. Visiting a link again changes
    nothing, so repeated passes over a wrapper never grow the
    attribute. *)
Theorem retargetLinks_sets_rel_once :
  (forall a : Link,
      let b := retarget a in
      target b = Some "_blank"
      /\ retarget b = b
      /\ exists parts,
           rel b = Some (join parts) /\ tokens (join parts) = parts
           /\ NoDup parts
           /\ forall t, In t parts <->
                t = "noreferrer" \/ t = "noopener"
                \/ In t (tokens (Js.toLowerCase (default "" (rel a)))))
  /\ (forall links,
        retargetLinks (retargetLinks links) = retargetLinks links).
Proof.
  assert (Hidem : forall a, retarget (retarget a) = retarget a).
  { intros a.
    destruct (rel_parts_spec a) as (Hnd & Htok & Hno & Hnr & _).
    unfold retarget at 1. f_equal. f_equal.
    unfold rel_parts at 1.
    change (default "" (rel (retarget a))) with (join (rel_parts a)).
    rewrite (join_lower _ Htok), (tokens_join _ Htok).
    unfold Background.dedup. rewrite dedup_from_fixed; [|done|tauto].
    rewrite (proj1 (set_add_spec "noopener" (rel_parts a)) Hno).
    by rewrite (proj1 (set_add_spec "noreferrer" (rel_parts a)) Hnr). }
  split.
  - intros a b. subst b.
    destruct (rel_parts_spec a) as (Hnd & Htok & _ & _ & Hin).
    split; [done|]. split; [apply Hidem|].
    exists (rel_parts a).
    split; [done|]. split; [by apply tokens_join|]. by split.
  - intros links. unfold retargetLinks. rewrite map_map.
    apply map_ext. intros a. apply Hidem.
Qed.

End LinkAttributes.
